(** * opsbrew: the status classifier, the resolution layer and the recipe
    commands, embedded from the Go sources and checked against the
    specification.

    Definitions: the Go string primitives the code calls ([GoStrings]),
    package [git] ([ParseStatus]), Go maps ([GoMap]), package [config], the
    [World] the commands run in with the monad [Cmd] of the handlers,
    [fmt.Scanln] on the lines typed, package [kubernetes], the handlers of
    package [cmd] and the vocabulary of the statements. Theorems: the
    classifier, the resolution layer, the recipe runner, the recipe store,
    and further properties of the handlers. *)

From Stdlib Require Import Ascii String DecimalString.
From stdpp Require Import base option list strings gmap.

Local Open Scope string_scope.
Local Open Scope list_scope.
Local Open Scope nat_scope.

(** ** Go strings

    A Go [string] is a sequence of bytes; [string] over [ascii] (eight bits)
    is the same data. Slicing and indexing panic out of range: they return
    [None] here. *)
Module GoStrings.

Definition byte_of (n : nat) : ascii := ascii_of_nat n.
Definition code (c : ascii) : nat := nat_of_ascii c.

(** [s[:n]]; a run-time panic when [n > len(s)]. *)
Fixpoint sliceTo (s : string) (n : nat) {struct n} : option string :=
  match n, s with
  | O, _ => Some ""
  | S n', String c s' => String c <$> sliceTo s' n'
  | S _, EmptyString => None
  end.

(** [s[n:]]; a run-time panic when [n > len(s)]. *)
Fixpoint sliceFrom (s : string) (n : nat) {struct n} : option string :=
  match n, s with
  | O, _ => Some s
  | S n', String _ s' => sliceFrom s' n'
  | S _, EmptyString => None
  end.

(** [s[i]]; a run-time panic when [i >= len(s)]. *)
Definition byteAt (s : string) (i : nat) : option ascii := String.get i s.

(** [strings.HasPrefix(s, prefix)]. *)
Definition HasPrefix (s prefix : string) : bool := String.prefix prefix s.

(** The table [asciiSpace] of package strings: tab, line feed, vertical
    tab, form feed, carriage return, space. *)
Definition asciiSpace (c : ascii) : bool :=
  let n := code c in
  (Nat.leb 9 n && Nat.leb n 13) || Nat.eqb n 32.

(** [unicode.IsSpace] on the UTF-8 bytes. Besides the six ASCII bytes the
    white space code points are U+0085, U+00A0, U+1680, U+2000..U+200A,
    U+2028, U+2029, U+202F, U+205F and U+3000. Go's decoder accepts only
    the shortest encoding of a code point and gives an invalid byte
    width 1 (as U+FFFD, not a space), so a white space rune starts at [s]
    exactly when [s] starts with one of these byte sequences.
    [spaceWidth s] is the width of that rune, or 0. *)
Definition spaceWidth (s : string) : nat :=
  match s with
  | EmptyString => 0
  | String c0 r0 =>
    if asciiSpace c0 then 1
    else match code c0, r0 with
    | 194, String c1 _ =>
        if Nat.eqb (code c1) 133 || Nat.eqb (code c1) 160 then 2 else 0
    | 225, String c1 (String c2 _) =>
        if Nat.eqb (code c1) 154 && Nat.eqb (code c2) 128 then 3 else 0
    | 226, String c1 (String c2 _) =>
        if Nat.eqb (code c1) 128 then
          if Nat.leb 128 (code c2) && Nat.leb (code c2) 138 then 3
          else if Nat.eqb (code c2) 168 || Nat.eqb (code c2) 169
                  || Nat.eqb (code c2) 175 then 3
          else 0
        else if Nat.eqb (code c1) 129 && Nat.eqb (code c2) 159 then 3
        else 0
    | 227, String c1 (String c2 _) =>
        if Nat.eqb (code c1) 128 && Nat.eqb (code c2) 128 then 3 else 0
    | _, _ => 0
    end
  end.

(** The same test read from the end of the string
    ([utf8.DecodeLastRuneInString]): [r] is the string reversed. *)
Definition spaceWidthRev (r : string) : nat :=
  match r with
  | EmptyString => 0
  | String c0 r0 =>
    if asciiSpace c0 then 1
    else match r0 with
    | String c1 r1 =>
        if spaceWidth (String c1 (String c0 "")) is 2 then 2
        else match r1 with
        | String c2 _ =>
            if spaceWidth (String c2 (String c1 (String c0 ""))) is 3
            then 3 else 0
        | EmptyString => 0
        end
    | EmptyString => 0
    end
  end.

(** Drops white space runes from the front with the width test [width];
    [skip] counts the bytes still to drop of the rune being removed. *)
Fixpoint trimWith (width : string → nat) (skip : nat) (s : string) : string :=
  match s with
  | EmptyString => ""
  | String _ s' =>
    match skip with
    | S k => trimWith width k s'
    | O => match width s with
           | O => s
           | S k => trimWith width k s'
           end
    end
  end.

(** [strings.TrimSpace(s)]: leading white space is removed first, then
    trailing white space of what is left. *)
Definition TrimSpace (s : string) : string :=
  String.rev (trimWith spaceWidthRev 0 (String.rev (trimWith spaceWidth 0 s))).

(** [strings.Split(s, sep)] for a separator of one byte, the only kind
    the sources pass (a line feed, a comma): always at least one piece. *)
Fixpoint splitOn (sep : ascii) (s cur : string) : list string :=
  match s with
  | EmptyString => [cur]
  | String c s' =>
    if Ascii.eqb c sep then cur :: splitOn sep s' ""
    else splitOn sep s' (cur +:+ String c "")
  end.

Definition Split (s : string) (sep : ascii) : list string := splitOn sep s "".

(** [strings.Fields(s)]: the maximal runs of bytes between white space. *)
Fixpoint fieldsFrom (skip : nat) (s cur : string) : list string :=
  let flush := if decide (cur = "") then [] else [cur] in
  match s with
  | EmptyString => flush
  | String c s' =>
    match skip with
    | S k => fieldsFrom k s' cur
    | O => match spaceWidth s with
           | O => fieldsFrom 0 s' (cur +:+ String c "")
           | S k => flush ++ fieldsFrom k s' ""
           end
    end
  end.

Definition Fields (s : string) : list string := fieldsFrom 0 s "".

(** [strings.Join(elems, sep)]. *)
Fixpoint Join (elems : list string) (sep : string) : string :=
  match elems with
  | [] => ""
  | [e] => e
  | e :: rest => e +:+ sep +:+ Join rest sep
  end.

Definition isASCII (s : string) : bool :=
  forallb (λ c, Nat.ltb (code c) 128) (list_ascii_of_string s).

Definition lowerByte (c : ascii) : ascii :=
  let n := code c in
  if Nat.leb 65 n && Nat.leb n 90 then byte_of (n + 32) else c.

Fixpoint mapBytes (f : ascii → ascii) (s : string) : string :=
  match s with
  | EmptyString => ""
  | String c s' => String (f c) (mapBytes f s')
  end.

(** [strings.ToLower(s)]: a string of ASCII bytes has its letters A..Z
    lowered byte by byte; any other string goes through
    [strings.Map(unicode.ToLower, s)], whose case tables are outside the
    repository and are the parameter [unicodeLower]. *)
Definition ToLower (unicodeLower : string → string) (s : string) : string :=
  if isASCII s then mapBytes lowerByte s else unicodeLower s.

(** [%d] of a non-negative integer. *)
Definition itoa (n : nat) : string := NilZero.string_of_uint (Nat.to_uint n).

Definition LF : ascii := byte_of 10.

End GoStrings.

Import GoStrings.

(** ** Package git: the status classifier *)
Module git.

(** [type FileStatus struct]. [ParseStatus] never sets [Type]. *)
Record FileStatus := mkFileStatus {
  Path : string;
  Status : string;
  Type_ : string
}.

(** [type GitStatus struct]: the six buckets. *)
Record GitStatus := mkGitStatus {
  Modified : list FileStatus;
  Staged : list FileStatus;
  Untracked : list FileStatus;
  Deleted : list FileStatus;
  Renamed : list FileStatus;
  Conflicted : list FileStatus
}.

(** [&GitStatus{}] *)
Definition emptyStatus : GitStatus := mkGitStatus [] [] [] [] [] [].

Inductive Bucket :=
  BModified | BStaged | BUntracked | BDeleted | BRenamed | BConflicted.

Global Instance Bucket_eq_dec : EqDecision Bucket.
Proof. solve_decision. Defined.

Definition bucket (b : Bucket) (st : GitStatus) : list FileStatus :=
  match b with
  | BModified => Modified st
  | BStaged => Staged st
  | BUntracked => Untracked st
  | BDeleted => Deleted st
  | BRenamed => Renamed st
  | BConflicted => Conflicted st
  end.

(** [status.B = append(status.B, f)] *)
Definition appendTo (b : Bucket) (st : GitStatus) (f : FileStatus) : GitStatus :=
  match b with
  | BModified =>
      mkGitStatus (Modified st ++ [f]) (Staged st) (Untracked st)
                  (Deleted st) (Renamed st) (Conflicted st)
  | BStaged =>
      mkGitStatus (Modified st) (Staged st ++ [f]) (Untracked st)
                  (Deleted st) (Renamed st) (Conflicted st)
  | BUntracked =>
      mkGitStatus (Modified st) (Staged st) (Untracked st ++ [f])
                  (Deleted st) (Renamed st) (Conflicted st)
  | BDeleted =>
      mkGitStatus (Modified st) (Staged st) (Untracked st)
                  (Deleted st ++ [f]) (Renamed st) (Conflicted st)
  | BRenamed =>
      mkGitStatus (Modified st) (Staged st) (Untracked st)
                  (Deleted st) (Renamed st ++ [f]) (Conflicted st)
  | BConflicted =>
      mkGitStatus (Modified st) (Staged st) (Untracked st)
                  (Deleted st) (Renamed st) (Conflicted st ++ [f])
  end.

(** The [switch] of [ParseStatus], cases in the order of the source: the
    bucket the code [xy] selects, if any. [None] outside is the panic of
    [xy[1]]. *)
Definition switchXY (xy : string) : option (option Bucket) :=
  if HasPrefix xy "M" then
    c ← byteAt xy 1;
    if Ascii.eqb c "M" then Some (Some BModified) else Some (Some BStaged)
  else if HasPrefix xy "A" then Some (Some BStaged)
  else if HasPrefix xy "D" then Some (Some BDeleted)
  else if HasPrefix xy "R" then Some (Some BRenamed)
  else if HasPrefix xy "??" then Some (Some BUntracked)
  else if HasPrefix xy "UU" || HasPrefix xy "AA" || HasPrefix xy "DD"
  then Some (Some BConflicted)
  else Some None.

(** One turn of the loop over the lines. *)
Definition parseLine (status : GitStatus) (line : string) : option GitStatus :=
  if decide (line = "") then Some status
  else if decide (String.length line < 3) then Some status
  else
    xy ← sliceTo line 2;
    path ← sliceFrom line 3;
    let fileStatus := mkFileStatus path xy "" in
    b ← switchXY xy;
    match b with
    | Some b => Some (appendTo b status fileStatus)
    | None => Some status
    end.

Fixpoint parseLines (status : GitStatus) (lines : list string) : option GitStatus :=
  match lines with
  | [] => Some status
  | line :: rest => status' ← parseLine status line; parseLines status' rest
  end.

(** [func ParseStatus(output string) *GitStatus]; [None] is a run-time
    panic. *)
Definition ParseStatus (output : string) : option GitStatus :=
  parseLines emptyStatus (Split (TrimSpace output) LF).

End git.

Definition nl : string := String LF "".

(** Go's [(value, error)] results; an error is carried as its message, and
    [fmt.Errorf("...: %w", err)] is the prefix put before it. *)
Inductive Result (A : Type) := Ok (a : A) | Err (e : string).
Arguments Ok {A} a.
Arguments Err {A} e.

(** A Go map is [nil] or a table. Reading and [delete] treat [nil] as
    empty; assigning to an entry of [nil] panics. *)
Module GoMap.
Section Ops.
Context {V : Type}.

(** [v, exists := m[k]] *)
Definition get (m : option (gmap string V)) (k : string) : option V :=
  match m with Some t => t !! k | None => None end.

(** [m[k] = v]; [None] is the panic on a nil map. *)
Definition set (m : option (gmap string V)) (k : string) (v : V)
  : option (option (gmap string V)) :=
  match m with Some t => Some (Some (<[k:=v]> t)) | None => None end.

(** [delete(m, k)] *)
Definition del (m : option (gmap string V)) (k : string)
  : option (gmap string V) :=
  match m with Some t => Some (delete k t) | None => None end.
End Ops.
End GoMap.

(** ** Package config *)
Module config.

(** [type Recipe struct] *)
Record Recipe := mkRecipe {
  Description : string;
  Commands : list string;
  Tags : list string
}.

Record GitSection := mkGit {
  DefaultBranch : string;
  Aliases : option (gmap string string);
  AutoFetch : bool
}.

Record KubernetesSection := mkKubernetes {
  DefaultContext : string;
  DefaultNamespace : string;
  ContextAliases : option (gmap string string);
  NamespaceAliases : option (gmap string string)
}.

Record BrewSection := mkBrew {
  Recipes : option (gmap string Recipe)
}.

Record TemplatesSection := mkTemplates {
  TemplatesPath : string
}.

Record UISection := mkUI {
  Colors : bool;
  Verbose : bool;
  Confirm : bool;
  DryRun : bool
}.

(** [type Config struct] with its five anonymous struct fields. *)
Record Config := mkConfig {
  Git : GitSection;
  Kubernetes : KubernetesSection;
  Brew : BrewSection;
  Templates : TemplatesSection;
  UI : UISection
}.

(** [cfg.Brew.Recipes = m], every other field kept. *)
Definition withRecipes (cfg : Config) (m : option (gmap string Recipe)) : Config :=
  mkConfig (Git cfg) (Kubernetes cfg) (mkBrew m) (Templates cfg) (UI cfg).

(** The file [SaveConfig] writes: [viper.ConfigFileUsed()] when it is set,
    else [filepath.Join(home, ".opsbrew.yaml")]. *)
Inductive ConfigPath :=
| UsedFile (path : string)
| HomeFile (home : string).

End config.

Import config.

(** ** The world the commands run in

    Everything outside the repository is an answer the world holds ready
    (terminal input, the configuration viper decodes, process exits, the
    fuzzy finder) and every visible effect is appended to [trace]. *)

Inductive Color := Red | Green | Yellow | Cyan.

Inductive Event :=
| Out (text : string)                       (* fmt.Print, Printf, Println: the bytes *)
| Say (c : Color) (line : string)           (* color.Red, Green, ...: one line *)
| Exec (argv : list string)                 (* a process started: Run or Output *)
| Find (labels : list string)               (* fuzzyfinder.Find on the candidates *)
| WriteFile (path : ConfigPath) (doc : Config).  (* os.WriteFile of the marshalled cfg *)

Record World := mkWorld {
  (* the package variables of cmd set from the global flags *)
  dryRun : bool;
  confirm : bool;
  (* viper and the file system *)
  repoFile : bool;                        (* os.Stat(".opsbrew.yaml") succeeds *)
  readInConfig : option string;           (* error of viper.ReadInConfig on it *)
  unmarshal : Result Config;              (* viper.Unmarshal(&cfg) *)
  configFileUsed : string;                (* viper.ConfigFileUsed() *)
  homeDir : Result string;                (* homedir.Dir() *)
  marshal : Config → option string;       (* error of yaml.Marshal(cfg) *)
  writeFile : ConfigPath → option string; (* error of os.WriteFile *)
  (* the terminal *)
  stdin : list (Result string);           (* the text typed, line by line, and read errors *)
  (* processes: stdout or the error, given what happened before *)
  process : list Event → list string → Result string;
  fuzzyFind : list string → Result nat;   (* the index picked, or the error *)
  trace : list Event
}.

Definition emit (e : Event) (w : World) : World :=
  mkWorld (dryRun w) (confirm w) (repoFile w) (readInConfig w) (unmarshal w)
          (configFileUsed w) (homeDir w) (marshal w) (writeFile w) (stdin w)
          (process w) (fuzzyFind w) (trace w ++ [e]).

(** Several events in a row. *)
Definition emitAll (es : list Event) (w : World) : World :=
  mkWorld (dryRun w) (confirm w) (repoFile w) (readInConfig w) (unmarshal w)
          (configFileUsed w) (homeDir w) (marshal w) (writeFile w) (stdin w)
          (process w) (fuzzyFind w) (trace w ++ es).

Definition setStdin (l : list (Result string)) (w : World) : World :=
  mkWorld (dryRun w) (confirm w) (repoFile w) (readInConfig w) (unmarshal w)
          (configFileUsed w) (homeDir w) (marshal w) (writeFile w) l
          (process w) (fuzzyFind w) (trace w).

Definition setConfigFile (path : string) (w : World) : World :=
  mkWorld (dryRun w) (confirm w) (repoFile w) (readInConfig w) (unmarshal w)
          path (homeDir w) (marshal w) (writeFile w) (stdin w)
          (process w) (fuzzyFind w) (trace w).

(** What a [RunE] handler gives back: [nil], an error, or a run-time
    panic. *)
Inductive Exit := Nil | Error (msg : string) | Panic.

(** A piece of a handler either goes on with a value or leaves the handler
    ([return e]). *)
Inductive Step (A : Type) := Next (a : A) | Return (e : Exit).
Arguments Next {A} a.
Arguments Return {A} e.

Definition Cmd (A : Type) : Type := World → Step A * World.

Definition ret {A} (a : A) : Cmd A := λ w, (Next a, w).
Definition leave {A} (e : Exit) : Cmd A := λ w, (Return e, w).
Definition bind {A B} (c : Cmd A) (k : A → Cmd B) : Cmd B :=
  λ w, match c w with
       | (Next a, w') => k a w'
       | (Return e, w') => (Return e, w')
       end.

Global Instance Cmd_ret : MRet Cmd := @ret.
Global Instance Cmd_bind : MBind Cmd := λ A B k c, bind c k.

(** The handler run to its end: falling off the end is [return nil]. *)
Definition run (c : Cmd unit) (w : World) : Exit * World :=
  match c w with
  | (Next _, w') => (Nil, w')
  | (Return e, w') => (e, w')
  end.

Definition out (text : string) : Cmd unit := λ w, (Next (), emit (Out text) w).
Definition say (c : Color) (line : string) : Cmd unit :=
  λ w, (Next (), emit (Say c line) w).
Definition ask {A} (f : World → A) : Cmd A := λ w, (Next (f w), w).

(** ** Package fmt: [Scanln] into one string

    [fmt.Scanln(&s)] reads one line: it skips white space, stores the runes
    up to the next white space in [s], and accepts only white space between
    that word and the line feed. A line with no word (the bare Enter, a
    blank line) is the error "unexpected newline"; text after the word is
    the error "expected newline". The word is never empty. *)
Module fmt.

Definition within (lo hi n : nat) : bool := Nat.leb lo n && Nat.leb n hi.

(** The table [first] of package utf8 for the byte that starts a rune: the
    length of the encoding and the range of its second byte. ASCII and the
    bytes that start no encoding have length 1. *)
Definition lead (b0 : nat) : nat * (nat * nat) :=
  if Nat.ltb b0 194 then (1, (128, 191))
  else if Nat.leb b0 223 then (2, (128, 191))
  else if Nat.eqb b0 224 then (3, (160, 191))
  else if Nat.eqb b0 237 then (3, (128, 159))
  else if Nat.leb b0 239 then (3, (128, 191))
  else if Nat.eqb b0 240 then (4, (144, 191))
  else if Nat.leb b0 243 then (4, (128, 191))
  else if Nat.eqb b0 244 then (4, (128, 143))
  else (1, (128, 191)).

(** The byte at [i] of what is left of the line; the line feed follows the
    last byte. *)
Definition peek (s : string) (i : nat) : nat :=
  match String.get i s with
  | Some c => code c
  | None => 10
  end.

(** [utf8.DecodeRune] at the head of [s]: the width of the encoding that
    starts there, or 0 when none does (the byte then decodes as U+FFFD of
    width 1). *)
Definition runeLen (s : string) : nat :=
  match s with
  | EmptyString => 0
  | String c0 _ =>
    if Nat.ltb (code c0) 128 then 1
    else
      let '(size, (lo, hi)) := lead (code c0) in
      let second := within lo hi (peek s 1) in
      let third := within 128 191 (peek s 2) in
      let fourth := within 128 191 (peek s 3) in
      match size with
      | 2 => if second then 2 else 0
      | 3 => if second && third then 3 else 0
      | 4 => if second && third && fourth then 4 else 0
      | _ => 0
      end
  end.

(** The bytes [readRune.ReadRune] takes from the reader for the rune at
    the head of [s]: it reads on until [utf8.FullRune] holds, and what it
    read beyond the rune is kept for this call of [Scanln] only. *)
Definition pulled (s : string) : nat :=
  match s with
  | EmptyString => 0
  | String c0 _ =>
    let '(size, (lo, hi)) := lead (code c0) in
    match size with
    | 3 => if within lo hi (peek s 1) then 3 else 2
    | 4 => if within lo hi (peek s 1)
           then if within 128 191 (peek s 2) then 4 else 3
           else 2
    | n => n
    end
  end.

(** U+FFFD as [utf8.AppendRune] writes it. *)
Definition replacement : string :=
  String (byte_of 239) (String (byte_of 191) (String (byte_of 189) "")).

(** [ss.token(true, notSpace)]: the runes up to the next white space, each
    written back with [writeRune] (so a byte that starts no encoding becomes
    U+FFFD), and what follows them. [copy] counts the bytes still to copy
    of the rune being read. *)
Fixpoint tokenFrom (copy : nat) (s word : string) : string * string :=
  match s with
  | EmptyString => (word, "")
  | String c s' =>
    match copy with
    | S k => tokenFrom k s' (word +:+ String c "")
    | O =>
      match spaceWidth s with
      | S _ => (word, s)
      | O => match runeLen s with
             | O => tokenFrom 0 s' (word +:+ replacement)
             | S k => tokenFrom k s' (word +:+ String c "")
             end
      end
    end
  end.

(** What [Scanln] makes of a line: the word stored, or the error and what
    of the line is left unread (nothing when the line feed was read). *)
Inductive Scanned :=
| Word (s : string)
| Failed (e : string) (unread : list string).

(** [Fscanln] on one line, given without its line feed. After the error
    "expected newline" the rune that was in the way has been read, with the
    bytes pulled in to decode it. *)
Definition scanLine (line : string) : Scanned :=
  match trimWith spaceWidth 0 line with
  | EmptyString => Failed "unexpected newline" []
  | String c s =>
    let '(word, rest) := tokenFrom 0 (String c s) "" in
    match trimWith spaceWidth 0 rest with
    | EmptyString => Word word
    | String c' s' =>
      Failed "expected newline"
             match sliceFrom (String c' s') (pulled (String c' s')) with
             | Some unread => [unread]
             | None => []
             end
    end
  end.

End fmt.

(** The input as lines: an entry [Ok text] of [stdin] is text typed and
    ended by a line feed, and a line feed inside it ends a line as well;
    an entry [Err e] is a read that fails. *)
Definition lines (pending : list (Result string)) : list (Result string) :=
  pending ≫= λ r, match r with
                  | Ok text => Ok <$> Split text LF
                  | Err e => [Err e]
                  end.

(** One [fmt.Scanln(&s)] on the lines still to read: its result and the
    lines left. At the end of the input it fails with [io.EOF]. *)
Definition scanHead (pending : list (Result string))
  : Result string * list (Result string) :=
  match pending with
  | [] => (Err "EOF", [])
  | Err e :: rest => (Err e, rest)
  | Ok line :: rest =>
    match fmt.scanLine line with
    | fmt.Word s => (Ok s, rest)
    | fmt.Failed e unread => (Err e, (Ok <$> unread) ++ rest)
    end
  end.

(** What the next [fmt.Scanln(&s)] gives on the input [pending], and the
    lines it leaves. *)
Definition nextAnswer (pending : list (Result string))
  : Result string * list (Result string) :=
  scanHead (lines pending).

Definition Scanln : Cmd (Result string) :=
  λ w, let '(r, rest) := nextAnswer (stdin w) in (Next r, setStdin rest w).

(** [exec.Command(argv[0], argv[1:]...)] then [.Run()] or [.Output()]. *)
Definition Output (argv : list string) : Cmd (Result string) :=
  λ w, (Next (process w (trace w) argv), emit (Exec argv) w).

Definition Run (argv : list string) : Cmd (option string) :=
  r ← Output argv;
  ret (match r with Ok _ => None | Err e => Some e end).

(** ** Package config: loading and saving *)

(** [func LoadConfig() ( *Config, error)] *)
Definition LoadConfig : Cmd (Result Config) :=
  r ← ask unmarshal;
  ret (match r with
       | Ok cfg => Ok cfg
       | Err e => Err ("failed to unmarshal config: " +:+ e)
       end).

(** [func GetRepoConfig() ( *Config, error)] *)
Definition GetRepoConfig : Cmd (Result Config) :=
  present ← ask repoFile;
  if (present : bool) then
    (λ w, (Next (), setConfigFile ".opsbrew.yaml" w));;
    e ← ask readInConfig;
    match e with
    | Some e => ret (Err ("failed to read repo config: " +:+ e))
    | None => LoadConfig
    end
  else LoadConfig.

(** [func SaveConfig(cfg *Config) error] *)
Definition SaveConfig (cfg : Config) : Cmd (option string) :=
  m ← ask (λ w, marshal w cfg);
  match m with
  | Some e => ret (Some ("failed to marshal config: " +:+ e))
  | None =>
    used ← ask configFileUsed;
    p ← (if decide (used = "") then
           h ← ask homeDir;
           ret (match h with
                | Err e => Err ("failed to get home directory: " +:+ e)
                | Ok home => Ok (HomeFile home)
                end)
         else ret (Ok (UsedFile used)));
    match p with
    | Err e => ret (Some e)
    | Ok path =>
      e ← ask (λ w, writeFile w path);
      match e with
      | Some e => ret (Some ("failed to write config file: " +:+ e))
      | None => (λ w, (Next (), emit (WriteFile path cfg) w));; ret None
      end
    end
  end.

(** [fuzzyfinder.Find] on the candidates shown as [labels]. *)
Definition Find_ (labels : list string) : Cmd (Result nat) :=
  λ w, (Next (fuzzyFind w labels), emit (Find labels) w).

(** ** Package kubernetes: contexts *)
Module kubernetes.

(** [type Context struct] *)
Record Context := mkContext {
  Name : string;
  Current : bool
}.

(** The loop of [GetContexts] over the lines of the output. *)
Fixpoint contextsOf (currentContext : string) (lines : list string) : list Context :=
  match lines with
  | [] => []
  | line :: rest =>
    if decide (line = "") then contextsOf currentContext rest
    else mkContext (TrimSpace line)
                   (bool_decide (TrimSpace line = currentContext))
         :: contextsOf currentContext rest
  end.

(** [func GetContexts() ([]Context, error)] *)
Definition GetContexts : Cmd (Result (list Context)) :=
  o ← Output ["kubectl"; "config"; "get-contexts"; "--no-headers"; "-o"; "name"];
  match o with
  | Err e => ret (Err ("failed to get contexts: " +:+ e))
  | Ok output =>
    c ← Output ["kubectl"; "config"; "current-context"];
    match c with
    | Err e => ret (Err ("failed to get current context: " +:+ e))
    | Ok currentOutput =>
      ret (Ok (contextsOf (TrimSpace currentOutput)
                          (Split (TrimSpace output) LF)))
    end
  end.

Definition label (ctx : Context) : string :=
  if Current ctx then "  * " +:+ Name ctx else "    " +:+ Name ctx.

(** [func SelectContext(contexts []Context) (string, error)];
    [contexts[idx]] panics out of range. *)
Definition SelectContext (contexts : list Context) : Cmd (Result string) :=
  r ← (λ w, (Next (fuzzyFind w (label <$> contexts)),
             emit (Find (label <$> contexts)) w));
  match r with
  | Err e => ret (Err e)
  | Ok idx =>
    match contexts !! idx with
    | Some ctx => ret (Ok (Name ctx))
    | None => leave Panic
    end
  end.

(** [type Namespace struct] *)
Record Namespace := mkNamespace {
  nsName : string;
  nsCurrent : bool;
  nsStatus : string
}.

(** [type Pod struct]; [GetPods] leaves [Namespace] empty. *)
Record Pod := mkPod {
  podName : string;
  podReady : string;
  podStatus : string;
  podRestarts : string;
  podAge : string;
  podNamespace : string
}.

(** The loop of [GetNamespaces] over the lines of the output. *)
Fixpoint namespacesOf (currentNamespace : string) (lines : list string)
  : list Namespace :=
  match lines with
  | [] => []
  | line :: rest =>
    if decide (line = "") then namespacesOf currentNamespace rest
    else match Fields line with
         | name :: status :: _ =>
           mkNamespace name (bool_decide (name = currentNamespace)) status
           :: namespacesOf currentNamespace rest
         | _ => namespacesOf currentNamespace rest
         end
  end.

(** [func GetNamespaces() ([]Namespace, error)] *)
Definition GetNamespaces : Cmd (Result (list Namespace)) :=
  o ← Output ["kubectl"; "get"; "namespaces"; "--no-headers"; "-o";
              "custom-columns=NAME:.metadata.name,STATUS:.status.phase"];
  match o with
  | Err e => ret (Err ("failed to get namespaces: " +:+ e))
  | Ok output =>
    c ← Output ["kubectl"; "config"; "view"; "--minify"; "-o";
                "jsonpath={..namespace}"];
    match c with
    | Err e => ret (Err ("failed to get current namespace: " +:+ e))
    | Ok currentOutput =>
      let currentNamespace :=
        if decide (TrimSpace currentOutput = "") then "default"
        else TrimSpace currentOutput in
      ret (Ok (namespacesOf currentNamespace (Split (TrimSpace output) LF)))
    end
  end.

Definition nsLabel (ns : Namespace) : string :=
  if nsCurrent ns then "  * " +:+ nsName ns +:+ " (" +:+ nsStatus ns +:+ ")"
  else "    " +:+ nsName ns +:+ " (" +:+ nsStatus ns +:+ ")".

(** [func SelectNamespace(namespaces []Namespace) (string, error)] *)
Definition SelectNamespace (namespaces : list Namespace) : Cmd (Result string) :=
  r ← Find_ (nsLabel <$> namespaces);
  match r with
  | Err e => ret (Err e)
  | Ok idx =>
    match namespaces !! idx with
    | Some ns => ret (Ok (nsName ns))
    | None => leave Panic
    end
  end.

(** The loop of [GetPods] over the lines of the output. *)
Fixpoint podsOf (lines : list string) : list Pod :=
  match lines with
  | [] => []
  | line :: rest =>
    if decide (line = "") then podsOf rest
    else match Fields line with
         | name :: ready :: status :: restarts :: age :: _ =>
           mkPod name ready status restarts age "" :: podsOf rest
         | _ => podsOf rest
         end
  end.

(** [func GetPods() ([]Pod, error)] *)
Definition GetPods : Cmd (Result (list Pod)) :=
  o ← Output ["kubectl"; "get"; "pods"; "--no-headers"; "-o";
              "custom-columns=NAME:.metadata.name,READY:.status.containerStatuses[*].ready,STATUS:.status.phase,RESTARTS:.status.containerStatuses[*].restartCount,AGE:.metadata.creationTimestamp"];
  match o with
  | Err e => ret (Err ("failed to get pods: " +:+ e))
  | Ok output => ret (Ok (podsOf (Split (TrimSpace output) LF)))
  end.

Definition podLabel (pod : Pod) : string :=
  podName pod +:+ " (" +:+ podStatus pod +:+ ") - " +:+ podReady pod.

(** [func SelectPod(pods []Pod) (string, error)] *)
Definition SelectPod (pods : list Pod) : Cmd (Result string) :=
  r ← Find_ (podLabel <$> pods);
  match r with
  | Err e => ret (Err e)
  | Ok idx =>
    match pods !! idx with
    | Some pod => ret (Ok (podName pod))
    | None => leave Panic
    end
  end.

End kubernetes.

(** [strings.Contains(s, substr)] *)
Fixpoint Contains (s substr : string) : bool :=
  String.prefix substr s
  || match s with
     | EmptyString => false
     | String _ s' => Contains s' substr
     end.

(** ** Package git: the functions that print or start processes *)
Module git_io.
Import git.

(** [type Branch struct] *)
Record Branch := mkBranch {
  Name : string;
  Current : bool;
  Remote : bool
}.

(** [func getCurrentBranch() (string, error)] *)
Definition getCurrentBranch : Cmd (Result string) :=
  o ← Output ["git"; "branch"; "--show-current"];
  ret (match o with
       | Err e => Err e
       | Ok output => Ok (TrimSpace output)
       end).

(** [if useColors { color.X(line) } else { fmt.Println(line) }] *)
Definition printLine (useColors : bool) (c : Color) (line : string) : Cmd unit :=
  if useColors then say c line else out (line +:+ nl).

(** The loop over the files of one bucket. *)
Fixpoint printPaths (useColors : bool) (c : Color) (files : list FileStatus)
  : Cmd unit :=
  match files with
  | [] => ret ()
  | file :: rest =>
    printLine useColors c ("  " +:+ Path file);;
    printPaths useColors c rest
  end.

(** One of the four blocks of [DisplayStatus]: title, paths, blank line,
    when the bucket is not empty. *)
Definition printBucket (useColors : bool) (c : Color) (title : string)
           (files : list FileStatus) : Cmd unit :=
  if decide (0 < length files) then
    printLine useColors c title;;
    printPaths useColors c files;;
    out nl
  else ret ().

(** [func DisplayStatus(status *GitStatus, useColors bool)] *)
Definition DisplayStatus (status : GitStatus) (useColors : bool) : Cmd unit :=
  printLine useColors Green "=== Git Status ===";;
  b ← getCurrentBranch;
  match b with
  | Ok branch => printLine useColors Cyan ("On branch: " +:+ branch)
  | Err _ => ret ()
  end;;
  out nl;;
  printBucket useColors Green "Changes to be committed:" (Staged status);;
  printBucket useColors Yellow "Changes not staged for commit:" (Modified status);;
  printBucket useColors Red "Untracked files:" (Untracked status);;
  printBucket useColors Red "Unmerged paths:" (Conflicted status);;
  let totalChanges :=
    length (Staged status) + length (Modified status)
    + length (Untracked status) + length (Deleted status)
    + length (Renamed status) + length (Conflicted status) in
  if decide (totalChanges = 0)
  then printLine useColors Green "Working tree clean"
  else ret ().

(** The first loop of [GetBranches]. *)
Fixpoint localBranchesOf (currentBranch : string) (lines : list string)
  : list Branch :=
  match lines with
  | [] => []
  | branch :: rest =>
    if decide (branch = "") then localBranchesOf currentBranch rest
    else mkBranch branch (bool_decide (branch = currentBranch)) false
         :: localBranchesOf currentBranch rest
  end.

(** The second loop of [GetBranches]. *)
Fixpoint remoteBranchesOf (lines : list string) : list Branch :=
  match lines with
  | [] => []
  | branch :: rest =>
    if decide (branch = "") then remoteBranchesOf rest
    else if Contains branch "HEAD" then remoteBranchesOf rest
    else mkBranch branch false true :: remoteBranchesOf rest
  end.

(** [func GetBranches() ([]Branch, error)] *)
Definition GetBranches : Cmd (Result (list Branch)) :=
  l ← Output ["git"; "branch"; "--format=%(refname:short)"];
  match l with
  | Err e => ret (Err ("failed to get local branches: " +:+ e))
  | Ok localOutput =>
    c ← Output ["git"; "branch"; "--show-current"];
    match c with
    | Err e => ret (Err ("failed to get current branch: " +:+ e))
    | Ok currentOutput =>
      r ← Output ["git"; "branch"; "-r"; "--format=%(refname:short)"];
      match r with
      | Err e => ret (Err ("failed to get remote branches: " +:+ e))
      | Ok remoteOutput =>
        ret (Ok (localBranchesOf (TrimSpace currentOutput)
                                 (Split (TrimSpace localOutput) LF)
                 ++ remoteBranchesOf (Split (TrimSpace remoteOutput) LF)))
      end
    end
  end.

Definition branchLabel (branch : Branch) : string :=
  if Current branch then "  * " +:+ Name branch
  else if Remote branch then "    " +:+ Name branch +:+ " (remote)"
  else "    " +:+ Name branch.

(** [func SelectBranch(branches []Branch) (string, error)] *)
Definition SelectBranch (branches : list Branch) : Cmd (Result string) :=
  r ← Find_ (branchLabel <$> branches);
  match r with
  | Err e => ret (Err e)
  | Ok idx =>
    match branches !! idx with
    | Some branch => ret (Ok (Name branch))
    | None => leave Panic
    end
  end.

(** [func DisplayBranches(branches []Branch)] *)
Fixpoint displayBranchLines (branches : list Branch) : Cmd unit :=
  match branches with
  | [] => ret ()
  | branch :: rest =>
    (if Current branch then say Cyan ("  * " +:+ Name branch)
     else if Remote branch then out ("    " +:+ Name branch +:+ " (remote)" +:+ nl)
     else out ("    " +:+ Name branch +:+ nl));;
    displayBranchLines rest
  end.

Definition DisplayBranches (branches : list Branch) : Cmd unit :=
  out ("=== Branches ===" +:+ nl);;
  displayBranchLines branches.

End git_io.

(** ** Package cmd: the handlers *)
Module cmd.
Section Handlers.

(** [strings.Map(unicode.ToLower, s)], see [GoStrings.ToLower]. *)
Variable unicodeLower : string → string.

(** [cfg, err := config.GetRepoConfig()] with its error return. *)
Definition loadConfig : Cmd Config :=
  r ← GetRepoConfig;
  match r with
  | Err e => leave (Error ("failed to load config: " +:+ e))
  | Ok cfg => ret cfg
  end.

(** The [if len(args) > 0 { ... } else { ... }] of [kctxCmd] that sets
    [targetContext]. *)
Definition resolveContext (cfg : Config) (args : list string) : Cmd string :=
  match args with
  | arg :: _ =>
    match GoMap.get (ContextAliases (Kubernetes cfg)) arg with
    | Some alias => ret alias
    | None => ret arg
    end
  | [] =>
    cs ← kubernetes.GetContexts;
    match cs with
    | Err e => leave (Error ("failed to get contexts: " +:+ e))
    | Ok contexts =>
      sel ← kubernetes.SelectContext contexts;
      match sel with
      | Err e => leave (Error ("failed to select context: " +:+ e))
      | Ok selected => ret selected
      end
    end
  end.

(** [kctxCmd.RunE] *)
Definition kctxCmd (args : list string) : Cmd unit :=
  cfg ← loadConfig;
  targetContext ← resolveContext cfg args;
  dry ← ask dryRun;
  if (dry : bool) then
    say Yellow ("Would run: kubectl config use-context " +:+ targetContext);;
    leave Nil
  else
    err ← Run ["kubectl"; "config"; "use-context"; targetContext];
    match err with
    | Some e => leave (Error ("failed to switch context: " +:+ e))
    | None =>
      say Green ("Switched to context: " +:+ targetContext);;
      leave Nil
    end.

(** The prompt loop of [brewSaveCmd] and [brewEditCmd] on the lines still
    to read: a prompt, one [fmt.Scanln], [return err] on its error,
    [break] on an empty word, [append] otherwise. Each turn is
    [scanHead]. *)
Fixpoint readLines (pending : list (Result string)) (commands : list string)
  : Cmd (list string) :=
  out "> ";;
  match pending with
  | [] =>
    (λ w, (Next (), setStdin [] w));;
    say Red "Error reading input: EOF";; leave (Error "EOF")
  | Err e :: rest =>
    (λ w, (Next (), setStdin rest w));;
    say Red ("Error reading input: " +:+ e);; leave (Error e)
  | Ok line :: rest =>
    match fmt.scanLine line with
    | fmt.Failed e unread =>
      (λ w, (Next (), setStdin ((Ok <$> unread) ++ rest) w));;
      say Red ("Error reading input: " +:+ e);; leave (Error e)
    | fmt.Word input =>
      (λ w, (Next (), setStdin rest w));;
      if decide (input = "") then ret commands
      else readLines rest (commands ++ [input])
    end
  end.

Definition readCommands (pending : list (Result string)) (commands : list string)
  : Cmd (list string) :=
  readLines (lines pending) commands.

(** [brewSaveCmd.RunE]; the flags [--description] and [--tags] are
    arguments. *)
Definition brewSaveCmd (description : string) (tags : list string)
           (args : list string) : Cmd unit :=
  match args with
  | [] => leave (Error "recipe name is required")
  | name :: _ =>
    out ("Enter commands for recipe '" +:+ name
         +:+ "' (one per line, empty line to finish):" +:+ nl);;
    pending ← ask stdin;
    commands ← readCommands pending [];
    if decide (length commands = 0) then leave (Error "no commands provided")
    else
      cfg ← loadConfig;
      match GoMap.set (Recipes (Brew cfg)) name
                      (mkRecipe description commands tags) with
      | None => leave Panic
      | Some recipes =>
        err ← SaveConfig (withRecipes cfg recipes);
        match err with
        | Some e => leave (Error ("failed to save recipe: " +:+ e))
        | None =>
          say Green ("Recipe '" +:+ name +:+ "' saved successfully");;
          leave Nil
        end
      end
  end.

(** [strings.ToLower(response) != "y" && strings.ToLower(response) != "yes"] *)
Definition declined (response : string) : bool :=
  bool_decide (ToLower unicodeLower response ≠ "y")
  && bool_decide (ToLower unicodeLower response ≠ "yes").

(** The confirmation block shared by [brewRunCmd] and [brewDeleteCmd]. *)
Definition confirmOrLeave (cfg : Config) (question : string) : Cmd unit :=
  flag ← ask confirm;
  if negb flag && negb (Confirm (UI cfg)) then
    out question;;
    r ← Scanln;
    match r with
    | Err e => say Red ("Error reading input: " +:+ e);; leave (Error e)
    | Ok response =>
      if declined response then say Yellow "Operation cancelled";; leave Nil
      else ret ()
    end
  else ret ().

(** The dry-run loop of [brewRunCmd]; [i] is the index of the head. *)
Fixpoint listCommands (i : nat) (commands : list string) : Cmd unit :=
  match commands with
  | [] => ret ()
  | command :: rest =>
    say Yellow ("  " +:+ itoa (i + 1) +:+ ". " +:+ command);;
    listCommands (S i) rest
  end.

(** The progress line printed before command [i] (0-based) of [total]. *)
Definition banner (total i : nat) (command : string) : Event :=
  Say Cyan ("Executing command " +:+ itoa (i + 1) +:+ "/" +:+ itoa total
            +:+ ": " +:+ command).

(** The execution loop of [brewRunCmd]; [total] is
    [len(recipe.Commands)] and [i] the index of the head. *)
Fixpoint execCommands (total i : nat) (commands : list string) : Cmd unit :=
  match commands with
  | [] => ret ()
  | command :: rest =>
    (λ w, (Next (), emit (banner total i command) w));;
    match Fields command with
    | [] => execCommands total (S i) rest
    | parts =>
      err ← Run parts;
      match err with
      | Some e =>
        say Red ("Command failed: " +:+ command);;
        leave (Error ("recipe execution failed: " +:+ e))
      | None => out nl;; execCommands total (S i) rest
      end
    end
  end.

(** What [brewRunCmd] prints between the confirmation and the loop. *)
Definition header (name : string) (recipe : Recipe) : list Event :=
  Say Green ("Running recipe: " +:+ name)
  :: (if decide (Description recipe = "") then []
      else [Out ("Description: " +:+ Description recipe +:+ nl)])
  ++ [Out nl].

(** The part of [brewRunCmd] after the confirmation: the state
    [Executing] of the specification and its two ways out. *)
Definition runRecipe (name : string) (recipe : Recipe) : Cmd unit :=
  say Green ("Running recipe: " +:+ name);;
  (if decide (Description recipe = "") then ret ()
   else out ("Description: " +:+ Description recipe +:+ nl));;
  out nl;;
  execCommands (length (Commands recipe)) 0 (Commands recipe);;
  say Green ("Recipe '" +:+ name +:+ "' completed successfully");;
  leave Nil.

(** [brewRunCmd.RunE] *)
Definition brewRunCmd (args : list string) : Cmd unit :=
  match args with
  | [] => leave (Error "recipe name is required")
  | name :: _ =>
    cfg ← loadConfig;
    match GoMap.get (Recipes (Brew cfg)) name with
    | None => leave (Error ("recipe '" +:+ name +:+ "' not found"))
    | Some recipe =>
      dry ← ask dryRun;
      if (dry : bool) then
        say Yellow ("Would run recipe '" +:+ name +:+ "':");;
        listCommands 0 (Commands recipe);;
        leave Nil
      else
        confirmOrLeave cfg ("Run recipe '" +:+ name +:+ "'? (y/N): ");;
        runRecipe name recipe
    end
  end.

(** [brewDeleteCmd.RunE] *)
Definition brewDeleteCmd (args : list string) : Cmd unit :=
  match args with
  | [] => leave (Error "recipe name is required")
  | name :: _ =>
    cfg ← loadConfig;
    match GoMap.get (Recipes (Brew cfg)) name with
    | None => leave (Error ("recipe '" +:+ name +:+ "' not found"))
    | Some _ =>
      dry ← ask dryRun;
      if (dry : bool) then
        say Yellow ("Would delete recipe: " +:+ name);; leave Nil
      else
        confirmOrLeave cfg ("Delete recipe '" +:+ name +:+ "'? (y/N): ");;
        err ← SaveConfig (withRecipes cfg (GoMap.del (Recipes (Brew cfg)) name));
        match err with
        | Some e => leave (Error ("failed to delete recipe: " +:+ e))
        | None =>
          say Green ("Recipe '" +:+ name +:+ "' deleted successfully");;
          leave Nil
        end
    end
  end.

(** The listing of the current commands in [brewEditCmd]. *)
Fixpoint showCommands (i : nat) (commands : list string) : Cmd unit :=
  match commands with
  | [] => ret ()
  | command :: rest =>
    out ("  " +:+ itoa (i + 1) +:+ ". " +:+ command +:+ nl);;
    showCommands (S i) rest
  end.

(** A prompt of [brewEditCmd] answered by one [fmt.Scanln]. *)
Definition prompt (question : string) : Cmd string :=
  out question;;
  r ← Scanln;
  match r with
  | Err e => say Red ("Error reading input: " +:+ e);; leave (Error e)
  | Ok answer => ret answer
  end.

(** [brewEditCmd.RunE] *)
Definition brewEditCmd (args : list string) : Cmd unit :=
  match args with
  | [] => leave (Error "recipe name is required")
  | name :: _ =>
    cfg ← loadConfig;
    match GoMap.get (Recipes (Brew cfg)) name with
    | None => leave (Error ("recipe '" +:+ name +:+ "' not found"))
    | Some recipe =>
      out ("Current recipe '" +:+ name +:+ "':" +:+ nl);;
      out ("Description: " +:+ Description recipe +:+ nl);;
      out ("Tags: " +:+ Join (Tags recipe) ", " +:+ nl);;
      out ("Commands:" +:+ nl);;
      showCommands 0 (Commands recipe);;
      out nl;;
      newDescription ← prompt "New description (press Enter to keep current): ";
      let recipe1 :=
        if decide (newDescription = "") then recipe
        else mkRecipe newDescription (Commands recipe) (Tags recipe) in
      newTags ← prompt "New tags (comma-separated, press Enter to keep current): ";
      let recipe2 :=
        if decide (newTags = "") then recipe1
        else mkRecipe (Description recipe1) (Commands recipe1)
                      (TrimSpace <$> Split newTags ","%char) in
      out ("Enter new commands (one per line, empty line to finish):" +:+ nl);;
      pending ← ask stdin;
      newCommands ← readCommands pending [];
      let recipe3 :=
        if decide (0 < length newCommands)
        then mkRecipe (Description recipe2) newCommands (Tags recipe2)
        else recipe2 in
      match GoMap.set (Recipes (Brew cfg)) name recipe3 with
      | None => leave Panic
      | Some recipes =>
        err ← SaveConfig (withRecipes cfg recipes);
        match err with
        | Some e => leave (Error ("failed to save recipe: " +:+ e))
        | None =>
          say Green ("Recipe '" +:+ name +:+ "' updated successfully");;
          leave Nil
        end
      end
    end
  end.

(** [knsCmd.RunE] *)
Definition knsCmd (args : list string) : Cmd unit :=
  cfg ← loadConfig;
  targetNamespace ←
    match args with
    | arg :: _ =>
      match GoMap.get (NamespaceAliases (Kubernetes cfg)) arg with
      | Some alias => ret alias
      | None => ret arg
      end
    | [] =>
      ns ← kubernetes.GetNamespaces;
      match ns with
      | Err e => leave (Error ("failed to get namespaces: " +:+ e))
      | Ok namespaces =>
        sel ← kubernetes.SelectNamespace namespaces;
        match sel with
        | Err e => leave (Error ("failed to select namespace: " +:+ e))
        | Ok selected => ret selected
        end
      end
    end;
  dry ← ask dryRun;
  if (dry : bool) then
    say Yellow ("Would run: kubectl config set-context --current --namespace="
                +:+ targetNamespace);;
    leave Nil
  else
    err ← Run ["kubectl"; "config"; "set-context"; "--current";
               "--namespace=" +:+ targetNamespace];
    match err with
    | Some e => leave (Error ("failed to switch namespace: " +:+ e))
    | None =>
      say Green ("Switched to namespace: " +:+ targetNamespace);;
      leave Nil
    end.

(** The pod of [klogsCmd] and [kexecCmd]: the first argument, or the pod
    picked in the finder. *)
Definition resolvePod (args : list string) : Cmd string :=
  match args with
  | arg :: _ => ret arg
  | [] =>
    ps ← kubernetes.GetPods;
    match ps with
    | Err e => leave (Error ("failed to get pods: " +:+ e))
    | Ok pods =>
      sel ← kubernetes.SelectPod pods;
      match sel with
      | Err e => leave (Error ("failed to select pod: " +:+ e))
      | Ok selected => ret selected
      end
    end
  end.

(** [klogsCmd.RunE]; the flags [--follow] and [--tail] are arguments. *)
Definition klogsCmd (follow : bool) (tail : Z) (args : list string) : Cmd unit :=
  targetPod ← resolvePod args;
  dry ← ask dryRun;
  if (dry : bool) then
    say Yellow ("Would run: kubectl logs " +:+ targetPod
                +:+ (if follow then " -f" else "")
                +:+ (if decide (0 < tail)%Z
                     then " --tail=" +:+ itoa (Z.to_nat tail) else ""));;
    leave Nil
  else
    err ← Run (["kubectl"; "logs"; targetPod]
               ++ (if follow then ["-f"] else [])
               ++ (if decide (0 < tail)%Z
                   then ["--tail=" +:+ itoa (Z.to_nat tail)] else []));
    match err with
    | Some e => leave (Error ("failed to get logs: " +:+ e))
    | None => leave Nil
    end.

(** [kexecCmd.RunE] *)
Definition kexecCmd (args : list string) : Cmd unit :=
  targetPod ← resolvePod args;
  let command := match args with
                 | _ :: command :: _ => command
                 | _ => "/bin/bash"
                 end in
  dry ← ask dryRun;
  if (dry : bool) then
    say Yellow ("Would run: kubectl exec -it " +:+ targetPod +:+ " -- " +:+ command);;
    leave Nil
  else
    err ← Run (["kubectl"; "exec"; "-it"; targetPod; "--"] ++ Split command " "%char);
    match err with
    | Some e => leave (Error ("failed to execute command: " +:+ e))
    | None => leave Nil
    end.

(** The body shared by the handlers that print [Would run: <words>] in a
    dry run and otherwise run [kubectl], wrapping its error in [failure]
    and printing [success] (when there is one) after it. *)
Definition kubectlOrShow (argv : list string) (shown failure : string)
           (success : option string) : Cmd unit :=
  dry ← ask dryRun;
  if (dry : bool) then say Yellow ("Would run: " +:+ shown);; leave Nil
  else
    err ← Run ("kubectl" :: argv);
    match err with
    | Some e => leave (Error (failure +:+ ": " +:+ e))
    | None =>
      match success with
      | Some line => say Green line;; leave Nil
      | None => leave Nil
      end
    end.

(** [-n namespace] when the flag is set. *)
Definition nsArgs (namespace : string) : list string :=
  if decide (namespace = "") then [] else ["-n"; namespace].

Definition nsShown (namespace : string) : string :=
  if decide (namespace = "") then "" else " -n " +:+ namespace.

(** [ksvcCmd.RunE] *)
Definition ksvcCmd : Cmd unit :=
  kubectlOrShow ["get"; "services"] "kubectl get services"
                "failed to get services" None.

(** [kingressCmd.RunE] *)
Definition kingressCmd : Cmd unit :=
  kubectlOrShow ["get"; "ingress"] "kubectl get ingress"
                "failed to get ingress" None.

(** [kscaleCmd.RunE]; the flag [--namespace] is an argument. *)
Definition kscaleCmd (namespace : string) (args : list string) : Cmd unit :=
  match args with
  | resourceType :: name :: replicas :: _ =>
    kubectlOrShow
      (["scale"; resourceType; name; "--replicas=" +:+ replicas] ++ nsArgs namespace)
      ("kubectl scale " +:+ resourceType +:+ " " +:+ name +:+ " --replicas="
       +:+ replicas +:+ nsShown namespace)
      ("failed to scale " +:+ resourceType +:+ " " +:+ name)
      (Some ("Scaled " +:+ resourceType +:+ " " +:+ name +:+ " to " +:+ replicas
             +:+ " replicas"))
  | _ => leave (Error "resource type, name, and replicas are required")
  end.

(** [func runHpaList(namespace string) error] *)
Definition runHpaList (namespace : string) : Cmd unit :=
  kubectlOrShow (["get"; "hpa"] ++ nsArgs namespace)
                ("kubectl get hpa" +:+ nsShown namespace)
                "failed to list HPAs" None.

(** [func runHpaGet(name, namespace string) error] *)
Definition runHpaGet (name namespace : string) : Cmd unit :=
  kubectlOrShow (["get"; "hpa"; name; "-o"; "yaml"] ++ nsArgs namespace)
                ("kubectl get hpa " +:+ name +:+ " -o yaml" +:+ nsShown namespace)
                ("failed to get HPA " +:+ name) None.

Definition dq : string := String (byte_of 34) "".

(** The patch [{"spec":{"<field>":<value>}}] of [runHpaSetMin] and
    [runHpaSetMax]. *)
Definition replicasPatch (field value : string) : string :=
  "{" +:+ dq +:+ "spec" +:+ dq +:+ ":{" +:+ dq +:+ field +:+ dq +:+ ":"
  +:+ value +:+ "}}".

(** The patch of [runHpaSetTarget]. *)
Definition targetPatch (value : string) : string :=
  "{" +:+ dq +:+ "spec" +:+ dq +:+ ":{" +:+ dq +:+ "metrics" +:+ dq +:+ ":[{"
  +:+ dq +:+ "resource" +:+ dq +:+ ":{" +:+ dq +:+ "name" +:+ dq +:+ ":"
  +:+ dq +:+ "cpu" +:+ dq +:+ "," +:+ dq +:+ "target" +:+ dq +:+ ":{"
  +:+ dq +:+ "type" +:+ dq +:+ ":" +:+ dq +:+ "Utilization" +:+ dq +:+ ","
  +:+ dq +:+ "averageUtilization" +:+ dq +:+ ":" +:+ value +:+ "}}}]}}".

(** The body shared by [runHpaSetMin], [runHpaSetMax] and
    [runHpaSetTarget]. *)
Definition patchHpa (name namespace patch failure success : string) : Cmd unit :=
  kubectlOrShow (["patch"; "hpa"; name; "-p"; patch] ++ nsArgs namespace)
                ("kubectl patch hpa " +:+ name +:+ " -p '" +:+ patch +:+ "'"
                 +:+ nsShown namespace)
                failure (Some success).

(** [func runHpaSetMin(name, value, namespace string) error] *)
Definition runHpaSetMin (name value namespace : string) : Cmd unit :=
  patchHpa name namespace (replicasPatch "minReplicas" value)
           ("failed to set min replicas for HPA " +:+ name)
           ("Set min replicas to " +:+ value +:+ " for HPA " +:+ name).

(** [func runHpaSetMax(name, value, namespace string) error] *)
Definition runHpaSetMax (name value namespace : string) : Cmd unit :=
  patchHpa name namespace (replicasPatch "maxReplicas" value)
           ("failed to set max replicas for HPA " +:+ name)
           ("Set max replicas to " +:+ value +:+ " for HPA " +:+ name).

(** [func runHpaSetTarget(name, value, namespace string) error] *)
Definition runHpaSetTarget (name value namespace : string) : Cmd unit :=
  patchHpa name namespace (targetPatch value)
           ("failed to set target CPU for HPA " +:+ name)
           ("Set target CPU to " +:+ value +:+ "% for HPA " +:+ name).

(** [khpaCmd.RunE]; the flag [--namespace] is an argument. *)
Definition khpaCmd (namespace : string) (args : list string) : Cmd unit :=
  match args with
  | [] => leave (Error "action is required (list, get, set-min, set-max, set-target)")
  | action :: rest =>
    if decide (action = "list") then runHpaList namespace
    else if decide (action = "get") then
      match rest with
      | name :: _ => runHpaGet name namespace
      | _ => leave (Error "HPA name is required")
      end
    else if decide (action = "set-min") then
      match rest with
      | name :: value :: _ => runHpaSetMin name value namespace
      | _ => leave (Error "HPA name and value are required")
      end
    else if decide (action = "set-max") then
      match rest with
      | name :: value :: _ => runHpaSetMax name value namespace
      | _ => leave (Error "HPA name and value are required")
      end
    else if decide (action = "set-target") then
      match rest with
      | name :: value :: _ => runHpaSetTarget name value namespace
      | _ => leave (Error "HPA name and value are required")
      end
    else leave (Error ("unknown action: " +:+ action))
  end.

(** [gitStatusCmd.RunE]; a panic of [ParseStatus] would end the handler. *)
Definition gitStatusCmd : Cmd unit :=
  cfg ← loadConfig;
  dry ← ask dryRun;
  if (dry : bool) then say Yellow "Would run: git status";; leave Nil
  else
    o ← Output ["git"; "status"; "--porcelain"];
    match o with
    | Err e => leave (Error ("failed to get git status: " +:+ e))
    | Ok output =>
      match git.ParseStatus output with
      | None => leave Panic
      | Some status =>
        git_io.DisplayStatus status (Colors (UI cfg));;
        leave Nil
      end
    end.

(** [gitCheckoutCmd.RunE] *)
Definition gitCheckoutCmd (args : list string) : Cmd unit :=
  loadConfig;;
  targetBranch ←
    match args with
    | arg :: _ => ret arg
    | [] =>
      bs ← git_io.GetBranches;
      match bs with
      | Err e => leave (Error ("failed to get branches: " +:+ e))
      | Ok branches =>
        sel ← git_io.SelectBranch branches;
        match sel with
        | Err e => leave (Error ("failed to select branch: " +:+ e))
        | Ok selected => ret selected
        end
      end
    end;
  dry ← ask dryRun;
  if (dry : bool) then
    say Yellow ("Would run: git checkout " +:+ targetBranch);; leave Nil
  else
    known ← Output ["git"; "show-ref"; "--verify"; "--quiet";
                    "refs/heads/" +:+ targetBranch];
    match known with
    | Err _ =>
      say Yellow ("Branch " +:+ targetBranch
                  +:+ " not found locally, checking out from remote...");;
      err ← Run ["git"; "checkout"; "-b"; targetBranch; "origin/" +:+ targetBranch];
      match err with
      | Some e => leave (Error ("failed to checkout branch " +:+ targetBranch
                                +:+ ": " +:+ e))
      | None => ret ()
      end
    | Ok _ =>
      err ← Run ["git"; "checkout"; targetBranch];
      match err with
      | Some e => leave (Error ("failed to checkout branch " +:+ targetBranch
                                +:+ ": " +:+ e))
      | None => ret ()
      end
    end;;
    say Green ("Switched to branch: " +:+ targetBranch);;
    leave Nil.

(** [gitBranchCmd.RunE] *)
Definition gitBranchCmd : Cmd unit :=
  bs ← git_io.GetBranches;
  match bs with
  | Err e => leave (Error ("failed to get branches: " +:+ e))
  | Ok branches => git_io.DisplayBranches branches;; leave Nil
  end.

(** The body shared by [gitFetchCmd], [gitPullCmd] and [gitPushCmd]. *)
Definition gitOrShow (argv : list string) (shown start failure success : string)
  : Cmd unit :=
  dry ← ask dryRun;
  if (dry : bool) then say Yellow ("Would run: " +:+ shown);; leave Nil
  else
    say Green start;;
    err ← Run ("git" :: argv);
    match err with
    | Some e => leave (Error (failure +:+ ": " +:+ e))
    | None => say Green success;; leave Nil
    end.

(** [gitFetchCmd.RunE] *)
Definition gitFetchCmd : Cmd unit :=
  gitOrShow ["fetch"; "--all"] "git fetch --all" "Fetching all remotes..."
            "failed to fetch" "Fetch completed successfully".

(** [gitPullCmd.RunE] *)
Definition gitPullCmd : Cmd unit :=
  gitOrShow ["pull"] "git pull" "Pulling from current branch..."
            "failed to pull" "Pull completed successfully".

(** [gitPushCmd.RunE] *)
Definition gitPushCmd : Cmd unit :=
  gitOrShow ["push"] "git push" "Pushing to current branch..."
            "failed to push" "Push completed successfully".

End Handlers.
End cmd.

(** ** Package cmd: the file handlers

    [os.Stat] and [runtime.GOOS] are not part of [World]: the handlers take
    them as [notExist] ([os.IsNotExist] of the error of [os.Stat(path)]) and
    [GOOS]. *)
Module filecmd.
Section FileHandlers.

Variable notExist : string → bool.
Variable GOOS : string.

(** [if _, err := os.Stat(path); os.IsNotExist(err) { return ... }] *)
Definition mustExist (path : string) : Cmd unit :=
  if notExist path then leave (Error ("file " +:+ path +:+ " does not exist"))
  else ret ().

(** [fileOpenCmd.RunE] *)
Definition fileOpenCmd (args : list string) : Cmd unit :=
  match args with
  | [] => leave (Error "file path is required")
  | filePath :: _ =>
    dry ← ask dryRun;
    if (dry : bool) then say Yellow ("Would open file: " +:+ filePath);; leave Nil
    else
      mustExist filePath;;
      argv ←
        (if decide (GOOS = "darwin") then ret ["open"; filePath]
         else if decide (GOOS = "linux") then ret ["xdg-open"; filePath]
         else if decide (GOOS = "windows") then ret ["cmd"; "/c"; "start"; filePath]
         else leave (Error ("unsupported operating system: " +:+ GOOS)));
      err ← Run argv;
      match err with
      | Some e => leave (Error ("failed to open file: " +:+ e))
      | None => say Green ("Opened file: " +:+ filePath);; leave Nil
      end
  end.

(** The loop of [fileFindCmd] over the lines found. *)
Fixpoint printFound (files : list string) : Cmd unit :=
  match files with
  | [] => ret ()
  | file :: rest =>
    (if decide (file = "") then ret () else out ("  " +:+ file +:+ nl));;
    printFound rest
  end.

(** [fileFindCmd.RunE] *)
Definition fileFindCmd (args : list string) : Cmd unit :=
  match args with
  | [] => leave (Error "search pattern is required")
  | pattern :: more =>
    let dir := match more with d :: _ => d | [] => "." end in
    dry ← ask dryRun;
    if (dry : bool) then
      say Yellow ("Would search for pattern '" +:+ pattern +:+ "' in directory '"
                  +:+ dir +:+ "'");;
      leave Nil
    else
      o ← Output ["find"; dir; "-name"; pattern; "-type"; "f"];
      match o with
      | Err e => leave (Error ("failed to find files: " +:+ e))
      | Ok output =>
        let files := Split (TrimSpace output) LF in
        if bool_decide (length files = 0)
           || (bool_decide (length files = 1)
               && bool_decide (files !! 0 = Some ""))
        then
          say Yellow ("No files found matching pattern: " +:+ pattern);;
          leave Nil
        else
          say Green ("Found " +:+ itoa (length files) +:+ " files:");;
          printFound files;;
          leave Nil
      end
  end.

(** [fileGrepCmd.RunE] *)
Definition fileGrepCmd (args : list string) : Cmd unit :=
  match args with
  | pattern :: filePath :: _ =>
    dry ← ask dryRun;
    if (dry : bool) then
      say Yellow ("Would search for '" +:+ pattern +:+ "' in file '"
                  +:+ filePath +:+ "'");;
      leave Nil
    else
      mustExist filePath;;
      err ← Run ["grep"; "-n"; pattern; filePath];
      match err with
      | Some e =>
        if Contains e "exit status 1" then
          say Yellow ("No matches found for pattern: " +:+ pattern);; leave Nil
        else leave (Error ("failed to search file: " +:+ e))
      | None => leave Nil
      end
  | _ => leave (Error "search pattern and file path are required")
  end.

(** [fileBackupCmd.RunE] *)
Definition fileBackupCmd (args : list string) : Cmd unit :=
  match args with
  | [] => leave (Error "file path is required")
  | filePath :: more =>
    dry ← ask dryRun;
    if (dry : bool) then
      say Yellow ("Would create backup of file: " +:+ filePath);; leave Nil
    else
      mustExist filePath;;
      let backupPath := match more with
                        | given :: _ => given
                        | [] => filePath +:+ ".backup"
                        end in
      err ← Run ["cp"; filePath; backupPath];
      match err with
      | Some e => leave (Error ("failed to create backup: " +:+ e))
      | None => say Green ("Created backup: " +:+ backupPath);; leave Nil
      end
  end.

(** [fileDiffCmd.RunE] *)
Definition fileDiffCmd (args : list string) : Cmd unit :=
  match args with
  | file1 :: file2 :: _ =>
    dry ← ask dryRun;
    if (dry : bool) then
      say Yellow ("Would show diff between '" +:+ file1 +:+ "' and '"
                  +:+ file2 +:+ "'");;
      leave Nil
    else
      mustExist file1;;
      mustExist file2;;
      err ← Run ["diff"; file1; file2];
      match err with
      | Some e =>
        if Contains e "exit status 1" then leave Nil
        else leave (Error ("failed to compare files: " +:+ e))
      | None => say Green "Files are identical";; leave Nil
      end
  | _ => leave (Error "two file paths are required")
  end.

End FileHandlers.
End filecmd.

(** ** Vocabulary of the statements *)

(** The processes started, in order. *)
Definition spawned (es : list Event) : list (list string) :=
  omap (λ e, match e with Exec argv => Some argv | _ => None end) es.

(** The documents written to the configuration file, in order. *)
Definition written (es : list Event) : list (ConfigPath * Config) :=
  omap (λ e, match e with WriteFile p doc => Some (p, doc) | _ => None end) es.

(** [doc] is [cfg] but for the recipe stored under [name]. *)
Definition sameExcept (name : string) (cfg doc : Config) : Prop :=
  Git doc = Git cfg ∧ Kubernetes doc = Kubernetes cfg ∧
  Templates doc = Templates cfg ∧ UI doc = UI cfg ∧
  ∀ other, other ≠ name →
    GoMap.get (Recipes (Brew doc)) other = GoMap.get (Recipes (Brew cfg)) other.

(** [needle] occurs in [text]. *)
Definition mentions (needle text : string) : bool :=
  bool_decide (is_Some (String.index 0 needle text)).

(** An error message identifies a command when it carries its 1-based
    index and its text. *)
Definition identifies (msg : string) (k : nat) (command : string) : Prop :=
  mentions (itoa k) msg = true ∧ mentions command msg = true.

(** The lines of a dry run. *)
Definition dryLines (commands : list string) : list Event :=
  imap (λ i command, Say Yellow ("  " +:+ itoa (i + 1) +:+ ". " +:+ command))
       commands.

(** What the loop of [brewRunCmd] leaves in the trace for commands that
    all succeed, [i] being the index of the first. *)
Fixpoint execEvents (total i : nat) (commands : list string) : list Event :=
  match commands with
  | [] => []
  | command :: rest =>
    cmd.banner total i command
    :: match Fields command with
       | [] => []
       | parts => [Exec parts; Out nl]
       end
    ++ execEvents total (S i) rest
  end.

(** ** A sample world

    The default aliases of [CreateDefaultConfig], the recipe of the
    specification's scenario under [x], and a machine on which the binary
    [false] exits with status 1 and every other command succeeds. *)
Module Sample.

Definition recipe : Recipe := mkRecipe "" ["echo a"; "false"; "echo b"] [].

Definition cfg : Config :=
  mkConfig
    (mkGit "main" None true)
    (mkKubernetes "" "default"
       (Some {[ "prod" := "production-cluster" ]}) None)
    (mkBrew (Some {[ "x" := recipe; "y" := mkRecipe "" ["false"] [] ]}))
    (mkTemplates "/home/u/.opsbrew/templates")
    (mkUI true false false false).

Definition world (dry skip : bool) (answers : list (Result string)) : World :=
  mkWorld dry skip false None (Ok cfg) "/home/u/.opsbrew.yaml" (Ok "/home/u")
          (λ _, None) (λ _, None) answers
          (λ _ argv, match argv with
                     | "false" :: _ => Err "exit status 1"
                     | _ => Ok ""
                     end)
          (λ _, Err "abort") [].

End Sample.

(** ** Vocabulary of the further properties *)

(** The codes the [switch] of [ParseStatus] sends to each bucket. *)
Definition codeOf (b : git.Bucket) (xy : string) : Prop :=
  match b with
  | git.BModified => xy = "MM"
  | git.BStaged =>
    ∃ c, (xy = String "M" (String c "") ∧ c ≠ "M"%char) ∨ xy = String "A" (String c "")
  | git.BUntracked => xy = "??"
  | git.BDeleted => ∃ c, xy = String "D" (String c "")
  | git.BRenamed => ∃ c, xy = String "R" (String c "")
  | git.BConflicted => xy = "UU"
  end.

(** An event that only writes to the terminal. *)
Definition isPrint (e : Event) : bool :=
  match e with
  | Out _ | Say _ _ => true
  | _ => false
  end.

(** From [w] to [w'] only lines were printed and answers read: the flags
    and what the world answers are the same. *)
Definition printsOnly (w w' : World) : Prop :=
  dryRun w' = dryRun w ∧ process w' = process w ∧
  ∃ es, trace w' = trace w ++ es ∧ forallb isPrint es = true.

(** [c] keeps the property [I] of the world, and a value it goes on with
    satisfies [V]. *)
Definition preserves (I : World → Prop) {A : Type} (c : Cmd A) (V : A → Prop)
  : Prop :=
  ∀ w, I w → I (c w).2 ∧ ∀ a, (c w).1 = Next a → V a.

(** The file [SaveConfig] would write in [w]: the one viper uses, else
    [.opsbrew.yaml] in the home directory, when that is known. *)
Definition savePath (w : World) : option ConfigPath :=
  if decide (configFileUsed w = "") then
    match homeDir w with
    | Ok home => Some (HomeFile home)
    | Err _ => None
    end
  else Some (UsedFile (configFileUsed w)).

(** In [w] the document [doc] can be marshalled and written to [path]. *)
Definition saves (w : World) (doc : Config) (path : ConfigPath) : Prop :=
  marshal w doc = None ∧ savePath w = Some path ∧ writeFile w path = None.

(** The world [w] with the flag [--dry-run] set to [b]. *)
Definition setDry (b : bool) (w : World) : World :=
  mkWorld b (confirm w) (repoFile w) (readInConfig w) (unmarshal w)
          (configFileUsed w) (homeDir w) (marshal w) (writeFile w) (stdin w)
          (process w) (fuzzyFind w) (trace w).

(** [c] does the same whatever the flag [--dry-run] says. *)
Definition blind {A : Type} (c : Cmd A) : Prop :=
  ∀ b w, c (setDry b w) = ((c w).1, setDry b (c w).2).

(** [c] always goes on, and the processes it has started by then are
    [ps], in order. *)
Definition goesOn {A : Type} (c : Cmd A) (ps : list (list string)) : Prop :=
  ∀ w, ∃ a es, c w = (Next a, emitAll es w) ∧ spawned es = ps.

(** [c] only prints and reads the input, and it never leaves with [nil]
    or a panic; with [ends] it never goes on either: it always leaves with
    an error. *)
Definition printing (ends : bool) {A : Type} (c : Cmd A) : Prop :=
  ∀ w, printsOnly w (c w).2 ∧
       match (c w).1 with
       | Next _ => ends = false
       | Return (Error _) => True
       | Return _ => False
       end.

(** ** What a load makes of the file

    [LoadConfig] fills [Config] with [viper.Unmarshal], which decodes the
    settings viper read with mapstructure: a struct field takes the value
    of the key equal to its Go name up to case, unless a [mapstructure] tag
    names another key. The fields of [Config] carry [yaml] tags only:
    [yaml.Marshal] writes the file by them and mapstructure does not read
    them. *)
Definition loadsKey (field key : string) : bool :=
  bool_decide (mapBytes lowerByte field = mapBytes lowerByte key).

(** A field whose key in the file is not its name up to case is left at
    its zero value. *)
Definition dropped {A : Type} (field key : string) (zero value : A) : Prop :=
  loadsKey field key = false → value = zero.

(** [cfg] is a [Config] a load can give: each field, with the Go name and
    the yaml key [type Config struct] declares for it. *)
Definition unmarshalled (cfg : Config) : Prop :=
  dropped "DefaultBranch" "default_branch" "" (DefaultBranch (Git cfg)) ∧
  dropped "Aliases" "aliases" None (Aliases (Git cfg)) ∧
  dropped "AutoFetch" "auto_fetch" false (AutoFetch (Git cfg)) ∧
  dropped "DefaultContext" "default_context" "" (DefaultContext (Kubernetes cfg)) ∧
  dropped "DefaultNamespace" "default_namespace" ""
          (DefaultNamespace (Kubernetes cfg)) ∧
  dropped "ContextAliases" "context_aliases" None
          (ContextAliases (Kubernetes cfg)) ∧
  dropped "NamespaceAliases" "namespace_aliases" None
          (NamespaceAliases (Kubernetes cfg)) ∧
  dropped "Recipes" "recipes" None (Recipes (Brew cfg)) ∧
  dropped "Path" "path" "" (TemplatesPath (Templates cfg)) ∧
  dropped "Colors" "colors" false (Colors (UI cfg)) ∧
  dropped "Verbose" "verbose" false (Verbose (UI cfg)) ∧
  dropped "Confirm" "confirm" false (Confirm (UI cfg)) ∧
  dropped "DryRun" "dry_run" false (DryRun (UI cfg)).

(** ** A second sample world

    A repository with the file [.opsbrew.yaml], two local branches and two
    remote references, and a cluster with two namespaces. *)
Module Demo.

Definition answer (argv : list string) : Result string :=
  match argv with
  | ["git"; "branch"; "--format=%(refname:short)"] =>
    Ok ("main" +:+ nl +:+ "feature" +:+ nl)
  | ["git"; "branch"; "--show-current"] => Ok ("main" +:+ nl)
  | ["git"; "branch"; "-r"; "--format=%(refname:short)"] =>
    Ok ("origin/HEAD" +:+ nl +:+ "origin/main" +:+ nl)
  | ["git"; "status"; "--porcelain"] =>
    Ok ("M  a.txt" +:+ nl +:+ "D  gone.txt" +:+ nl)
  | "git" :: "show-ref" :: _ => Err "exit status 1"
  | "grep" :: _ => Err "exit status 127"
  | "find" :: _ => Ok ("./a.go" +:+ nl +:+ "./b.go" +:+ nl)
  | "kubectl" :: "config" :: "get-contexts" :: _ => Err "exit status 1"
  | _ => Ok ""
  end.

Definition world (dry : bool) (answers : list (Result string)) : World :=
  mkWorld dry false true None (Ok Sample.cfg) "" (Ok "/home/u")
          (λ _, None) (λ _, None) answers (λ _, answer) (λ _, Ok 0) [].

(** The sample configuration with an alias for a namespace. *)
Definition cfg : Config :=
  mkConfig (Git Sample.cfg)
           (mkKubernetes "" "default" (ContextAliases (Kubernetes Sample.cfg))
                         (Some {[ "app" := "application" ]}))
           (Brew Sample.cfg) (Templates Sample.cfg) (UI Sample.cfg).

(** A machine with two contexts, [prod] and [dev] (the current one), where
    the finder returns the first candidate. *)
Definition cluster (dry : bool) : World :=
  mkWorld dry false false None (Ok cfg) "" (Ok "/home/u")
          (λ _, None) (λ _, None) []
          (λ _ argv, match argv with
                     | "kubectl" :: "config" :: "get-contexts" :: _ =>
                       Ok ("prod" +:+ nl +:+ "dev" +:+ nl)
                     | ["kubectl"; "config"; "current-context"] => Ok ("dev" +:+ nl)
                     | "git" :: "checkout" :: "-b" :: _ => Err "exit status 128"
                     | _ => Ok ""
                     end)
          (λ _, Ok 0) [].

(** A machine whose cluster lists two pods and two namespaces, where the
    finder returns the second candidate. *)
Definition pods : World :=
  mkWorld false false false None (Ok cfg) "" (Ok "/home/u")
          (λ _, None) (λ _, None) []
          (λ _ argv, match argv with
                     | "kubectl" :: "get" :: "pods" :: _ =>
                       Ok ("web-1 true Running 0 2024-05-01T10:00:00Z" +:+ nl
                           +:+ "api-2 false Pending 3 2024-05-02T10:00:00Z" +:+ nl)
                     | "kubectl" :: "get" :: "namespaces" :: _ =>
                       Ok ("default Active" +:+ nl +:+ "kube-system Active" +:+ nl)
                     | _ => Ok ""
                     end)
          (λ _, Ok 1) [].

(** What a load gives for a file that holds [Sample.cfg]: the settings
    whose key is not the name of their field are gone. *)
Definition loaded : Config :=
  mkConfig (mkGit "" (Aliases (Git Sample.cfg)) false)
           (mkKubernetes "" "" None None)
           (Brew Sample.cfg) (Templates Sample.cfg)
           (mkUI true false false false).

(** A run with [--confirm] after that load. *)
Definition reloaded : World :=
  mkWorld false true false None (Ok loaded) "/home/u/.opsbrew.yaml"
          (Ok "/home/u") (λ _, None) (λ _, None) []
          (λ _ _, Ok "") (λ _, Err "abort") [].

End Demo.

(** * Theorems *)

(** ** The string primitives on sample inputs *)

Example TrimSpace_samples :
  TrimSpace (" " +:+ nl +:+ "a b" +:+ String (byte_of 9) nl) = "a b" ∧
  TrimSpace (String (byte_of 194) (String (byte_of 160) "x")) = "x" ∧
  TrimSpace (String (byte_of 194) "x") = String (byte_of 194) "x" ∧
  TrimSpace ("x" +:+ String (byte_of 226) (String (byte_of 128) (String (byte_of 168) "")))
  = "x" ∧
  TrimSpace "  " = "".
Proof. repeat split. Qed.

Example Split_Fields_samples :
  Split "" LF = [""] ∧
  Split ("a" +:+ nl +:+ nl +:+ "b") LF = ["a"; ""; "b"] ∧
  Fields "  git   pull origin " = ["git"; "pull"; "origin"] ∧
  Fields "   " = [] ∧
  Join ["daily"; "git"] ", " = "daily, git" ∧
  itoa 0 = "0" ∧ itoa 12 = "12".
Proof. repeat split. Qed.

Example ToLower_samples (unicodeLower : string → string) :
  ToLower unicodeLower "YeS" = "yes" ∧ ToLower unicodeLower "Y" = "y" ∧
  ToLower unicodeLower "no" = "no" ∧ ToLower unicodeLower "" = "".
Proof. repeat split. Qed.

(** ** The status classifier *)
Section StatusClassifier.
Import git.

Lemma line_of_length_3 (line : string) :
  (3 ≤ String.length line)%nat →
  ∃ a b c rest, line = String a (String b (String c rest)).
Proof.
  destruct line as [|a [|b [|c rest]]]; simpl; try lia.
  intros _. by exists a, b, c, rest.
Qed.

Lemma switchXY_total (a b : ascii) :
  ∃ r, switchXY (String a (String b "")) = Some r.
Proof.
  unfold switchXY, HasPrefix, byteAt. cbn [String.prefix String.get].
  repeat (destruct (ascii_dec _ _); cbn [orb mbind option_bind]);
    try destruct (Ascii.eqb _ _); eauto.
Qed.

Lemma parseLine_long (st : GitStatus) (a b c : ascii) (rest : string) :
  ∃ r, switchXY (String a (String b "")) = Some r ∧
       parseLine st (String a (String b (String c rest))) =
         Some (match r with
               | Some bk => appendTo bk st (mkFileStatus rest (String a (String b "")) "")
               | None => st
               end).
Proof.
  destruct (switchXY_total a b) as [r Hr]. exists r. split; [done|].
  unfold parseLine.
  destruct (decide _) as [|_]; [done|].
  destruct (decide _) as [Hlt|_]; [simpl in Hlt; lia|].
  change (sliceTo (String a (String b (String c rest))) 2)
    with (Some (String a (String b ""))).
  change (sliceFrom (String a (String b (String c rest))) 3) with (Some rest).
  cbn [mbind option_bind]. rewrite Hr. by destruct r.
Qed.

Lemma parseLine_short (st : GitStatus) (line : string) :
  line = "" ∨ String.length line < 3 → parseLine st line = Some st.
Proof.
  intros H. unfold parseLine.
  destruct (decide (line = "")); [done|].
  destruct (decide (String.length line < 3)); [done|].
  by destruct H.
Qed.

Lemma parseLine_total (st : GitStatus) (line : string) :
  ∃ st', parseLine st line = Some st'.
Proof.
  destruct (decide (String.length line < 3)) as [Hlt|Hge].
  - exists st. apply parseLine_short. by right.
  - destruct (line_of_length_3 line) as (a & b & c & rest & ->); [lia|].
    destruct (parseLine_long st a b c rest) as (r & _ & ->). eauto.
Qed.

Lemma parseLines_total (lines : list string) (st : GitStatus) :
  ∃ st', parseLines st lines = Some st'.
Proof.
  revert st. induction lines as [|line rest IH]; intros st; simpl; [eauto|].
  destruct (parseLine_total st line) as [st1 ->]. simpl. apply IH.
Qed.

Lemma bucket_appendTo (b b' : Bucket) (st : GitStatus) (f : FileStatus) :
  bucket b' (appendTo b st f) =
    if decide (b = b') then bucket b' st ++ [f] else bucket b' st.
Proof.
  destruct b, b'; reflexivity.
Qed.

Lemma parseLines_skip_short (lines : list string) (st : GitStatus) :
  parseLines st lines =
  parseLines st (filter (λ l, (3 ≤ String.length l)%nat) lines).
Proof.
  revert st. induction lines as [|line rest IH]; intros st; [done|].
  rewrite filter_cons. destruct (decide (3 ≤ String.length line)%nat) as [Hge|Hlt].
  - simpl. destruct (parseLine st line); simpl; [apply IH|done].
  - simpl. rewrite parseLine_short; [|right; lia]. simpl. apply IH.
Qed.

(** C1, evaluated on the code. The specification puts the codes [UU],
    [AA] and [DD] in the conflicted bucket before any other rule. In
    [ParseStatus] the conflict case is the last of the [switch], after the
    cases for a first byte [A] and [D]: a line with code [AA] is appended
    to the staged bucket, one with code [DD] to the deleted bucket, and
    only [UU] reaches the conflicted bucket. *)
Theorem ParseStatus_AA_DD_shadowed :
  (∀ st c rest,
     parseLine st (String "A" (String "A" (String c rest)))
     = Some (appendTo BStaged st (mkFileStatus rest "AA" ""))) ∧
  (∀ st c rest,
     parseLine st (String "D" (String "D" (String c rest)))
     = Some (appendTo BDeleted st (mkFileStatus rest "DD" ""))) ∧
  (∀ st c rest,
     parseLine st (String "U" (String "U" (String c rest)))
     = Some (appendTo BConflicted st (mkFileStatus rest "UU" ""))) ∧
  ParseStatus ("AA both.txt" +:+ nl +:+ "DD gone.txt" +:+ nl +:+ "UU x.txt" +:+ nl)
  = Some (mkGitStatus []
            [mkFileStatus "both.txt" "AA" ""]
            []
            [mkFileStatus "gone.txt" "DD" ""]
            []
            [mkFileStatus "x.txt" "UU" ""]).
Proof.
  split; [|split; [|split; [|vm_compute; reflexivity]]].
  - intros st c rest.
    destruct (parseLine_long st "A" "A" c rest) as (r & Hr & ->).
    vm_compute in Hr. by injection Hr as <-.
  - intros st c rest.
    destruct (parseLine_long st "D" "D" c rest) as (r & Hr & ->).
    vm_compute in Hr. by injection Hr as <-.
  - intros st c rest.
    destruct (parseLine_long st "U" "U" c rest) as (r & Hr & ->).
    vm_compute in Hr. by injection Hr as <-.
Qed.

(** C5. The raw text of the scenario: staged is [a.txt], modified is
    [b.txt], untracked is [c.txt], conflicted is [d.txt]; the deleted and
    renamed buckets are empty. *)
Theorem ParseStatus_scenario :
  ParseStatus ("M  a.txt" +:+ nl +:+ "MM b.txt" +:+ nl +:+ "?? c.txt" +:+ nl
               +:+ "UU d.txt" +:+ nl)
  = Some {| Modified := [mkFileStatus "b.txt" "MM" ""];
            Staged := [mkFileStatus "a.txt" "M " ""];
            Untracked := [mkFileStatus "c.txt" "??" ""];
            Deleted := [];
            Renamed := [];
            Conflicted := [mkFileStatus "d.txt" "UU" ""] |}.
Proof. vm_compute. reflexivity. Qed.

(** C8. A blank line or a line of fewer than 3 bytes leaves the report as
    it is; a line of at least 3 bytes either leaves it as it is or is
    appended to one bucket, every other bucket unchanged; and the report
    of a text is the report of its lines of at least 3 bytes. *)
Theorem parseLine_at_most_one_bucket (st : GitStatus) (line output : string) :
  (line = "" ∨ String.length line < 3 → parseLine st line = Some st) ∧
  (3 ≤ String.length line →
   ∃ st' xy path,
     parseLine st line = Some st' ∧
     sliceTo line 2 = Some xy ∧ sliceFrom line 3 = Some path ∧
     (st' = st ∨
      ∃ b, bucket b st' = bucket b st ++ [mkFileStatus path xy ""] ∧
           ∀ b', b' ≠ b → bucket b' st' = bucket b' st)) ∧
  ParseStatus output =
    parseLines emptyStatus
      (filter (λ l, 3 ≤ String.length l) (Split (TrimSpace output) LF)).
Proof.
  split; [apply parseLine_short|]. split; [|apply parseLines_skip_short].
  intros Hlen.
  destruct (line_of_length_3 line Hlen) as (a & b & c & rest & ->).
  destruct (parseLine_long st a b c rest) as (r & _ & Hp).
  eexists _, (String a (String b "")), rest.
  split; [exact Hp|]. split; [done|]. split; [done|].
  destruct r as [bk|]; [right|by left].
  exists bk. split.
  - rewrite bucket_appendTo. by rewrite decide_True.
  - intros b' Hne. rewrite bucket_appendTo. by rewrite decide_False.
Qed.

(** C9. [ParseStatus] returns a report on every input: no slice or index
    is taken out of range. On a line of at least 3 bytes both slices and
    the index [xy[1]] are in range, and on a line of exactly 3 bytes the
    path is empty. *)
Theorem ParseStatus_total (output line : string) :
  (∃ st, ParseStatus output = Some st) ∧
  (3 ≤ String.length line →
   ∃ xy path c,
     sliceTo line 2 = Some xy ∧ sliceFrom line 3 = Some path ∧
     byteAt xy 1 = Some c ∧
     (String.length line = 3 → path = "")).
Proof.
  split; [apply parseLines_total|].
  intros Hlen.
  destruct (line_of_length_3 line Hlen) as (a & b & c & rest & ->).
  exists (String a (String b "")), rest, b.
  split; [done|]. split; [done|]. split; [done|].
  simpl. intros Hl. destruct rest; [done|simpl in Hl; lia].
Qed.

End StatusClassifier.

Lemma parseLine_at_most_one_bucket_witness :
  git.parseLine git.emptyStatus "ab" = Some git.emptyStatus ∧
  ∃ st' xy path,
    git.parseLine git.emptyStatus "M  a.txt" = Some st' ∧
    sliceTo "M  a.txt" 2 = Some xy ∧ sliceFrom "M  a.txt" 3 = Some path ∧
    (st' = git.emptyStatus ∨
     ∃ b, git.bucket b st' = git.bucket b git.emptyStatus ++ [git.mkFileStatus path xy ""] ∧
          ∀ b', b' ≠ b → git.bucket b' st' = git.bucket b' git.emptyStatus).
Proof.
  split.
  - apply (proj1 (parseLine_at_most_one_bucket git.emptyStatus "ab" "")).
    right. simpl. lia.
  - apply (proj1 (proj2 (parseLine_at_most_one_bucket git.emptyStatus "M  a.txt" ""))).
    simpl. lia.
Defined.

Lemma ParseStatus_total_witness :
  ∃ xy path c,
    sliceTo "M  " 2 = Some xy ∧ sliceFrom "M  " 3 = Some path ∧
    byteAt xy 1 = Some c ∧ (String.length "M  " = 3 → path = "").
Proof.
  apply (proj2 (ParseStatus_total "" "M  ")). simpl. lia.
Defined.

(** ** Running handlers: equations of the monad *)
Section Equations.

Lemma bind_next {A B} (c : Cmd A) (k : A → Cmd B) (w w1 : World) (a : A) :
  c w = (Next a, w1) → (c ≫= k) w = k a w1.
Proof. intros H. unfold mbind, Cmd_bind, bind. by rewrite H. Qed.

Lemma bind_return {A B} (c : Cmd A) (k : A → Cmd B) (w w1 : World) (e : Exit) :
  c w = (Return e, w1) → (c ≫= k) w = (Return e, w1).
Proof. intros H. unfold mbind, Cmd_bind, bind. by rewrite H. Qed.

Lemma emitAll_nil (w : World) : emitAll [] w = w.
Proof. destruct w. unfold emitAll. simpl. by rewrite app_nil_r. Qed.

Lemma emitAll_app (es1 es2 : list Event) (w : World) :
  emitAll es2 (emitAll es1 w) = emitAll (es1 ++ es2) w.
Proof. unfold emitAll. simpl. by rewrite app_assoc. Qed.

Lemma emit_emitAll (e : Event) (es : list Event) (w : World) :
  emit e (emitAll es w) = emitAll (es ++ [e]) w.
Proof. apply (emitAll_app es [e] w). Qed.

Lemma emitAll_emit (e : Event) (es : list Event) (w : World) :
  emitAll es (emit e w) = emitAll (e :: es) w.
Proof. apply (emitAll_app [e] es w). Qed.

(** [GetRepoConfig] prints nothing, reads no answer and starts no
    process: it can only point viper at the repository file. *)
Lemma GetRepoConfig_frame (w w1 : World) (s : Step (Result Config)) :
  GetRepoConfig w = (s, w1) →
  (w1 = w ∨ w1 = setConfigFile ".opsbrew.yaml" w) ∧
  ∃ r, s = Next r ∧ ∀ cfg, r = Ok cfg → unmarshal w = Ok cfg.
Proof.
  unfold GetRepoConfig, LoadConfig, mbind, Cmd_bind, bind, ask, ret. simpl.
  destruct (repoFile w); simpl.
  - destruct (readInConfig w); simpl.
    + intros [= <- <-]. split; [by right|]. eexists; split; [done|]. done.
    + destruct (unmarshal w) eqn:Hu; simpl; rewrite ?Hu; simpl;
        intros [= <- <-]; (split; [by right|]); eexists; (split; [done|]);
        by intros ? [= <-].
  - destruct (unmarshal w) eqn:Hu; simpl; intros [= <- <-];
      (split; [by left|]); eexists; (split; [done|]); by intros ? [= <-].
Qed.

Lemma loadConfig_ok (w w1 : World) (cfg : Config) :
  GetRepoConfig w = (Next (Ok cfg), w1) → cmd.loadConfig w = (Next cfg, w1).
Proof. intros H. unfold cmd.loadConfig. by rewrite (bind_next _ _ _ _ _ H). Qed.

End Equations.

(** Nested [emit] and [emitAll] gathered into one [emitAll]. *)
Ltac gather :=
  repeat match goal with
         | |- context [emit ?e ?w] => change (emit e w) with (emitAll [e] w)
         end;
  rewrite ?emitAll_app; cbn [app].

(** ** The resolution layer *)

(** C4. With an explicit argument the target is the alias table's value
    when the argument is a key of the table and the argument itself
    otherwise, and the world is left as it was: no candidate is listed (no
    process is started) and the finder is not opened. With the alias
    [prod] for [production-cluster], [prod] resolves to
    [production-cluster] and [other] to [other], and the whole handler
    starts one process, the switch to the resolved context. *)
Theorem resolveContext_explicit (cfg : Config) (arg : string) (more : list string)
        (w : World) :
  cmd.resolveContext cfg (arg :: more) w
  = (Next (default arg (GoMap.get (ContextAliases (Kubernetes cfg)) arg)), w) ∧
  cmd.resolveContext Sample.cfg ("prod" :: more) w = (Next "production-cluster", w) ∧
  cmd.resolveContext Sample.cfg ("other" :: more) w = (Next "other", w) ∧
  trace (run (cmd.kctxCmd ("prod" :: more)) (Sample.world false false [])).2
  = [Exec ["kubectl"; "config"; "use-context"; "production-cluster"];
     Say Green "Switched to context: production-cluster"].
Proof.
  split; [|split; [|split]]; try reflexivity.
  unfold cmd.resolveContext.
  by destruct (GoMap.get (ContextAliases (Kubernetes cfg)) arg).
Qed.

(** ** The recipe runner *)
Section RecipeRunner.

Variable unicodeLower : string → string.

Lemma listCommands_eq (commands : list string) (i : nat) (w : World) :
  cmd.listCommands i commands w
  = (Next (),
     emitAll (imap (λ j command,
                      Say Yellow ("  " +:+ itoa (i + j + 1) +:+ ". " +:+ command))
                   commands) w).
Proof.
  revert i w. induction commands as [|c rest IH]; intros i w.
  - simpl. by rewrite emitAll_nil.
  - cbn [cmd.listCommands]. erewrite bind_next; [|reflexivity].
    rewrite IH, emitAll_emit. do 2 f_equal.
    rewrite imap_cons, Nat.add_0_r. f_equal.
    apply imap_ext. intros j x _. unfold compose.
    by replace (i + S j) with (S i + j) by lia.
Qed.

Lemma spawned_no_exec (es : list Event) :
  (∀ e, e ∈ es → ∀ argv, e ≠ Exec argv) → spawned es = [].
Proof.
  induction es as [|e es IH]; intros H; [done|].
  unfold spawned. cbn [omap list_omap].
  destruct e; try (apply IH; intros e' He'; apply H; by right).
  exfalso. eapply H; [by left|done].
Qed.

Lemma spawned_dryLines (commands : list string) : spawned (dryLines commands) = [].
Proof.
  apply spawned_no_exec. intros e He argv ->.
  apply elem_of_lookup_imap in He as (i & c & He & _). discriminate.
Qed.

Lemma frame_dryRun (w w1 : World) (s : Step (Result Config)) :
  GetRepoConfig w = (s, w1) →
  dryRun w1 = dryRun w ∧ confirm w1 = confirm w ∧ stdin w1 = stdin w ∧
  trace w1 = trace w ∧ process w1 = process w.
Proof.
  intros H. by destruct (GetRepoConfig_frame _ _ _ H) as [[-> | ->] _].
Qed.

(** C3. In a dry run of a stored recipe the handler returns [nil] after
    printing the title and every command of the recipe, in stored order,
    each with its 1-based index; nothing else happens, so no process is
    started. *)
Theorem brewRunCmd_dry_run (w w1 : World) (cfg : Config) (name : string)
        (more : list string) (recipe : Recipe) :
  GetRepoConfig w = (Next (Ok cfg), w1) →
  GoMap.get (Recipes (Brew cfg)) name = Some recipe →
  dryRun w = true →
  let es := Say Yellow ("Would run recipe '" +:+ name +:+ "':")
            :: dryLines (Commands recipe) in
  run (cmd.brewRunCmd unicodeLower (name :: more)) w = (Nil, emitAll es w1) ∧
  trace (emitAll es w1) = trace w ++ es ∧
  spawned es = [].
Proof.
  intros Hload Hget Hdry es.
  destruct (frame_dryRun _ _ _ Hload) as (Hd & _ & _ & Htr & _).
  split; [|split].
  - unfold run, cmd.brewRunCmd.
    rewrite (bind_next _ _ _ _ _ (loadConfig_ok _ _ _ Hload)), Hget.
    erewrite bind_next; [|reflexivity].
    rewrite Hd, Hdry.
    erewrite bind_next; [|reflexivity].
    erewrite bind_next; [|apply listCommands_eq].
    unfold leave. by rewrite emitAll_emit.
  - simpl. by rewrite Htr.
  - unfold es. unfold spawned. cbn [omap list_omap]. apply spawned_dryLines.
Qed.

Lemma trimWith_head (skip : nat) (s : string) :
  trimWith spaceWidth skip s = "" ∨ spaceWidth (trimWith spaceWidth skip s) = 0.
Proof.
  revert skip. induction s as [|c s IH]; intros skip; [by left|].
  cbn [trimWith]. destruct skip as [|k]; [|apply IH].
  destruct (spaceWidth (String c s)) as [|k] eqn:Hw; [by right|apply IH].
Qed.

Lemma tokenFrom_nonempty (copy : nat) (s word : string) :
  word ≠ "" → (fmt.tokenFrom copy s word).1 ≠ "".
Proof.
  revert copy word. induction s as [|c s IH]; intros copy word Hword; [done|].
  assert (∀ more, word +:+ more ≠ "") as Hmore by (intros more; by destruct word).
  cbn [fmt.tokenFrom]. destruct copy as [|k]; [|by apply IH].
  destruct (spaceWidth (String c s)); [|done].
  destruct (fmt.runeLen (String c s)); by apply IH.
Qed.

(** The word [fmt.Scanln] stores is never empty. *)
Lemma scanLine_word (line word : string) :
  fmt.scanLine line = fmt.Word word → word ≠ "".
Proof.
  unfold fmt.scanLine. pose proof (trimWith_head 0 line) as Hhead.
  destruct (trimWith spaceWidth 0 line) as [|c s]; [done|].
  destruct Hhead as [|Hhead]; [done|].
  pose proof (tokenFrom_nonempty) as Htok.
  cbn [fmt.tokenFrom]. rewrite Hhead.
  destruct (fmt.runeLen (String c s)) as [|k].
  - specialize (Htok 0 s ("" +:+ fmt.replacement)).
    destruct (fmt.tokenFrom 0 s ("" +:+ fmt.replacement)) as [w rest].
    destruct (trimWith spaceWidth 0 rest); [|done].
    intros [= <-]. by apply Htok.
  - specialize (Htok k s ("" +:+ String c "")).
    destruct (fmt.tokenFrom k s ("" +:+ String c "")) as [w rest].
    destruct (trimWith spaceWidth 0 rest); [|done].
    intros [= <-]. by apply Htok.
Qed.

Lemma nextAnswer_word (pending rest : list (Result string)) (word : string) :
  nextAnswer pending = (Ok word, rest) → word ≠ "".
Proof.
  unfold nextAnswer, scanHead. destruct (lines pending) as [|[line|e] more]; [done| |done].
  destruct (fmt.scanLine line) as [s|e unread] eqn:Hscan; [|done].
  intros [= <- _]. by eapply scanLine_word.
Qed.

(** The bare Enter: an empty line is the error "unexpected newline". *)
Lemma nextAnswer_enter (rest : list (Result string)) :
  nextAnswer (Ok "" :: rest) = (Err "unexpected newline", lines rest).
Proof. reflexivity. Qed.

Lemma Scanln_eq (w : World) (r : Result string) (pending : list (Result string)) :
  nextAnswer (stdin w) = (r, pending) → Scanln w = (Next r, setStdin pending w).
Proof. intros H. unfold Scanln. by rewrite H. Qed.

Lemma declined_true (response : string) :
  cmd.declined unicodeLower response = true ↔
  ToLower unicodeLower response ≠ "y" ∧ ToLower unicodeLower response ≠ "yes".
Proof.
  unfold cmd.declined. by rewrite andb_true_iff, !bool_decide_eq_true.
Qed.

Lemma declined_false (response : string) :
  cmd.declined unicodeLower response = false ↔
  ToLower unicodeLower response = "y" ∨ ToLower unicodeLower response = "yes".
Proof.
  unfold cmd.declined. rewrite andb_false_iff, !bool_decide_eq_false.
  split; (intros [H|H]; [left|right]); try (by apply dec_stable); by intros ?.
Qed.

Lemma confirmOrLeave_prompt (cfg : Config) (question response : string)
      (pending : list (Result string)) (w : World) :
  confirm w = false → Confirm (UI cfg) = false →
  nextAnswer (stdin w) = (Ok response, pending) →
  cmd.confirmOrLeave unicodeLower cfg question w =
    if cmd.declined unicodeLower response
    then (Return Nil,
          emitAll [Out question; Say Yellow "Operation cancelled"]
                  (setStdin pending w))
    else (Next (), emitAll [Out question] (setStdin pending w)).
Proof.
  intros Hflag Hui Hin. unfold cmd.confirmOrLeave.
  erewrite bind_next; [|reflexivity]. rewrite Hflag, Hui. cbn [negb andb].
  erewrite bind_next; [|reflexivity].
  erewrite bind_next; [|by apply Scanln_eq]. cbv beta iota.
  change (setStdin pending (emit (Out question) w))
    with (emitAll [Out question] (setStdin pending w)).
  destruct (cmd.declined unicodeLower response); [|reflexivity].
  erewrite bind_next; [|reflexivity]. unfold leave. by rewrite emit_emitAll.
Qed.

Lemma confirmOrLeave_skip (cfg : Config) (question : string) (w : World) :
  confirm w = true ∨ Confirm (UI cfg) = true →
  cmd.confirmOrLeave unicodeLower cfg question w = (Next (), w).
Proof.
  intros H. unfold cmd.confirmOrLeave.
  erewrite bind_next; [|reflexivity].
  destruct H as [-> | ->]; [done|]. by rewrite andb_false_r.
Qed.

Lemma confirmOrLeave_error (cfg : Config) (question e : string)
      (pending : list (Result string)) (w : World) :
  confirm w = false → Confirm (UI cfg) = false →
  nextAnswer (stdin w) = (Err e, pending) →
  cmd.confirmOrLeave unicodeLower cfg question w =
    (Return (Error e),
     emitAll [Out question; Say Red ("Error reading input: " +:+ e)]
             (setStdin pending w)).
Proof.
  intros Hflag Hui Hin. unfold cmd.confirmOrLeave.
  erewrite bind_next; [|reflexivity]. rewrite Hflag, Hui. cbn [negb andb].
  erewrite bind_next; [|reflexivity].
  erewrite bind_next; [|by apply Scanln_eq]. cbv beta iota.
  erewrite bind_next; [|reflexivity]. unfold leave.
  change (setStdin pending (emit (Out question) w))
    with (emitAll [Out question] (setStdin pending w)).
  by rewrite emit_emitAll.
Qed.

(** C6. Not a dry run, confirmation neither skipped by the flag
    [--confirm] nor by the configuration: the handler prints the question
    and reads one line with [fmt.Scanln]. When the line is one word, a word
    whose lower-case form is neither [y] nor [yes] ends the run with [nil]
    after the line "Operation cancelled", no process started, and a word
    whose lower-case form is [y] or [yes] goes on to the execution of the
    recipe. When the line is not one word the read fails and the handler
    returns that error after the red line "Error reading input: ...", no
    process started: this is what the bare Enter, the answer the prompt
    "(y/N)" offers as its default, does, with the error "unexpected
    newline". *)
Theorem brewRunCmd_confirmation_answer
        (w w1 : World) (cfg : Config) (name : string)
        (more : list string) (recipe : Recipe) (answer : Result string)
        (pending : list (Result string)) :
  GetRepoConfig w = (Next (Ok cfg), w1) →
  GoMap.get (Recipes (Brew cfg)) name = Some recipe →
  dryRun w = false → confirm w = false → Confirm (UI cfg) = false →
  nextAnswer (stdin w) = (answer, pending) →
  let question := Out ("Run recipe '" +:+ name +:+ "'? (y/N): ") in
  match answer with
  | Ok response =>
    response ≠ "" ∧
    (ToLower unicodeLower response ≠ "y" ∧ ToLower unicodeLower response ≠ "yes" →
     run (cmd.brewRunCmd unicodeLower (name :: more)) w
     = (Nil, emitAll [question; Say Yellow "Operation cancelled"]
                     (setStdin pending w1)) ∧
     spawned [question; Say Yellow "Operation cancelled"] = []) ∧
    (ToLower unicodeLower response = "y" ∨ ToLower unicodeLower response = "yes" →
     run (cmd.brewRunCmd unicodeLower (name :: more)) w
     = run (cmd.runRecipe name recipe) (emitAll [question] (setStdin pending w1)))
  | Err e =>
    run (cmd.brewRunCmd unicodeLower (name :: more)) w
    = (Error e, emitAll [question; Say Red ("Error reading input: " +:+ e)]
                        (setStdin pending w1)) ∧
    spawned [question; Say Red ("Error reading input: " +:+ e)] = []
  end ∧
  (∀ rest, stdin w = Ok "" :: rest → answer = Err "unexpected newline").
Proof.
  intros Hload Hget Hdry Hflag Hui Hin question.
  destruct (frame_dryRun _ _ _ Hload) as (Hd & Hc & Hs & _ & _).
  assert (Hrun : cmd.brewRunCmd unicodeLower (name :: more) w
                 = (cmd.confirmOrLeave unicodeLower cfg
                      ("Run recipe '" +:+ name +:+ "'? (y/N): ");;
                    cmd.runRecipe name recipe) w1).
  { unfold cmd.brewRunCmd.
    rewrite (bind_next _ _ _ _ _ (loadConfig_ok _ _ _ Hload)), Hget.
    erewrite bind_next; [|reflexivity]. by rewrite Hd, Hdry. }
  split.
  - destruct answer as [response|e].
    + split; [by eapply nextAnswer_word|]. split.
      * intros Hno%declined_true. split; [|done].
        unfold run at 1. rewrite Hrun.
        erewrite bind_return; [done|].
        rewrite (confirmOrLeave_prompt cfg _ response pending); [|congruence..].
        by rewrite Hno.
      * intros Hyes%declined_false.
        unfold run at 1. rewrite Hrun.
        rewrite (bind_next _ _ w1 (emitAll [question] (setStdin pending w1)) ());
          [done|].
        rewrite (confirmOrLeave_prompt cfg _ response pending); [|congruence..].
        by rewrite Hyes.
    + split; [|done]. unfold run. rewrite Hrun.
      erewrite bind_return; [done|].
      apply confirmOrLeave_error; congruence.
  - intros rest Hrest. rewrite Hrest, nextAnswer_enter in Hin. congruence.
Qed.

(** One turn of the execution loop. *)
Lemma execCommands_cons (total i : nat) (c : string) (rest : list string)
      (w : World) :
  cmd.execCommands total i (c :: rest) w =
    match Fields c with
    | [] => cmd.execCommands total (S i) rest (emitAll [cmd.banner total i c] w)
    | parts =>
      match process w (trace w ++ [cmd.banner total i c]) parts with
      | Err e =>
        (Return (Error ("recipe execution failed: " +:+ e)),
         emitAll [cmd.banner total i c; Exec parts;
                  Say Red ("Command failed: " +:+ c)] w)
      | Ok _ =>
        cmd.execCommands total (S i) rest
          (emitAll [cmd.banner total i c; Exec parts; Out nl] w)
      end
    end.
Proof.
  cbn [cmd.execCommands]. erewrite bind_next; [|reflexivity].
  change (emit (cmd.banner total i c) w) with (emitAll [cmd.banner total i c] w).
  destruct (Fields c) as [|p ps]; [done|].
  erewrite bind_next; [|reflexivity]. cbv beta iota.
  change (process (emitAll [cmd.banner total i c] w)
                  (trace (emitAll [cmd.banner total i c] w)))
    with (process w (trace w ++ [cmd.banner total i c])).
  destruct (process w (trace w ++ [cmd.banner total i c]) (p :: ps)).
  - erewrite bind_next; [|reflexivity]. by rewrite !emit_emitAll.
  - erewrite bind_next; [|reflexivity]. unfold leave.
    by rewrite !emit_emitAll.
Qed.

(** A prefix of commands the loop gets through leaves exactly
    [execEvents] in the trace. *)
Lemma execCommands_ok (total : nat) (pre : list string) (i : nat) (w w1 : World) :
  cmd.execCommands total i pre w = (Next (), w1) →
  w1 = emitAll (execEvents total i pre) w.
Proof.
  revert i w. induction pre as [|c rest IH]; intros i w.
  - intros [= <-]. by rewrite emitAll_nil.
  - rewrite execCommands_cons. cbn [execEvents].
    destruct (Fields c) as [|p ps].
    + intros ->%IH. by rewrite emitAll_app.
    + destruct (process _ _ _); [|done].
      intros ->%IH. by rewrite emitAll_app.
Qed.

Lemma execCommands_fail (total : nat) (pre : list string) (i : nat)
      (w w1 : World) (failing : string) (post : list string) (e : string) :
  cmd.execCommands total i pre w = (Next (), w1) →
  Fields failing ≠ [] →
  process w1 (trace w1 ++ [cmd.banner total (i + length pre) failing])
          (Fields failing) = Err e →
  cmd.execCommands total i (pre ++ failing :: post) w
  = (Return (Error ("recipe execution failed: " +:+ e)),
     emitAll [cmd.banner total (i + length pre) failing; Exec (Fields failing);
              Say Red ("Command failed: " +:+ failing)] w1).
Proof.
  revert i w. induction pre as [|c rest IH]; intros i w.
  - intros [= <-]. cbn [length app]. rewrite Nat.add_0_r. intros Hne Herr.
    rewrite execCommands_cons.
    destruct (Fields failing) as [|p ps]; [done|]. cbv zeta. by rewrite Herr.
  - cbn [app length]. rewrite !execCommands_cons.
    replace (i + S (length rest)) with (S i + length rest) by lia.
    destruct (Fields c) as [|p ps]; [apply IH|]. cbv zeta.
    destruct (process w _ (p :: ps)); [apply IH|done].
Qed.

Lemma spawned_app (es1 es2 : list Event) :
  spawned (es1 ++ es2) = spawned es1 ++ spawned es2.
Proof. apply omap_app. Qed.

Lemma spawned_header (name : string) (recipe : Recipe) :
  spawned (cmd.header name recipe) = [].
Proof. unfold cmd.header. by destruct (decide _). Qed.

Lemma spawned_execEvents (total : nat) (commands : list string) (i : nat) :
  spawned (execEvents total i commands)
  = filter (λ argv, argv ≠ []) (Fields <$> commands).
Proof.
  revert i. induction commands as [|c rest IH]; intros i; [done|].
  cbn [execEvents fmap list_fmap]. rewrite filter_cons.
  change (spawned (cmd.banner total i c :: ?l)) with (spawned l).
  rewrite spawned_app, IH.
  destruct (Fields c) as [|p ps].
  - by rewrite decide_False by (by intros ?).
  - by rewrite decide_True by done.
Qed.

Lemma runRecipe_header (name : string) (recipe : Recipe) (w : World) :
  cmd.runRecipe name recipe w
  = (cmd.execCommands (length (Commands recipe)) 0 (Commands recipe);;
     say Green ("Recipe '" +:+ name +:+ "' completed successfully");;
     leave Nil) (emitAll (cmd.header name recipe) w).
Proof.
  unfold cmd.runRecipe, cmd.header.
  erewrite bind_next; [|reflexivity].
  destruct (decide (Description recipe = "")).
  - erewrite bind_next; [|reflexivity]. erewrite bind_next; [|reflexivity].
    by gather.
  - erewrite bind_next; [|reflexivity]. erewrite bind_next; [|reflexivity].
    by gather.
Qed.

(** C2, as the code has it. Not a dry run, the confirmation passed (it
    was skipped, or answered with yes), the commands before the [k]-th
    all got through the loop and the [k]-th, not blank, exits non-zero or
    cannot be started: the handler returns the error "recipe execution
    failed: " followed by the process error. The commands before the
    [k]-th were taken in stored order, each non-blank one started as its
    white-space separated fields; after the [k]-th nothing is started.
    The index [k] is in the progress line printed before the command and
    the command text in the line "Command failed: ..."; the returned
    error carries the process error only. *)
Theorem brewRunCmd_stops_at_first_failure
        (w w1 w2 w3 : World) (cfg : Config) (name : string) (more : list string)
        (recipe : Recipe) (pre : list string) (failing : string)
        (post : list string) (e : string) :
  GetRepoConfig w = (Next (Ok cfg), w1) →
  GoMap.get (Recipes (Brew cfg)) name = Some recipe →
  dryRun w = false →
  cmd.confirmOrLeave unicodeLower cfg
    ("Run recipe '" +:+ name +:+ "'? (y/N): ") w1 = (Next (), w2) →
  Commands recipe = pre ++ failing :: post →
  let total := length (Commands recipe) in
  let line := cmd.banner total (length pre) failing in
  cmd.execCommands total 0 pre (emitAll (cmd.header name recipe) w2)
    = (Next (), w3) →
  Fields failing ≠ [] →
  process w3 (trace w3 ++ [line]) (Fields failing) = Err e →
  let last := [line; Exec (Fields failing);
               Say Red ("Command failed: " +:+ failing)] in
  run (cmd.brewRunCmd unicodeLower (name :: more)) w
    = (Error ("recipe execution failed: " +:+ e), emitAll last w3) ∧
  w3 = emitAll (cmd.header name recipe ++ execEvents total 0 pre) w2 ∧
  spawned (cmd.header name recipe ++ execEvents total 0 pre ++ last)
    = filter (λ argv, argv ≠ []) (Fields <$> pre) ++ [Fields failing] ∧
  line = Say Cyan ("Executing command " +:+ itoa (length pre + 1) +:+ "/"
                   +:+ itoa total +:+ ": " +:+ failing).
Proof.
  intros Hload Hget Hdry Hconf Hcmds total line Hpre Hne Herr last.
  destruct (frame_dryRun _ _ _ Hload) as (Hd & _).
  split; [|split; [|split]].
  - unfold run, cmd.brewRunCmd.
    rewrite (bind_next _ _ _ _ _ (loadConfig_ok _ _ _ Hload)), Hget.
    erewrite bind_next; [|reflexivity]. rewrite Hd, Hdry.
    rewrite (bind_next _ _ _ _ _ Hconf), runRecipe_header.
    erewrite bind_return; [done|].
    fold total. rewrite Hcmds.
    by apply (execCommands_fail total pre 0).
  - apply execCommands_ok in Hpre. by rewrite Hpre, emitAll_app.
  - rewrite !spawned_app, spawned_header, spawned_execEvents.
    unfold last, line, spawned. simpl. done.
  - reflexivity.
Qed.

End RecipeRunner.

Lemma brewRunCmd_dry_run_witness :
  run (cmd.brewRunCmd id ["x"]) (Sample.world true false [])
  = (Nil, emitAll [Say Yellow "Would run recipe 'x':"; Say Yellow "  1. echo a";
                   Say Yellow "  2. false"; Say Yellow "  3. echo b"]
                  (Sample.world true false [])).
Proof.
  apply (brewRunCmd_dry_run id (Sample.world true false [])
           (Sample.world true false []) Sample.cfg "x" [] Sample.recipe);
    reflexivity.
Defined.

Lemma brewRunCmd_confirmation_answer_witness :
  run (cmd.brewRunCmd id ["x"]) (Sample.world false false [Ok ""])
  = (Error "unexpected newline",
     emitAll [Out "Run recipe 'x'? (y/N): ";
              Say Red "Error reading input: unexpected newline"]
             (setStdin [] (Sample.world false false [Ok ""]))) ∧
  run (cmd.brewRunCmd id ["x"]) (Sample.world false false [Ok "no thanks"])
  = (Error "expected newline",
     emitAll [Out "Run recipe 'x'? (y/N): ";
              Say Red "Error reading input: expected newline"]
             (setStdin [Ok "hanks"] (Sample.world false false [Ok "no thanks"]))) ∧
  run (cmd.brewRunCmd id ["x"]) (Sample.world false false [Ok "no"])
  = (Nil, emitAll [Out "Run recipe 'x'? (y/N): "; Say Yellow "Operation cancelled"]
                  (setStdin [] (Sample.world false false [Ok "no"]))).
Proof.
  split; [|split].
  - apply (brewRunCmd_confirmation_answer id (Sample.world false false [Ok ""])
             (Sample.world false false [Ok ""]) Sample.cfg "x" [] Sample.recipe
             (Err "unexpected newline") []); reflexivity.
  - apply (brewRunCmd_confirmation_answer id (Sample.world false false [Ok "no thanks"])
             (Sample.world false false [Ok "no thanks"]) Sample.cfg "x" []
             Sample.recipe (Err "expected newline") [Ok "hanks"]); reflexivity.
  - apply (brewRunCmd_confirmation_answer id (Sample.world false false [Ok "no"])
             (Sample.world false false [Ok "no"]) Sample.cfg "x" [] Sample.recipe
             (Ok "no") []); try reflexivity.
    split; vm_compute; discriminate.
Defined.

Lemma brewRunCmd_stops_at_first_failure_witness :
  run (cmd.brewRunCmd id ["x"]) (Sample.world false true [])
  = (Error "recipe execution failed: exit status 1",
     emitAll [Say Green "Running recipe: x"; Out nl;
              Say Cyan "Executing command 1/3: echo a"; Exec ["echo"; "a"]; Out nl;
              Say Cyan "Executing command 2/3: false"; Exec ["false"];
              Say Red "Command failed: false"]
             (Sample.world false true [])).
Proof.
  pose (w := Sample.world false true []).
  pose (w3 := emitAll [Say Green "Running recipe: x"; Out nl;
                       Say Cyan "Executing command 1/3: echo a";
                       Exec ["echo"; "a"]; Out nl] w).
  apply (brewRunCmd_stops_at_first_failure id w w w w3 Sample.cfg "x" []
           Sample.recipe ["echo a"] "false" ["echo b"] "exit status 1");
    try reflexivity.
  vm_compute. discriminate.
Defined.

(** C2 as the specification words it does not hold: the error returned for
    the recipe [echo a], [false], [echo b] names neither the index 2 nor the
    text [false], and the recipe [false] alone, failing at index 1, returns
    the same error. *)
Lemma brewRunCmd_error_not_identifying :
  (run (cmd.brewRunCmd id ["x"]) (Sample.world false true [])).1
    = Error "recipe execution failed: exit status 1" ∧
  ¬ identifies "recipe execution failed: exit status 1" 2 "false" ∧
  (run (cmd.brewRunCmd id ["y"]) (Sample.world false true [])).1
    = Error "recipe execution failed: exit status 1".
Proof.
  split; [vm_compute; reflexivity|]. split; [|vm_compute; reflexivity].
  intros [H _]. vm_compute in H. discriminate.
Qed.

(** ** The recipe store *)
Section RecipeStore.

Lemma printsOnly_same (w : World) : printsOnly w w.
Proof. repeat split. exists []. by rewrite app_nil_r. Qed.

Lemma printsOnly_trans (w w1 w2 : World) :
  printsOnly w w1 → printsOnly w1 w2 → printsOnly w w2.
Proof.
  intros (Hd & Hp & es & Htr & Hes) (Hd' & Hp' & es' & Htr' & Hes').
  split; [congruence|]. split; [congruence|]. exists (es ++ es').
  split; [by rewrite Htr', Htr, app_assoc|]. by rewrite forallb_app, Hes, Hes'.
Qed.

Lemma printing_leave {A} (ends : bool) (e : string) :
  printing ends (leave (A:=A) (Error e)).
Proof. intros w. split; [apply printsOnly_same|done]. Qed.

Lemma printing_ret {A} (a : A) : printing false (ret a).
Proof. intros w. split; [apply printsOnly_same|done]. Qed.

Lemma printing_bind {A B} (ends : bool) (c : Cmd A) (k : A → Cmd B) :
  printing false c → (∀ a, printing ends (k a)) → printing ends (c ≫= k).
Proof.
  intros Hc Hk w. destruct (Hc w) as [Hw Hs].
  unfold mbind, Cmd_bind, bind. destruct (c w) as [[a|e] w1]; simpl in *.
  - destruct (Hk a w1) as [Hw1 Hs1]. split; [by eapply printsOnly_trans|done].
  - split; [done|]. by destruct e.
Qed.

Lemma printing_step {A} (f : World → A) (g : World → World) :
  (∀ w, printsOnly w (g w)) → printing false (λ w, (Next (f w), g w)).
Proof. intros Hg w. split; [apply Hg|done]. Qed.

Lemma printing_print (e : Event) :
  isPrint e = true → printing false (λ w, (Next (), emit e w)).
Proof.
  intros He. apply (printing_step (λ _, ())). intros w. repeat split.
  exists [e]. split; [done|]. simpl. by rewrite He.
Qed.

Lemma printing_out (text : string) : printing false (out text).
Proof. by apply printing_print. Qed.

Lemma printing_say (c : Color) (line : string) : printing false (say c line).
Proof. by apply printing_print. Qed.

Lemma printing_ask {A} (f : World → A) : printing false (ask f).
Proof. apply (printing_step f id). apply printsOnly_same. Qed.

Lemma printing_setStdin (l : list (Result string)) :
  printing false (λ w, (Next (), setStdin l w)).
Proof.
  apply (printing_step (λ _, ())). intros w. repeat split.
  exists []. by rewrite app_nil_r.
Qed.

Lemma printing_Scanln : printing false Scanln.
Proof.
  intros w. unfold Scanln. destruct (nextAnswer (stdin w)) as [r rest].
  apply (printing_setStdin rest w).
Qed.

Lemma printing_loadConfig : printing false cmd.loadConfig.
Proof.
  intros w. unfold cmd.loadConfig, mbind, Cmd_bind, bind.
  destruct (GetRepoConfig w) as [s w1] eqn:Hload.
  destruct (GetRepoConfig_frame _ _ _ Hload) as [Hw1 (r & -> & _)].
  assert (printsOnly w w1).
  { destruct Hw1 as [-> | ->]; [apply printsOnly_same|].
    repeat split. exists []. by rewrite app_nil_r. }
  by destruct r.
Qed.

Ltac pstep :=
  first [ apply printing_leave | apply printing_ret | apply printing_out
        | apply printing_say | apply printing_ask | apply printing_setStdin
        | apply printing_Scanln | apply printing_loadConfig
        | apply printing_bind; [|intros ?] ].

(** The prompt loop never ends normally: the word [fmt.Scanln] stores is
    never empty, so the [break] of the loop is out of reach, and each turn
    takes a line. *)
Lemma readLines_leaves (pending : list (Result string)) (acc : list string) :
  printing true (cmd.readLines pending acc).
Proof.
  revert acc. induction pending as [|[line|e] rest IH]; intros acc;
    cbn [cmd.readLines]; (apply printing_bind; [apply printing_out|intros _]).
  - repeat pstep.
  - destruct (fmt.scanLine line) as [input|e unread] eqn:Hscan; [|repeat pstep].
    apply printing_bind; [apply printing_setStdin|intros _].
    rewrite decide_False by (by eapply scanLine_word). apply IH.
  - repeat pstep.
Qed.

Lemma printing_showCommands (commands : list string) (i : nat) :
  printing false (cmd.showCommands i commands).
Proof.
  revert i. induction commands as [|c rest IH]; intros i; cbn [cmd.showCommands];
    [apply printing_ret|].
  apply printing_bind; [apply printing_out|]. intros _. apply IH.
Qed.

Lemma printing_prompt (question : string) : printing false (cmd.prompt question).
Proof.
  unfold cmd.prompt. apply printing_bind; [apply printing_out|intros _].
  apply printing_bind; [apply printing_Scanln|intros [answer|e]]; repeat pstep.
Qed.

Lemma printing_brewSaveCmd (description : string) (tags args : list string) :
  printing true (cmd.brewSaveCmd description tags args).
Proof.
  unfold cmd.brewSaveCmd. destruct args as [|name more]; [apply printing_leave|].
  apply printing_bind; [apply printing_out|intros _].
  apply printing_bind; [apply printing_ask|intros pending].
  intros w. destruct (readLines_leaves (lines pending) [] w) as [Hw Hs].
  unfold mbind, Cmd_bind, bind, cmd.readCommands.
  by destruct (cmd.readLines (lines pending) [] w) as [[commands|e] w1].
Qed.

Lemma printing_brewEditCmd (args : list string) : printing true (cmd.brewEditCmd args).
Proof.
  unfold cmd.brewEditCmd. destruct args as [|name more]; [apply printing_leave|].
  apply printing_bind; [apply printing_loadConfig|intros cfg].
  destruct (GoMap.get (Recipes (Brew cfg)) name) as [recipe|]; [|apply printing_leave].
  do 4 (apply printing_bind; [apply printing_out|intros _]).
  apply printing_bind; [apply printing_showCommands|intros _].
  apply printing_bind; [apply printing_out|intros _].
  apply printing_bind; [apply printing_prompt|intros newDescription].
  apply printing_bind; [apply printing_prompt|intros newTags].
  apply printing_bind; [apply printing_out|intros _].
  apply printing_bind; [apply printing_ask|intros pending].
  intros w. destruct (readLines_leaves (lines pending) [] w) as [Hw Hs].
  unfold mbind, Cmd_bind, bind, cmd.readCommands.
  by destruct (cmd.readLines (lines pending) [] w) as [[commands|e] w1].
Qed.

Lemma prints_quiet (es : list Event) :
  forallb isPrint es = true → written es = [] ∧ spawned es = [].
Proof.
  induction es as [|e es IH]; [done|]. cbn [forallb].
  intros [He Hes]%andb_true_iff. unfold written, spawned. cbn [omap list_omap].
  destruct e; try done; by apply IH.
Qed.

Lemma printing_run (c : Cmd unit) (w : World) :
  printing true c →
  ∃ e es, (run c w).1 = Error e ∧
          trace (run c w).2 = trace w ++ es ∧
          written es = [] ∧ spawned es = [].
Proof.
  intros Hc. destruct (Hc w) as [(_ & _ & es & Htr & Hes) Hs]. unfold run.
  destruct (c w) as [[[]|[|e|]] w1]; try done. exists e, es.
  split; [done|]. split; [done|]. by apply prints_quiet.
Qed.

(** C7. [brew save] never saves. Its prompt asks for commands "one per
    line, empty line to finish", and the loop has the [break] for the empty
    answer, but [fmt.Scanln] gives an error for the empty line and the
    handler returns on every read error: whatever is typed, the handler
    returns an error, and it has written no document and started no
    process (the configuration is not even loaded). Typing the command
    [ls] and then the empty line returns "unexpected newline" where the
    specification has the recipe saved; the empty line alone returns the
    same error, where the specification has the validation error; and the
    line "echo 1" returns "expected newline". *)
Theorem brewSaveCmd_never_saves :
  (∀ (description : string) (tags args : list string) (w : World),
     ∃ e es,
       (run (cmd.brewSaveCmd description tags args) w).1 = Error e ∧
       trace (run (cmd.brewSaveCmd description tags args) w).2 = trace w ++ es ∧
       written es = [] ∧ spawned es = []) ∧
  run (cmd.brewSaveCmd "d" ["t"] ["x"]) (Sample.world false false [Ok "ls"; Ok ""])
  = (Error "unexpected newline",
     emitAll [Out ("Enter commands for recipe 'x' (one per line, empty line to finish):"
                   +:+ nl);
              Out "> "; Out "> "; Say Red "Error reading input: unexpected newline"]
             (setStdin [] (Sample.world false false [Ok "ls"; Ok ""]))) ∧
  (run (cmd.brewSaveCmd "d" ["t"] ["x"]) (Sample.world false false [Ok ""])).1
  = Error "unexpected newline" ∧
  (run (cmd.brewSaveCmd "d" ["t"] ["x"]) (Sample.world false false [Ok "echo 1"])).1
  = Error "expected newline".
Proof.
  split; [|by repeat split].
  intros description tags args w. apply printing_run, printing_brewSaveCmd.
Qed.

End RecipeStore.

(** * Further properties of the code *)

(** ** The status classifier *)
Section StatusEntries.
Import git.

Lemma switchXY_code (a b : ascii) (bk : Bucket) :
  switchXY (String a (String b "")) = Some (Some bk) →
  codeOf bk (String a (String b "")).
Proof.
  unfold switchXY, HasPrefix, byteAt. cbn [String.prefix String.get].
  destruct (ascii_dec "M" a) as [<-|HM].
  { cbn [mbind option_bind]. destruct (Ascii.eqb b "M") eqn:Hb.
    - apply Ascii.eqb_eq in Hb as ->. by intros [= <-].
    - intros [= <-]. exists b. left. split; [done|].
      intros ->. by rewrite Ascii.eqb_refl in Hb. }
  destruct (ascii_dec "A" a) as [<-|HA]; [intros [= <-]; exists b; by right|].
  destruct (ascii_dec "D" a) as [<-|HD]; [intros [= <-]; by exists b|].
  destruct (ascii_dec "R" a) as [<-|HR]; [intros [= <-]; by exists b|].
  destruct (ascii_dec "?" a) as [<-|HQ].
  { destruct (ascii_dec "?" b) as [<-|HQ2]; [by intros [= <-]|].
    destruct (ascii_dec "U" "?"); [done|]. cbn [orb].
    destruct (ascii_dec "A" "?"); [done|]. cbn [orb].
    by destruct (ascii_dec "D" "?"). }
  destruct (ascii_dec "U" a) as [<-|HU].
  { destruct (ascii_dec "U" b) as [<-|HU2]; [by intros [= <-]|]. cbn [orb].
    destruct (ascii_dec "A" "U"); [done|]. cbn [orb].
    by destruct (ascii_dec "D" "U"). }
  cbn [orb]. destruct (ascii_dec "A" a); [done|]. cbn [orb].
  by destruct (ascii_dec "D" a).
Qed.

(** Every entry of a bucket after the loop was there before or comes from
    one of the lines, with the code of that bucket. *)
Lemma parseLines_entries (lines : list string) (st st' : GitStatus) :
  parseLines st lines = Some st' →
  ∀ b f, f ∈ bucket b st' →
    f ∈ bucket b st ∨
    (codeOf b (Status f) ∧ Type_ f = "" ∧
     ∃ line sep, line ∈ lines ∧ line = Status f +:+ String sep (Path f)).
Proof.
  revert st. induction lines as [|line rest IH]; intros st.
  - intros [= <-] b f Hf. by left.
  - cbn [parseLines]. destruct (parseLine st line) as [st1|] eqn:Hline; [|done].
    cbn [mbind option_bind]. intros Hrest b f Hf.
    destruct (IH _ Hrest b f Hf) as [Hf1|(Hc & Ht & l & sep & Hl & Heq)].
    + destruct (decide (String.length line < 3)) as [Hlt|Hge].
      { rewrite parseLine_short in Hline by (by right).
        injection Hline as <-. by left. }
      destruct (line_of_length_3 line) as (x & y & z & tl & ->); [lia|].
      destruct (parseLine_long st x y z tl) as (r & Hr & Hp).
      rewrite Hp in Hline. injection Hline as <-.
      destruct r as [bk|]; [|by left].
      rewrite bucket_appendTo in Hf1. destruct (decide (bk = b)) as [->|]; [|by left].
      apply elem_of_app in Hf1 as [Hf1|Hf1%list_elem_of_singleton]; [by left|].
      subst f. right. split; [by apply switchXY_code|]. split; [done|].
      exists (String x (String y (String z tl))), z. split; [left|done].
    + right. split; [done|]. split; [done|]. exists l, sep. split; [by right|done].
Qed.

(** X1. The bucket tells the code: after [ParseStatus] an entry of the
    modified bucket has code [MM], of the untracked bucket [??], of the
    conflicted bucket [UU]; a deleted entry has first byte [D], a renamed
    one [R], and a staged one [A], or [M] with a second byte other than
    [M]. *)
Theorem ParseStatus_bucket_codes (output : string) (st : GitStatus)
        (b : Bucket) (f : FileStatus) :
  ParseStatus output = Some st → f ∈ bucket b st → codeOf b (Status f).
Proof.
  intros Hp Hf. destruct (parseLines_entries _ _ _ Hp b f Hf) as [Hin|[Hc _]]; [|done].
  destruct b; by apply elem_of_nil in Hin.
Qed.

(** X2. Every entry comes from a line of the trimmed output: the line is
    the code, one byte (whatever it is) and the path; [Type] is left
    empty. *)
Theorem ParseStatus_entry_line (output : string) (st : GitStatus)
        (b : Bucket) (f : FileStatus) :
  ParseStatus output = Some st → f ∈ bucket b st →
  Type_ f = "" ∧
  ∃ line sep, line ∈ Split (TrimSpace output) LF ∧
              line = Status f +:+ String sep (Path f).
Proof.
  intros Hp Hf. destruct (parseLines_entries _ _ _ Hp b f Hf) as [Hin|(_ & Ht & H)].
  - destruct b; by apply elem_of_nil in Hin.
  - done.
Qed.

Lemma parseLine_from (st st1 : GitStatus) (line : string) :
  parseLine st line = Some st1 →
  ∃ e1, parseLine emptyStatus line = Some e1 ∧
        ∀ b, bucket b st1 = bucket b st ++ bucket b e1.
Proof.
  destruct (decide (String.length line < 3)) as [Hlt|Hge].
  - rewrite !parseLine_short by (by right). intros [= <-].
    exists emptyStatus. split; [done|]. intros b. destruct b; simpl; by rewrite app_nil_r.
  - destruct (line_of_length_3 line) as (x & y & z & tl & ->); [lia|].
    destruct (parseLine_long st x y z tl) as (r & Hr & ->).
    destruct (parseLine_long emptyStatus x y z tl) as (r' & Hr' & ->).
    rewrite Hr in Hr'. injection Hr' as <-. intros [= <-].
    eexists. split; [done|]. intros b. destruct r as [bk|].
    + rewrite !bucket_appendTo. destruct (decide (bk = b)); [|destruct b; simpl; by rewrite app_nil_r].
      destruct b; done.
    + destruct b; simpl; by rewrite app_nil_r.
Qed.

Lemma parseLines_from (lines : list string) (st st' : GitStatus) :
  parseLines st lines = Some st' →
  ∃ r, parseLines emptyStatus lines = Some r ∧
       ∀ b, bucket b st' = bucket b st ++ bucket b r.
Proof.
  revert st st'. induction lines as [|line rest IH]; intros st st'.
  - intros [= <-]. exists emptyStatus. split; [done|].
    intros b. destruct b; simpl; by rewrite app_nil_r.
  - cbn [parseLines]. destruct (parseLine st line) as [st1|] eqn:Hline; [|done].
    cbn [mbind option_bind]. intros Hrest.
    destruct (parseLine_from _ _ _ Hline) as (e1 & -> & He1).
    cbn [mbind option_bind].
    destruct (IH _ _ Hrest) as (r & Hr & Hst').
    destruct (parseLines_total rest e1) as [r' Hr'].
    destruct (IH _ _ Hr') as (r2 & Hr2 & Hr'b).
    rewrite Hr in Hr2. injection Hr2 as <-.
    exists r'. split; [done|]. intros b.
    by rewrite Hst', He1, Hr'b, app_assoc.
Qed.

Lemma parseLines_app_eq (lines1 lines2 : list string) (st : GitStatus) :
  parseLines st (lines1 ++ lines2)
  = st1 ← parseLines st lines1; parseLines st1 lines2.
Proof.
  revert st. induction lines1 as [|line rest IH]; intros st; [done|].
  cbn [app parseLines]. destruct (parseLine st line); [apply IH|done].
Qed.

(** X3. The loop of [ParseStatus] handles each line on its own and keeps
    the order of the lines: the report of two runs of lines one after the
    other is, bucket by bucket, the report of the first followed by the
    report of the second. *)
Theorem parseLines_app (lines1 lines2 : list string) (r1 r2 : GitStatus) :
  parseLines emptyStatus lines1 = Some r1 →
  parseLines emptyStatus lines2 = Some r2 →
  ∃ r, parseLines emptyStatus (lines1 ++ lines2) = Some r ∧
       ∀ b, bucket b r = bucket b r1 ++ bucket b r2.
Proof.
  intros H1 H2. rewrite parseLines_app_eq, H1. cbn [mbind option_bind].
  destruct (parseLines_total lines2 r1) as [r Hr]. exists r. split; [done|].
  destruct (parseLines_from _ _ _ Hr) as (r2' & Hr2 & Hb).
  rewrite H2 in Hr2. by injection Hr2 as <-.
Qed.

End StatusEntries.

Lemma ParseStatus_bucket_codes_witness :
  codeOf git.BStaged "AA".
Proof.
  apply (ParseStatus_bucket_codes ("AA both.txt" +:+ nl)
           (git.mkGitStatus [] [git.mkFileStatus "both.txt" "AA" ""] [] [] [] [])
           git.BStaged (git.mkFileStatus "both.txt" "AA" "")).
  - reflexivity.
  - simpl. left.
Defined.

Lemma ParseStatus_entry_line_witness :
  ∃ line sep, line ∈ Split (TrimSpace ("R  old -> new" +:+ nl)) LF ∧
              line = "R " +:+ String sep "old -> new".
Proof.
  apply (ParseStatus_entry_line ("R  old -> new" +:+ nl)
           (git.mkGitStatus [] [] [] [] [git.mkFileStatus "old -> new" "R " ""] [])
           git.BRenamed (git.mkFileStatus "old -> new" "R " "")).
  - reflexivity.
  - simpl. left.
Defined.

Lemma parseLines_app_witness :
  ∃ r, git.parseLines git.emptyStatus (["M  a"; "?? b"] ++ ["A  c"; "?? d"]) = Some r ∧
       ∀ b, git.bucket b r
            = git.bucket b (git.mkGitStatus [] [git.mkFileStatus "a" "M " ""]
                                            [git.mkFileStatus "b" "??" ""] [] [] [])
              ++ git.bucket b (git.mkGitStatus [] [git.mkFileStatus "c" "A " ""]
                                               [git.mkFileStatus "d" "??" ""] [] [] []).
Proof.
  apply (parseLines_app ["M  a"; "?? b"] ["A  c"; "?? d"]); reflexivity.
Defined.

(** ** Package git: display and branches *)
Section GitDisplay.
Import git git_io.

(** X4. [DisplayStatus] never lists a deleted or a renamed file: two
    reports with the same staged, modified, untracked and conflicted
    buckets are displayed alike, whatever their deleted and renamed buckets
    hold, provided both or neither have such entries (they only decide
    whether "Working tree clean" is printed). *)
Theorem DisplayStatus_hides_deleted_renamed
        (st st' : GitStatus) (useColors : bool) (w : World) :
  Staged st' = Staged st → Modified st' = Modified st →
  Untracked st' = Untracked st → Conflicted st' = Conflicted st →
  (Deleted st' = [] ∧ Renamed st' = [] ↔ Deleted st = [] ∧ Renamed st = []) →
  DisplayStatus st' useColors w = DisplayStatus st useColors w.
Proof.
  intros Hs Hm Hu Hc Hdr. unfold DisplayStatus. cbv zeta. rewrite Hs, Hm, Hu, Hc.
  assert (Hclean :
    (length (Staged st) + length (Modified st) + length (Untracked st)
     + length (Deleted st') + length (Renamed st') + length (Conflicted st) = 0)
    ↔ (length (Staged st) + length (Modified st) + length (Untracked st)
       + length (Deleted st) + length (Renamed st) + length (Conflicted st) = 0)).
  { destruct (Deleted st'), (Renamed st'), (Deleted st), (Renamed st);
      simpl in *; try lia; destruct Hdr as [H1 H2];
      try (by destruct H1); try (by destruct H2). }
  destruct (decide (_ + length (Deleted st') + _ + _ = 0)) as [H0|H0];
    destruct (decide (_ + length (Deleted st) + _ + _ = 0)) as [H1|H1];
    try done; by (apply Hclean in H0 || apply Hclean in H1).
Qed.

Lemma localBranchesOf_spec (cur : string) (lines : list string) :
  Name <$> localBranchesOf cur lines = filter (λ line, line ≠ "") lines ∧
  Forall (λ b, Name b ≠ "" ∧ Remote b = false ∧ (Current b = true ↔ Name b = cur))
         (localBranchesOf cur lines).
Proof.
  induction lines as [|line rest [IHn IH]]; [by split; [|constructor]|].
  cbn [localBranchesOf]. rewrite filter_cons.
  destruct (decide (line = "")) as [Hline|Hline].
  - by rewrite decide_False by (by intros H).
  - rewrite decide_True by done. split; [by rewrite fmap_cons, IHn|].
    constructor; [|done].
    simpl. split; [done|]. split; [done|]. apply bool_decide_eq_true.
Qed.

Lemma remoteBranchesOf_spec (lines : list string) :
  Name <$> remoteBranchesOf lines
  = filter (λ line, line ≠ "" ∧ Contains line "HEAD" = false) lines ∧
  Forall (λ b, Name b ≠ "" ∧ Remote b = true ∧ Current b = false
               ∧ Contains (Name b) "HEAD" = false)
         (remoteBranchesOf lines).
Proof.
  induction lines as [|line rest [IHn IH]]; [by split; [|constructor]|].
  cbn [remoteBranchesOf]. rewrite filter_cons.
  destruct (decide (line = "")) as [Hline|Hline].
  { by rewrite decide_False by (by intros [H _]). }
  destruct (Contains line "HEAD") eqn:Hh.
  { by rewrite decide_False by (intros [_ H]; congruence). }
  rewrite decide_True by done. split; [by rewrite fmap_cons, IHn|].
  by constructor.
Qed.

(** X5. When [GetBranches] succeeds it has run three [git branch] commands
    and nothing else, all three succeeded, and it returns the local
    branches first, then the remote ones. The names of the local branches
    are the non-empty lines of the trimmed output of the first command, in
    order, and a local branch is marked current exactly when its name is
    the trimmed output of [git branch --show-current]. The names of the
    remote branches are the non-empty lines of the trimmed output of the
    third command that do not contain [HEAD], in order; a remote branch is
    never marked current. *)
Theorem GetBranches_result (w w' : World) (branches : list Branch) :
  let listing := ["git"; "branch"; "--format=%(refname:short)"] in
  let asking := ["git"; "branch"; "--show-current"] in
  let remote := ["git"; "branch"; "-r"; "--format=%(refname:short)"] in
  GetBranches w = (Next (Ok branches), w') →
  w' = emitAll [Exec listing; Exec asking; Exec remote] w ∧
  ∃ localOutput currentOutput remoteOutput locals remotes,
    process w (trace w) listing = Ok localOutput ∧
    process w (trace w ++ [Exec listing]) asking = Ok currentOutput ∧
    process w (trace w ++ [Exec listing; Exec asking]) remote = Ok remoteOutput ∧
    branches = locals ++ remotes ∧
    Name <$> locals
    = filter (λ line, line ≠ "") (Split (TrimSpace localOutput) LF) ∧
    Forall (λ b, Name b ≠ "" ∧ Remote b = false
                 ∧ (Current b = true ↔ Name b = TrimSpace currentOutput)) locals ∧
    Name <$> remotes
    = filter (λ line, line ≠ "" ∧ Contains line "HEAD" = false)
             (Split (TrimSpace remoteOutput) LF) ∧
    Forall (λ b, Name b ≠ "" ∧ Remote b = true ∧ Current b = false
                 ∧ Contains (Name b) "HEAD" = false) remotes.
Proof.
  cbv zeta.
  unfold GetBranches, mbind, Cmd_bind, bind, Output, ret. cbn [fst snd].
  destruct (process w (trace w) _) as [localOutput|] eqn:H1; [|done].
  destruct (process (emit _ w) _ _) as [currentOutput|] eqn:H2; [|done].
  destruct (process (emit _ (emit _ w)) _ _) as [remoteOutput|] eqn:H3; [|done].
  cbn [process trace emit] in H2, H3. rewrite <- app_assoc in H3.
  intros [= <- <-]. split; [by gather|].
  exists localOutput, currentOutput, remoteOutput.
  eexists _, _. split; [done|]. split; [done|]. split; [done|]. split; [done|].
  destruct (localBranchesOf_spec (TrimSpace currentOutput)
              (Split (TrimSpace localOutput) LF)) as [Hn Hl].
  destruct (remoteBranchesOf_spec (Split (TrimSpace remoteOutput) LF)) as [Hrn Hr].
  done.
Qed.

End GitDisplay.

Lemma DisplayStatus_hides_deleted_renamed_witness :
  let gone := git.mkGitStatus [] [] [] [git.mkFileStatus "old.txt" "D " ""] [] [] in
  let moved := git.mkGitStatus [] [] [] []
                 [git.mkFileStatus "a -> b" "R " ""; git.mkFileStatus "c -> d" "R " ""] [] in
  git_io.DisplayStatus gone true (Sample.world false true [])
  = git_io.DisplayStatus moved true (Sample.world false true []) ∧
  trace (git_io.DisplayStatus gone true (Sample.world false true [])).2
  = [Say Green "=== Git Status ==="; Exec ["git"; "branch"; "--show-current"];
     Say Cyan "On branch: "; Out nl].
Proof.
  split; [|reflexivity].
  apply DisplayStatus_hides_deleted_renamed; try reflexivity.
  split; intros [H1 H2]; discriminate.
Defined.

Lemma GetBranches_result_witness :
  ∃ localOutput currentOutput remoteOutput locals remotes,
    Demo.answer ["git"; "branch"; "--format=%(refname:short)"] = Ok localOutput ∧
    Demo.answer ["git"; "branch"; "--show-current"] = Ok currentOutput ∧
    Demo.answer ["git"; "branch"; "-r"; "--format=%(refname:short)"]
    = Ok remoteOutput ∧
    [git_io.mkBranch "main" true false; git_io.mkBranch "feature" false false;
     git_io.mkBranch "origin/main" false true] = locals ++ remotes ∧
    git_io.Name <$> locals
    = filter (λ line, line ≠ "") (Split (TrimSpace localOutput) LF) ∧
    Forall (λ b, git_io.Name b ≠ "" ∧ git_io.Remote b = false
                 ∧ (git_io.Current b = true
                    ↔ git_io.Name b = TrimSpace currentOutput)) locals ∧
    git_io.Name <$> remotes
    = filter (λ line, line ≠ "" ∧ Contains line "HEAD" = false)
             (Split (TrimSpace remoteOutput) LF) ∧
    Forall (λ b, git_io.Name b ≠ "" ∧ git_io.Remote b = true
                 ∧ git_io.Current b = false
                 ∧ Contains (git_io.Name b) "HEAD" = false) remotes.
Proof.
  apply (GetBranches_result (Demo.world false [])
           (emitAll [Exec ["git"; "branch"; "--format=%(refname:short)"];
                     Exec ["git"; "branch"; "--show-current"];
                     Exec ["git"; "branch"; "-r"; "--format=%(refname:short)"]]
                    (Demo.world false []))).
  reflexivity.
Defined.

(** ** Package config *)
Section ConfigFiles.

Lemma SaveConfig_cases (doc : Config) (w : World) :
  (∀ path, saves w doc path →
           SaveConfig doc w = (Next None, emit (WriteFile path doc) w)) ∧
  ((∃ path, saves w doc path) ∨
   ∃ e, SaveConfig doc w = (Next (Some e), w)).
Proof.
  unfold saves, savePath, SaveConfig, mbind, Cmd_bind, bind, ask, ret. cbn [fst snd].
  destruct (marshal w doc) as [e|].
  { split; [by intros ? [? _]|]. right. by eexists. }
  destruct (decide (configFileUsed w = "")) as [Hused|Hused]; cbn [fst snd].
  - destruct (homeDir w) as [home|e]; cbn [fst snd].
    + destruct (writeFile w (HomeFile home)) as [e2|] eqn:Hw; cbn [fst snd].
      * split; [intros ? (_ & [= <-] & ?); congruence|]. right. by eexists.
      * split; [by intros ? (_ & [= <-] & _)|]. left. by eexists.
    + split; [by intros ? (_ & ? & _)|]. right. by eexists.
  - destruct (writeFile w (UsedFile _)) as [e|] eqn:Hw; cbn [fst snd].
    + split; [intros ? (_ & [= <-] & ?); congruence|]. right. by eexists.
    + split; [by intros ? (_ & [= <-] & _)|]. left. by eexists.
Qed.

Lemma SaveConfig_saves (doc : Config) (w : World) (path : ConfigPath) :
  saves w doc path → SaveConfig doc w = (Next None, emit (WriteFile path doc) w).
Proof. apply SaveConfig_cases. Qed.

(** X6. [SaveConfig] writes the document it is given, once, to the file
    viper uses or, when viper has none, to [.opsbrew.yaml] in the home
    directory; when marshalling, finding the home directory or writing
    fails it returns an error and has written nothing. *)
Theorem SaveConfig_outcome (doc : Config) (w : World) :
  (∀ path, saves w doc path →
           SaveConfig doc w = (Next None, emit (WriteFile path doc) w)) ∧
  ((∃ path, saves w doc path) ∨
   ∃ e, SaveConfig doc w = (Next (Some e), w)).
Proof. apply SaveConfig_cases. Qed.

(** X7. In a directory that has a file [.opsbrew.yaml], loading the
    configuration points viper at that file, so a save that follows the
    load and succeeds writes [.opsbrew.yaml] of the directory, not the
    user's global file; this holds even when reading the file failed. *)
Theorem GetRepoConfig_then_SaveConfig
        (w w1 w2 : World) (s : Step (Result Config)) (doc : Config) :
  repoFile w = true →
  GetRepoConfig w = (s, w1) →
  SaveConfig doc w1 = (Next None, w2) →
  w1 = setConfigFile ".opsbrew.yaml" w ∧
  w2 = emit (WriteFile (UsedFile ".opsbrew.yaml") doc) w1.
Proof.
  intros Hrepo Hload Hsave.
  assert (w1 = setConfigFile ".opsbrew.yaml" w) as ->.
  { revert Hload. unfold GetRepoConfig, LoadConfig, mbind, Cmd_bind, bind, ask, ret.
    cbn [fst snd]. rewrite Hrepo. cbn [fst snd].
    destruct (readInConfig (setConfigFile ".opsbrew.yaml" w));
      by intros [= _ <-]. }
  split; [done|].
  destruct (SaveConfig_cases doc (setConfigFile ".opsbrew.yaml" w)) as [Hok Hcases].
  destruct Hcases as [[path Hpath]|[e He]]; [|congruence].
  rewrite (Hok path Hpath) in Hsave. injection Hsave as <-.
  destruct Hpath as (_ & Hp & _). unfold savePath in Hp. simpl in Hp.
  by injection Hp as <-.
Qed.

End ConfigFiles.

Lemma SaveConfig_outcome_witness :
  SaveConfig Sample.cfg (Sample.world false true [])
  = (Next None,
     emit (WriteFile (UsedFile "/home/u/.opsbrew.yaml") Sample.cfg)
          (Sample.world false true [])).
Proof.
  apply (SaveConfig_outcome Sample.cfg (Sample.world false true [])).
  repeat split.
Defined.

Lemma GetRepoConfig_then_SaveConfig_witness :
  emit (WriteFile (UsedFile ".opsbrew.yaml") Sample.cfg)
       (setConfigFile ".opsbrew.yaml" (Demo.world false []))
  = emit (WriteFile (UsedFile ".opsbrew.yaml") Sample.cfg)
         (setConfigFile ".opsbrew.yaml" (Demo.world false [])).
Proof.
  apply (GetRepoConfig_then_SaveConfig (Demo.world false [])
           (setConfigFile ".opsbrew.yaml" (Demo.world false []))
           (emit (WriteFile (UsedFile ".opsbrew.yaml") Sample.cfg)
                 (setConfigFile ".opsbrew.yaml" (Demo.world false [])))
           (Next (Ok Sample.cfg)) Sample.cfg); reflexivity.
Defined.

(** ** The recipe commands *)
Section RecipeCommands.

Variable unicodeLower : string → string.

Ltac worlds :=
  unfold setStdin, emitAll, emit;
  cbn [dryRun confirm repoFile readInConfig unmarshal configFileUsed homeDir
       marshal writeFile stdin process fuzzyFind trace];
  rewrite <- ?app_assoc; reflexivity.

Lemma readLines_words (ls words : list string) (tail left : list (Result string))
      (e : string) (acc : list string) (w : World) :
  Forall2 (λ line word, fmt.scanLine line = fmt.Word word) ls words →
  scanHead tail = (Err e, left) →
  cmd.readLines ((Ok <$> ls) ++ tail) acc w
  = (Return (Error e),
     setStdin left
       (emitAll (replicate (S (length ls)) (Out "> ")
                 ++ [Say Red ("Error reading input: " +:+ e)]) w)).
Proof.
  intros Hwords Htail. revert acc w.
  induction Hwords as [|line word ls words Hline Hwords IH]; intros acc w.
  - cbn [fmap list_fmap app]. destruct tail as [|[line|e'] rest].
    + injection Htail as <- <-. cbn [cmd.readLines].
      do 3 (erewrite bind_next; [|reflexivity]). unfold leave. f_equal. worlds.
    + cbn [scanHead] in Htail. cbn [cmd.readLines].
      destruct (fmt.scanLine line) as [s|e' unread]; [done|].
      injection Htail as <- <-.
      do 3 (erewrite bind_next; [|reflexivity]). unfold leave. f_equal. worlds.
    + injection Htail as <- <-. cbn [cmd.readLines].
      do 3 (erewrite bind_next; [|reflexivity]). unfold leave. f_equal. worlds.
  - cbn [fmap list_fmap app cmd.readLines]. rewrite Hline.
    do 2 (erewrite bind_next; [|reflexivity]).
    rewrite decide_False by (by eapply scanLine_word).
    change (list_fmap string (Result string) Ok ls) with (Ok <$> ls).
    rewrite IH. f_equal. worlds.
Qed.

(** X8. The prompt loop of save and edit reads lines of one word until the
    first read that fails, and that is its only way out: [fmt.Scanln]
    never stores an empty word, so the empty line that should end the loop
    is the read error "unexpected newline" like any other. The loop leaves
    the handler with the error of that read, after one prompt per line read
    and the red line; the words entered are dropped and the lines after the
    failing one stay unread. *)
Theorem readCommands_until_error
        (pending : list (Result string)) (ls words : list string)
        (tail left : list (Result string)) (e : string) (acc : list string)
        (w : World) :
  (∃ e' w', cmd.readCommands pending acc w = (Return (Error e'), w')) ∧
  (lines pending = (Ok <$> ls) ++ tail →
   Forall2 (λ line word, fmt.scanLine line = fmt.Word word) ls words →
   scanHead tail = (Err e, left) →
   cmd.readCommands pending acc w
   = (Return (Error e),
      setStdin left
        (emitAll (replicate (S (length ls)) (Out "> ")
                  ++ [Say Red ("Error reading input: " +:+ e)]) w))).
Proof.
  split.
  - destruct (readLines_leaves (lines pending) acc w) as [_ Hs].
    unfold cmd.readCommands.
    destruct (cmd.readLines (lines pending) acc w) as [[commands|[|e'|]] w'];
      try done. by exists e', w'.
  - intros Hlines Hwords Htail. unfold cmd.readCommands. rewrite Hlines.
    by eapply readLines_words.
Qed.

(** X9. When every command of the recipe gets through the loop (it is
    blank, or its process exits with status zero) the handler returns [nil]
    after the line "Recipe '...' completed successfully"; the processes
    started are the non-blank commands, split into fields, in stored
    order. *)
Theorem brewRunCmd_completes
        (w w1 w2 w3 : World) (cfg : Config) (name : string) (more : list string)
        (recipe : Recipe) :
  GetRepoConfig w = (Next (Ok cfg), w1) →
  GoMap.get (Recipes (Brew cfg)) name = Some recipe →
  dryRun w = false →
  cmd.confirmOrLeave unicodeLower cfg
    ("Run recipe '" +:+ name +:+ "'? (y/N): ") w1 = (Next (), w2) →
  let total := length (Commands recipe) in
  cmd.execCommands total 0 (Commands recipe) (emitAll (cmd.header name recipe) w2)
    = (Next (), w3) →
  let es := cmd.header name recipe ++ execEvents total 0 (Commands recipe)
            ++ [Say Green ("Recipe '" +:+ name +:+ "' completed successfully")] in
  run (cmd.brewRunCmd unicodeLower (name :: more)) w = (Nil, emitAll es w2) ∧
  spawned es = filter (λ argv, argv ≠ []) (Fields <$> Commands recipe).
Proof.
  intros Hload Hget Hdry Hconf total Hexec es.
  destruct (frame_dryRun _ _ _ Hload) as (Hd & _).
  split.
  - unfold run, cmd.brewRunCmd.
    rewrite (bind_next _ _ _ _ _ (loadConfig_ok _ _ _ Hload)), Hget.
    erewrite bind_next; [|reflexivity]. rewrite Hd, Hdry.
    rewrite (bind_next _ _ _ _ _ Hconf), runRecipe_header.
    fold total. rewrite (bind_next _ _ _ _ _ Hexec).
    erewrite bind_next; [|reflexivity]. unfold leave.
    apply execCommands_ok in Hexec as ->. unfold es. by gather.
  - unfold es. rewrite !spawned_app, spawned_header, spawned_execEvents.
    cbn. by rewrite app_nil_r.
Qed.

(** X10. Run, delete and edit of a name that is not in the recipe table (or
    with no table at all) return the error "recipe '...' not found" right
    after loading the configuration: nothing is printed, asked, started or
    written. *)
Theorem recipe_not_found (w w1 : World) (cfg : Config) (name : string)
        (more : list string) :
  GetRepoConfig w = (Next (Ok cfg), w1) →
  GoMap.get (Recipes (Brew cfg)) name = None →
  let missing := Error ("recipe '" +:+ name +:+ "' not found") in
  run (cmd.brewRunCmd unicodeLower (name :: more)) w = (missing, w1) ∧
  run (cmd.brewDeleteCmd unicodeLower (name :: more)) w = (missing, w1) ∧
  run (cmd.brewEditCmd (name :: more)) w = (missing, w1) ∧
  trace w1 = trace w ∧ stdin w1 = stdin w.
Proof.
  intros Hload Hget missing.
  destruct (frame_dryRun _ _ _ Hload) as (_ & _ & Hs & Ht & _).
  repeat split; try done;
    unfold run, cmd.brewRunCmd, cmd.brewDeleteCmd, cmd.brewEditCmd;
    by rewrite (bind_next _ _ _ _ _ (loadConfig_ok _ _ _ Hload)), Hget.
Qed.

Lemma sameExcept_del (name : string) (cfg : Config) :
  sameExcept name cfg (withRecipes cfg (GoMap.del (Recipes (Brew cfg)) name)).
Proof.
  repeat split. intros other Hne. simpl.
  destruct (Recipes (Brew cfg)) as [table|]; [|done]. simpl.
  by rewrite lookup_delete_ne.
Qed.

Lemma brewDeleteCmd_saved
      (w w1 w2 : World) (cfg : Config) (name : string) (more : list string)
      (recipe : Recipe) (path : ConfigPath) :
  GetRepoConfig w = (Next (Ok cfg), w1) →
  GoMap.get (Recipes (Brew cfg)) name = Some recipe →
  dryRun w = false →
  cmd.confirmOrLeave unicodeLower cfg
    ("Delete recipe '" +:+ name +:+ "'? (y/N): ") w1 = (Next (), w2) →
  saves w2 (withRecipes cfg (GoMap.del (Recipes (Brew cfg)) name)) path →
  run (cmd.brewDeleteCmd unicodeLower (name :: more)) w
  = (Nil, emitAll [WriteFile path (withRecipes cfg (GoMap.del (Recipes (Brew cfg)) name));
                   Say Green ("Recipe '" +:+ name +:+ "' deleted successfully")] w2).
Proof.
  intros Hload Hget Hdry Hconf Hsaves.
  destruct (frame_dryRun _ _ _ Hload) as (Hd & _).
  unfold run, cmd.brewDeleteCmd.
  rewrite (bind_next _ _ _ _ _ (loadConfig_ok _ _ _ Hload)), Hget.
  erewrite bind_next; [|reflexivity]. rewrite Hd, Hdry.
  rewrite (bind_next _ _ _ _ _ Hconf).
  rewrite (bind_next _ _ _ _ _ (SaveConfig_saves _ _ _ Hsaves)).
  erewrite bind_next; [|reflexivity]. unfold leave. by gather.
Qed.

(** X11. A delete that is not a dry run, whose confirmation passed and
    whose save succeeds returns [nil] after writing one document: the
    loaded configuration without the recipe [name], every other recipe and
    section as loaded. In a dry run nothing is written. *)
Theorem brewDeleteCmd_removes
        (w w1 w2 : World) (cfg : Config) (name : string) (more : list string)
        (recipe : Recipe) (path : ConfigPath) :
  GetRepoConfig w = (Next (Ok cfg), w1) →
  GoMap.get (Recipes (Brew cfg)) name = Some recipe →
  let doc := withRecipes cfg (GoMap.del (Recipes (Brew cfg)) name) in
  (dryRun w = true →
   run (cmd.brewDeleteCmd unicodeLower (name :: more)) w
   = (Nil, emit (Say Yellow ("Would delete recipe: " +:+ name)) w1)) ∧
  (dryRun w = false →
   cmd.confirmOrLeave unicodeLower cfg
     ("Delete recipe '" +:+ name +:+ "'? (y/N): ") w1 = (Next (), w2) →
   saves w2 doc path →
   run (cmd.brewDeleteCmd unicodeLower (name :: more)) w
   = (Nil, emitAll [WriteFile path doc;
                    Say Green ("Recipe '" +:+ name +:+ "' deleted successfully")] w2) ∧
   GoMap.get (Recipes (Brew doc)) name = None ∧
   sameExcept name cfg doc).
Proof.
  intros Hload Hget doc.
  destruct (frame_dryRun _ _ _ Hload) as (Hd & _).
  split.
  - intros Hdry. unfold run, cmd.brewDeleteCmd.
    rewrite (bind_next _ _ _ _ _ (loadConfig_ok _ _ _ Hload)), Hget.
    erewrite bind_next; [|reflexivity]. rewrite Hd, Hdry.
    by erewrite bind_next.
  - intros Hdry Hconf Hsaves. split; [|split].
    + unfold run, cmd.brewDeleteCmd.
      rewrite (bind_next _ _ _ _ _ (loadConfig_ok _ _ _ Hload)), Hget.
      erewrite bind_next; [|reflexivity]. rewrite Hd, Hdry.
      rewrite (bind_next _ _ _ _ _ Hconf).
      fold doc. rewrite (bind_next _ _ _ _ _ (SaveConfig_saves _ _ _ Hsaves)).
      erewrite bind_next; [|reflexivity]. unfold leave. by gather.
    + unfold doc. simpl. destruct (Recipes (Brew cfg)); [|done]. simpl.
      apply lookup_delete_eq.
    + apply sameExcept_del.
Qed.

(** C10. A delete that goes through writes back the whole [Config] the
    load gave, and a load leaves at its zero value every field whose yaml
    key is not its Go name up to case: [default_branch], [auto_fetch],
    [default_context], [default_namespace], [context_aliases],
    [namespace_aliases] and [dry_run]. So the document written has an empty
    default branch, auto-fetch off, an empty kubernetes section and
    [dry_run] off, whatever the file held: the other sections are written
    back unchanged only to a file in which these settings were empty
    already. *)
Theorem brewDeleteCmd_rewrites_sections
        (w w1 w2 : World) (cfg : Config) (name : string) (more : list string)
        (recipe : Recipe) (path : ConfigPath) :
  GetRepoConfig w = (Next (Ok cfg), w1) →
  unmarshalled cfg →
  GoMap.get (Recipes (Brew cfg)) name = Some recipe →
  dryRun w = false →
  cmd.confirmOrLeave unicodeLower cfg
    ("Delete recipe '" +:+ name +:+ "'? (y/N): ") w1 = (Next (), w2) →
  let doc := withRecipes cfg (GoMap.del (Recipes (Brew cfg)) name) in
  saves w2 doc path →
  run (cmd.brewDeleteCmd unicodeLower (name :: more)) w
  = (Nil, emitAll [WriteFile path doc;
                   Say Green ("Recipe '" +:+ name +:+ "' deleted successfully")] w2) ∧
  DefaultBranch (Git doc) = "" ∧ AutoFetch (Git doc) = false ∧
  Kubernetes doc = mkKubernetes "" "" None None ∧
  DryRun (UI doc) = false ∧
  ∀ file : Config,
    sameExcept name file doc →
    DefaultBranch (Git file) = "" ∧ AutoFetch (Git file) = false ∧
    Kubernetes file = mkKubernetes "" "" None None ∧
    DryRun (UI file) = false.
Proof.
  intros Hload Hcfg Hget Hdry Hconf doc Hsaves.
  destruct Hcfg as (Hbranch & _ & Hfetch & Hctx & Hns & Hca & Hna & _ & _ & _ & _
                    & _ & Hdryrun).
  assert (DefaultBranch (Git doc) = "") as Hb by (by apply Hbranch).
  assert (AutoFetch (Git doc) = false) as Hf by (by apply Hfetch).
  assert (Kubernetes doc = mkKubernetes "" "" None None) as Hk.
  { unfold doc. cbn [Kubernetes withRecipes].
    destruct (Kubernetes cfg) as [c n ca na]. cbn in Hctx, Hns, Hca, Hna.
    by rewrite Hctx, Hns, Hca, Hna. }
  assert (DryRun (UI doc) = false) as Hu by (by apply Hdryrun).
  split; [by eapply brewDeleteCmd_saved|].
  split; [done|]. split; [done|]. split; [done|]. split; [done|].
  intros file (HG & HK & _ & HU & _).
  rewrite <- HG, <- HK, <- HU. done.
Qed.

Lemma showCommands_eq (commands : list string) (i : nat) (w : World) :
  cmd.showCommands i commands w
  = (Next (),
     emitAll (imap (λ j command,
                      Out ("  " +:+ itoa (i + j + 1) +:+ ". " +:+ command +:+ nl))
                   commands) w).
Proof.
  revert i w. induction commands as [|c rest IH]; intros i w.
  - simpl. by rewrite emitAll_nil.
  - cbn [cmd.showCommands]. erewrite bind_next; [|reflexivity].
    rewrite IH, emitAll_emit. do 2 f_equal.
    rewrite imap_cons, Nat.add_0_r. f_equal.
    apply imap_ext. intros j x _. unfold compose.
    by replace (i + S j) with (S i + j) by lia.
Qed.

(** X12. [brew edit] never saves either. Its last step before the save
    is the prompt loop, which only ends with a read error: whatever is
    typed the handler returns an error, and it has written no document and
    started no process. The bare Enter at the prompt "New description
    (press Enter to keep current)" does not keep the description: with a
    stored recipe, it ends the handler with the error "unexpected newline"
    right after that prompt. *)
Theorem brewEditCmd_never_saves
        (args : list string) (w w1 : World) (cfg : Config) (name : string)
        (more : list string) (recipe : Recipe) (rest : list (Result string)) :
  (∃ e es, (run (cmd.brewEditCmd args) w).1 = Error e ∧
           trace (run (cmd.brewEditCmd args) w).2 = trace w ++ es ∧
           written es = [] ∧ spawned es = []) ∧
  (GetRepoConfig w = (Next (Ok cfg), w1) →
   GoMap.get (Recipes (Brew cfg)) name = Some recipe →
   stdin w = Ok "" :: rest →
   run (cmd.brewEditCmd (name :: more)) w
   = (Error "unexpected newline",
      setStdin (lines rest)
        (emitAll
           ([Out ("Current recipe '" +:+ name +:+ "':" +:+ nl);
             Out ("Description: " +:+ Description recipe +:+ nl);
             Out ("Tags: " +:+ Join (Tags recipe) ", " +:+ nl);
             Out ("Commands:" +:+ nl)]
            ++ imap (λ j command,
                       Out ("  " +:+ itoa (0 + j + 1) +:+ ". " +:+ command +:+ nl))
                    (Commands recipe)
            ++ [Out nl;
                Out "New description (press Enter to keep current): ";
                Say Red "Error reading input: unexpected newline"]) w1))).
Proof.
  split; [apply printing_run, printing_brewEditCmd|].
  intros Hload Hget Hin.
  destruct (frame_dryRun _ _ _ Hload) as (_ & _ & Hs & _ & _).
  rewrite <- Hs in Hin.
  unfold run, cmd.brewEditCmd.
  rewrite (bind_next _ _ _ _ _ (loadConfig_ok _ _ _ Hload)), Hget.
  do 4 (erewrite bind_next; [|reflexivity]).
  erewrite bind_next; [|apply showCommands_eq].
  erewrite bind_next; [|reflexivity].
  erewrite bind_return; [reflexivity|].
  unfold cmd.prompt. erewrite bind_next; [|reflexivity].
  erewrite bind_next;
    [|apply (Scanln_eq _ (Err "unexpected newline") (lines rest));
      cbn [stdin emit emitAll]; rewrite Hin; apply nextAnswer_enter].
  cbv beta iota. erewrite bind_next; [|reflexivity]. unfold leave. f_equal.
  change (emit ?e (setStdin ?l ?x)) with (setStdin l (emit e x)). f_equal.
  gather. f_equal.
Qed.

End RecipeCommands.

Lemma readCommands_until_error_witness :
  cmd.readCommands [Ok "git"; Ok "make"; Ok ""; Ok "later"] []
                   (Sample.world false true [])
  = (Return (Error "unexpected newline"),
     setStdin [Ok "later"]
              (emitAll [Out "> "; Out "> "; Out "> ";
                        Say Red "Error reading input: unexpected newline"]
                       (Sample.world false true []))).
Proof.
  apply (readCommands_until_error [Ok "git"; Ok "make"; Ok ""; Ok "later"]
           ["git"; "make"] ["git"; "make"] [Ok ""; Ok "later"] [Ok "later"]
           "unexpected newline" [] (Sample.world false true [])).
  - reflexivity.
  - repeat constructor.
  - reflexivity.
Defined.

Lemma brewRunCmd_completes_witness :
  (run (cmd.brewRunCmd id ["z"])
       (mkWorld false true false None
          (Ok (withRecipes Sample.cfg
                 (Some {[ "z" := mkRecipe "" ["echo a"; "  "; "echo b c"] [] ]})))
          "" (Ok "/home/u") (λ _, None) (λ _, None) []
          (λ _ _, Ok "") (λ _, Err "abort") [])).1 = Nil ∧
  filter (λ argv, argv ≠ []) (Fields <$> ["echo a"; "  "; "echo b c"])
  = [["echo"; "a"]; ["echo"; "b"; "c"]].
Proof.
  pose (cfg := withRecipes Sample.cfg
                 (Some {[ "z" := mkRecipe "" ["echo a"; "  "; "echo b c"] [] ]})).
  pose (w := mkWorld false true false None (Ok cfg) "" (Ok "/home/u")
                     (λ _, None) (λ _, None) [] (λ _ _, Ok "") (λ _, Err "abort") []).
  pose (w3 := emitAll [Say Green "Running recipe: z"; Out nl;
                       Say Cyan "Executing command 1/3: echo a"; Exec ["echo"; "a"];
                       Out nl; Say Cyan "Executing command 2/3:   ";
                       Say Cyan "Executing command 3/3: echo b c";
                       Exec ["echo"; "b"; "c"]; Out nl] w).
  destruct (brewRunCmd_completes id w w w w3 cfg "z" []
              (mkRecipe "" ["echo a"; "  "; "echo b c"] []))
    as [Hrun Hsp]; try reflexivity.
  split; [|reflexivity].
  fold cfg. fold w. by rewrite Hrun.
Defined.

Lemma recipe_not_found_witness :
  run (cmd.brewDeleteCmd id ["missing"]) (Sample.world false true [])
  = (Error "recipe 'missing' not found", Sample.world false true []).
Proof.
  apply (recipe_not_found id (Sample.world false true [])
           (Sample.world false true []) Sample.cfg "missing" []); reflexivity.
Defined.

Lemma brewDeleteCmd_removes_witness :
  run (cmd.brewDeleteCmd id ["x"]) (Sample.world false true [])
  = (Nil,
     emitAll [WriteFile (UsedFile "/home/u/.opsbrew.yaml")
                (withRecipes Sample.cfg
                   (GoMap.del (Recipes (Brew Sample.cfg)) "x"));
              Say Green "Recipe 'x' deleted successfully"]
             (Sample.world false true [])).
Proof.
  apply (brewDeleteCmd_removes id (Sample.world false true [])
           (Sample.world false true []) (Sample.world false true [])
           Sample.cfg "x" [] Sample.recipe (UsedFile "/home/u/.opsbrew.yaml"));
    try reflexivity.
  repeat split.
Defined.

Lemma brewEditCmd_never_saves_witness :
  run (cmd.brewEditCmd ["y"]) (Sample.world false true [Ok ""; Ok "later"])
  = (Error "unexpected newline",
     setStdin [Ok "later"]
       (emitAll [Out ("Current recipe 'y':" +:+ nl); Out ("Description: " +:+ nl);
                 Out ("Tags: " +:+ nl); Out ("Commands:" +:+ nl);
                 Out ("  1. false" +:+ nl); Out nl;
                 Out "New description (press Enter to keep current): ";
                 Say Red "Error reading input: unexpected newline"]
                (Sample.world false true [Ok ""; Ok "later"]))).
Proof.
  etransitivity;
    [apply (brewEditCmd_never_saves ["y"]
              (Sample.world false true [Ok ""; Ok "later"])
              (Sample.world false true [Ok ""; Ok "later"])
              Sample.cfg "y" [] (mkRecipe "" ["false"] []) [Ok "later"]);
     reflexivity
    |reflexivity].
Defined.

Lemma brewDeleteCmd_rewrites_sections_witness :
  run (cmd.brewDeleteCmd id ["y"]) Demo.reloaded
  = (Nil,
     emitAll [WriteFile (UsedFile "/home/u/.opsbrew.yaml")
                (withRecipes Demo.loaded (GoMap.del (Recipes (Brew Demo.loaded)) "y"));
              Say Green "Recipe 'y' deleted successfully"]
             Demo.reloaded) ∧
  DefaultBranch (Git Sample.cfg) = "main" ∧
  ¬ sameExcept "y" Sample.cfg
      (withRecipes Demo.loaded (GoMap.del (Recipes (Brew Demo.loaded)) "y")).
Proof.
  assert (unmarshalled Demo.loaded) as Hloaded.
  { repeat split; intros H; first [reflexivity | discriminate H]. }
  assert (saves Demo.reloaded
            (withRecipes Demo.loaded (GoMap.del (Recipes (Brew Demo.loaded)) "y"))
            (UsedFile "/home/u/.opsbrew.yaml")) as Hsaves.
  { repeat split. }
  destruct (brewDeleteCmd_rewrites_sections id Demo.reloaded Demo.reloaded
              Demo.reloaded Demo.loaded "y" [] (mkRecipe "" ["false"] [])
              (UsedFile "/home/u/.opsbrew.yaml")
              eq_refl Hloaded eq_refl eq_refl eq_refl Hsaves)
    as (Hrun & _ & _ & _ & _ & Hfile).
  split; [exact Hrun|]. split; [reflexivity|].
  intros Hsame. apply Hfile in Hsame as (Hbranch & _). discriminate Hbranch.
Defined.


(** ** The processes of a recipe *)
Section RecipeProcesses.

Lemma fieldsFrom_nonempty (s : string) (skip : nat) (cur : string) :
  Forall (λ field, field ≠ "") (fieldsFrom skip s cur).
Proof.
  revert skip cur. induction s as [|c s IH]; intros skip cur.
  - cbn [fieldsFrom]. destruct (decide (cur = "")); by repeat constructor.
  - cbn [fieldsFrom]. destruct skip as [|k]; [|apply IH].
    destruct (spaceWidth (String c s)) as [|k]; [apply IH|].
    apply Forall_app. split; [|apply IH].
    destruct (decide (cur = "")); by repeat constructor.
Qed.

(** X13. The loop of [brewRunCmd] never starts a process without a name:
    whatever happens, every process it starts is the list of fields of one
    of the commands, that list is not empty and the name of the binary, its
    first field, is not the empty string. *)
Theorem execCommands_argv (total : nat) (commands : list string) (i : nat)
        (w w' : World) (s : Step unit) :
  cmd.execCommands total i commands w = (s, w') →
  ∃ es, w' = emitAll es w ∧
        Forall (λ argv, ∃ command bin args,
                  command ∈ commands ∧ argv = Fields command ∧
                  argv = bin :: args ∧ bin ≠ "")
               (spawned es).
Proof.
  revert i w w'. induction commands as [|c rest IH]; intros i w w'.
  - intros [= <- <-]. exists []. by rewrite emitAll_nil.
  - rewrite execCommands_cons.
    assert (Hrest : ∀ w1 pre,
              cmd.execCommands total (S i) rest (emitAll pre w) = (s, w1) →
              Forall (λ argv, ∃ command bin args,
                        command ∈ c :: rest ∧ argv = Fields command ∧
                        argv = bin :: args ∧ bin ≠ "") (spawned pre) →
              ∃ es, w1 = emitAll es w ∧
                    Forall (λ argv, ∃ command bin args,
                              command ∈ c :: rest ∧ argv = Fields command ∧
                              argv = bin :: args ∧ bin ≠ "") (spawned es)).
    { intros w1 pre (es & -> & Hes)%IH Hpre. exists (pre ++ es).
      split; [by rewrite emitAll_app|]. rewrite spawned_app. apply Forall_app.
      split; [done|]. eapply Forall_impl; [exact Hes|].
      intros argv (command & bin & args & Hin & ? & ? & ?).
      exists command, bin, args. split; [by right|done]. }
    pose proof (fieldsFrom_nonempty c 0 "") as Hf. fold (Fields c) in Hf.
    destruct (Fields c) as [|p ps] eqn:HF.
    { intros H. apply (Hrest _ _ H). constructor. }
    assert (Hargv : ∃ command bin args,
              command ∈ c :: rest ∧ p :: ps = Fields command ∧
              p :: ps = bin :: args ∧ bin ≠ "").
    { exists c, p, ps. split; [left|]. split; [done|]. split; [done|].
      by apply Forall_cons in Hf as [? _]. }
    cbv zeta. destruct (process w _ (p :: ps)).
    + intros H. apply (Hrest _ _ H). by repeat constructor.
    + intros [= <- <-]. eexists. split; [done|]. by repeat constructor.
Qed.

End RecipeProcesses.

Lemma execCommands_argv_witness :
  ∃ es, emitAll [Say Cyan "Executing command 1/2: echo a"; Exec ["echo"; "a"]; Out nl;
                 Say Cyan "Executing command 2/2:   "] (Sample.world false true [])
        = emitAll es (Sample.world false true []) ∧
        Forall (λ argv, ∃ command bin args,
                  command ∈ ["echo a"; "  "] ∧ argv = Fields command ∧
                  argv = bin :: args ∧ bin ≠ "")
               (spawned es).
Proof.
  apply (execCommands_argv 2 ["echo a"; "  "] 0 (Sample.world false true []) _ (Next ())).
  reflexivity.
Defined.

(** ** The kubectl and git handlers *)
Section ClusterHandlers.

Lemma Output_eq (argv : list string) (w : World) :
  Output argv w = (Next (process w (trace w) argv), emit (Exec argv) w).
Proof. reflexivity. Qed.

Lemma Run_eq (argv : list string) (w : World) :
  Run argv w
  = (Next (match process w (trace w) argv with Ok _ => None | Err e => Some e end),
     emit (Exec argv) w).
Proof. reflexivity. Qed.

Lemma Output_inv (argv : list string) (w w' : World) (r : Result string) :
  Output argv w = (Next r, w') → w' = emit (Exec argv) w.
Proof. by intros [= _ <-]. Qed.

Lemma Run_inv (argv : list string) (w w' : World) (r : option string) :
  Run argv w = (Next r, w') → w' = emit (Exec argv) w.
Proof. by intros [= _ <-]. Qed.

(** X14. [kctx] without an argument, not a dry run: when both queries
    succeed and the finder returns an index of the list, the handler
    switches to the context at that index, by its name as listed (the alias
    table is not consulted), and returns [nil]. It has started three
    processes and opened the finder once. *)
Theorem kctxCmd_interactive
        (w w1 w2 w3 w4 w5 : World) (cfg : Config) (output current : string)
        (idx : nat) (ctx : kubernetes.Context) :
  let listing := ["kubectl"; "config"; "get-contexts"; "--no-headers"; "-o"; "name"] in
  let asking := ["kubectl"; "config"; "current-context"] in
  let contexts := kubernetes.contextsOf (TrimSpace current)
                                        (Split (TrimSpace output) LF) in
  let labels := kubernetes.label <$> contexts in
  let switch := ["kubectl"; "config"; "use-context"; kubernetes.Name ctx] in
  GetRepoConfig w = (Next (Ok cfg), w1) →
  dryRun w = false →
  Output listing w1 = (Next (Ok output), w2) →
  Output asking w2 = (Next (Ok current), w3) →
  Find_ labels w3 = (Next (Ok idx), w4) →
  contexts !! idx = Some ctx →
  Run switch w4 = (Next None, w5) →
  run (cmd.kctxCmd []) w
  = (Nil, emit (Say Green ("Switched to context: " +:+ kubernetes.Name ctx)) w5) ∧
  w5 = emitAll [Exec listing; Exec asking; Find labels; Exec switch] w1.
Proof.
  intros listing asking contexts labels switch Hload Hdry Hl Ha Hf Hidx Hs.
  destruct (frame_dryRun _ _ _ Hload) as (Hd & _).
  assert (Hw5 : w5 = emitAll [Exec listing; Exec asking; Find labels; Exec switch] w1).
  { apply Run_inv in Hs as ->. injection Hf as _ <-.
    apply Output_inv in Ha as ->. apply Output_inv in Hl as ->. by gather. }
  split; [|done].
  unfold run, cmd.kctxCmd.
  rewrite (bind_next _ _ _ _ _ (loadConfig_ok _ _ _ Hload)).
  assert (Hres : cmd.resolveContext cfg [] w1 = (Next (kubernetes.Name ctx), w4)).
  { unfold cmd.resolveContext, kubernetes.GetContexts.
    erewrite bind_next; [|erewrite bind_next; [|exact Hl]];
      [|cbv beta iota; erewrite bind_next; [|exact Ha]; reflexivity].
    cbv beta iota. fold contexts.
    unfold kubernetes.SelectContext. fold labels.
    erewrite bind_next; [|erewrite bind_next; [|exact Hf]];
      [|cbv beta iota; rewrite Hidx; reflexivity].
    reflexivity. }
  rewrite (bind_next _ _ _ _ _ Hres).
  erewrite bind_next; [|reflexivity].
  assert (dryRun w4 = false) as ->.
  { injection Hf as _ <-. apply Output_inv in Ha as ->. apply Output_inv in Hl as ->.
    simpl. congruence. }
  fold switch. rewrite (bind_next _ _ _ _ _ Hs). cbv beta iota.
  by erewrite bind_next.
Qed.

(** X15. [kctx] without an argument gives up when the contexts cannot be
    listed or nothing is picked: it returns the error (the listing error
    comes out wrapped twice, "failed to get contexts: failed to get
    contexts: ...") and never starts [kubectl config use-context]. This is
    so in a dry run too: the contexts are listed before the flag is
    looked at. *)
Theorem kctxCmd_resolution_fails
        (w w1 w2 w3 w4 : World) (cfg : Config) (output current e : string) :
  let listing := ["kubectl"; "config"; "get-contexts"; "--no-headers"; "-o"; "name"] in
  let asking := ["kubectl"; "config"; "current-context"] in
  let labels := kubernetes.label
                <$> kubernetes.contextsOf (TrimSpace current)
                                          (Split (TrimSpace output) LF) in
  GetRepoConfig w = (Next (Ok cfg), w1) →
  (Output listing w1 = (Next (Err e), w2) →
   run (cmd.kctxCmd []) w
   = (Error ("failed to get contexts: failed to get contexts: " +:+ e),
      emit (Exec listing) w1)) ∧
  (Output listing w1 = (Next (Ok output), w2) →
   Output asking w2 = (Next (Ok current), w3) →
   Find_ labels w3 = (Next (Err e), w4) →
   run (cmd.kctxCmd []) w
   = (Error ("failed to select context: " +:+ e),
      emitAll [Exec listing; Exec asking; Find labels] w1)).
Proof.
  intros listing asking labels Hload.
  split.
  - intros Hl. unfold run, cmd.kctxCmd.
    rewrite (bind_next _ _ _ _ _ (loadConfig_ok _ _ _ Hload)).
    erewrite bind_return; [|unfold cmd.resolveContext, kubernetes.GetContexts;
      erewrite bind_next; [|erewrite bind_next; [|exact Hl]; reflexivity];
      reflexivity].
    by apply Output_inv in Hl as ->.
  - intros Hl Ha Hf. unfold run, cmd.kctxCmd.
    rewrite (bind_next _ _ _ _ _ (loadConfig_ok _ _ _ Hload)).
    erewrite bind_return; [|unfold cmd.resolveContext, kubernetes.GetContexts;
      erewrite bind_next; [|erewrite bind_next; [|exact Hl]];
        [|cbv beta iota; erewrite bind_next; [|exact Ha]; reflexivity];
      cbv beta iota; unfold kubernetes.SelectContext; fold labels;
      erewrite bind_next; [|erewrite bind_next; [|exact Hf]; reflexivity];
      reflexivity].
    injection Hf as _ <-. apply Output_inv in Ha as ->.
    apply Output_inv in Hl as ->. by gather.
Qed.

(** X16. [kns] with an explicit argument, not a dry run: the namespace is
    the alias table's value for the argument when it has one and the
    argument itself otherwise; the handler starts the one process that
    sets it, and returns [nil] after "Switched to namespace: ..." when it
    succeeds, the wrapped process error when it does not. *)
Theorem knsCmd_explicit (w w1 : World) (cfg : Config) (arg : string)
        (more : list string) :
  GetRepoConfig w = (Next (Ok cfg), w1) →
  dryRun w = false →
  let target := default arg (GoMap.get (NamespaceAliases (Kubernetes cfg)) arg) in
  let argv := ["kubectl"; "config"; "set-context"; "--current";
               "--namespace=" +:+ target] in
  run (cmd.knsCmd (arg :: more)) w
  = match process w1 (trace w1) argv with
    | Ok _ => (Nil, emitAll [Exec argv; Say Green ("Switched to namespace: " +:+ target)] w1)
    | Err e => (Error ("failed to switch namespace: " +:+ e), emit (Exec argv) w1)
    end.
Proof.
  intros Hload Hdry target argv.
  destruct (frame_dryRun _ _ _ Hload) as (Hd & _).
  unfold run, cmd.knsCmd.
  rewrite (bind_next _ _ _ _ _ (loadConfig_ok _ _ _ Hload)).
  erewrite (bind_next _ _ w1 w1 target);
    [|unfold target; by destruct (GoMap.get _ arg)].
  erewrite bind_next; [|reflexivity]. rewrite Hd, Hdry.
  fold argv. erewrite bind_next; [|apply Run_eq].
  destruct (process w1 (trace w1) argv); [|reflexivity].
  erewrite bind_next; [|reflexivity]. unfold leave. by gather.
Qed.

Lemma kubectlOrShow_spawns (argv : list string) (shown failure : string)
      (success : option string) (w : World) :
  ∃ es, (run (cmd.kubectlOrShow argv shown failure success) w).2 = emitAll es w ∧
        ((dryRun w = true ∧ spawned es = []) ∨
         (dryRun w = false ∧ spawned es = ["kubectl" :: argv])).
Proof.
  unfold run, cmd.kubectlOrShow. erewrite bind_next; [|reflexivity].
  destruct (dryRun w) eqn:Hdry.
  - erewrite bind_next; [|reflexivity]. eexists [_]. split; [reflexivity|by left].
  - erewrite bind_next; [|apply Run_eq].
    destruct (process w (trace w) ("kubectl" :: argv)).
    + destruct success.
      * erewrite bind_next; [|reflexivity]. eexists [_; _].
        split; [simpl; by gather|by right].
      * eexists [_]. split; [reflexivity|by right].
    + eexists [_]. split; [reflexivity|by right].
Qed.

(** X17. Whatever their arguments, namespace flag and the answers of the
    world, [khpa], [kscale], [ksvc] and [kingress] start at most one
    process, it is [kubectl], and in a dry run they start none. With
    arguments missing or an unknown action [khpa] and [kscale] return the
    error that says so and leave the world as it was, dry run or not:
    [khpa] without an action, with an action that is none of the five,
    [get] without a name, [set-min], [set-max] or [set-target] without a
    name and a value, and [kscale] with fewer than three arguments. *)
Theorem cluster_handlers_one_kubectl (namespace : string) (args : list string)
        (w : World) :
  (∀ h, h ∈ [cmd.khpaCmd namespace args; cmd.kscaleCmd namespace args;
             cmd.ksvcCmd; cmd.kingressCmd] →
        ∃ es, (run h w).2 = emitAll es w ∧
              (spawned es = [] ∨
               (dryRun w = false ∧ ∃ argv, spawned es = ["kubectl" :: argv]))) ∧
  run (cmd.khpaCmd namespace []) w
  = (Error "action is required (list, get, set-min, set-max, set-target)", w) ∧
  (∀ action rest,
     action ∉ ["list"; "get"; "set-min"; "set-max"; "set-target"] →
     run (cmd.khpaCmd namespace (action :: rest)) w
     = (Error ("unknown action: " +:+ action), w)) ∧
  run (cmd.khpaCmd namespace ["get"]) w = (Error "HPA name is required", w) ∧
  (∀ action rest,
     action ∈ ["set-min"; "set-max"; "set-target"] → length rest < 2 →
     run (cmd.khpaCmd namespace (action :: rest)) w
     = (Error "HPA name and value are required", w)) ∧
  (length args < 3 →
   run (cmd.kscaleCmd namespace args) w
   = (Error "resource type, name, and replicas are required", w)).
Proof.
  assert (Hk : ∀ argv shown failure success,
    ∃ es, (run (cmd.kubectlOrShow argv shown failure success) w).2 = emitAll es w ∧
          (spawned es = [] ∨
           (dryRun w = false ∧ ∃ argv, spawned es = ["kubectl" :: argv]))).
  { intros argv shown failure success.
    destruct (kubectlOrShow_spawns argv shown failure success w)
      as (es & Hes & [[_ H]|[Hd H]]); exists es; (split; [done|]);
      [by left|right; eauto]. }
  assert (Hleave : ∀ e,
    ∃ es, (run (leave e) w).2 = emitAll es w ∧
          (spawned es = [] ∨
           (dryRun w = false ∧ ∃ argv, spawned es = ["kubectl" :: argv]))).
  { intros e. exists []. split; [by rewrite emitAll_nil|by left]. }
  split; [|split; [done|split; [|split; [done|split]]]].
  - intros h Hh. repeat (apply elem_of_cons in Hh as [->|Hh]);
      [| | apply Hk | apply Hk | by apply elem_of_nil in Hh].
    + unfold cmd.khpaCmd. destruct args as [|action rest]; [apply Hleave|].
      repeat (destruct (decide _); [try apply Hk|]); try apply Hleave;
        destruct rest as [|name [|value rest]]; apply Hk || apply Hleave.
    + unfold cmd.kscaleCmd.
      destruct args as [|a [|b [|c rest]]]; apply Hk || apply Hleave.
  - intros action rest Hnot. unfold cmd.khpaCmd.
    rewrite !elem_of_cons, elem_of_nil in Hnot.
    repeat (destruct (decide _) as [->|?]; [by destruct Hnot; auto 10|]). done.
  - intros action rest Hin Hlen. unfold cmd.khpaCmd.
    rewrite !elem_of_cons, elem_of_nil in Hin.
    destruct Hin as [->|[->|[->|[]]]];
      by destruct rest as [|name [|value rest]]; [..|simpl in Hlen; lia].
  - intros Hlen. unfold cmd.kscaleCmd.
    by destruct args as [|a [|b [|c rest]]]; [..|simpl in Hlen; lia].
Qed.

(** X18. [git checkout] of an explicit branch, not a dry run, starts two
    processes: [git show-ref --verify --quiet refs/heads/<branch>], and
    then [git checkout <branch>] when that succeeded, [git checkout -b
    <branch> origin/<branch>] (after a warning line) when it failed for
    whatever reason. It returns [nil] after "Switched to branch: ..." when
    the checkout succeeds and the wrapped error when it does not. *)
Theorem gitCheckoutCmd_explicit (w w1 : World) (cfg : Config) (branch : string)
        (more : list string) :
  GetRepoConfig w = (Next (Ok cfg), w1) →
  dryRun w = false →
  let probe := ["git"; "show-ref"; "--verify"; "--quiet"; "refs/heads/" +:+ branch] in
  let found := process w1 (trace w1) probe in
  let before :=
    Exec probe
    :: match found with
       | Ok _ => []
       | Err _ => [Say Yellow ("Branch " +:+ branch
                               +:+ " not found locally, checking out from remote...")]
       end in
  let checkout :=
    match found with
    | Ok _ => ["git"; "checkout"; branch]
    | Err _ => ["git"; "checkout"; "-b"; branch; "origin/" +:+ branch]
    end in
  run (cmd.gitCheckoutCmd (branch :: more)) w
  = match process w1 (trace w1 ++ before) checkout with
    | Ok _ => (Nil, emitAll (before ++ [Exec checkout;
                                        Say Green ("Switched to branch: " +:+ branch)]) w1)
    | Err e => (Error ("failed to checkout branch " +:+ branch +:+ ": " +:+ e),
                emitAll (before ++ [Exec checkout]) w1)
    end.
Proof.
  intros Hload Hdry probe found before checkout.
  destruct (frame_dryRun _ _ _ Hload) as (Hd & _).
  unfold run, cmd.gitCheckoutCmd.
  rewrite (bind_next _ _ _ _ _ (loadConfig_ok _ _ _ Hload)).
  erewrite bind_next; [|reflexivity].
  erewrite bind_next; [|reflexivity]. rewrite Hd, Hdry.
  unfold before, checkout, found.
  destruct (process w1 (trace w1) probe) as [o|e] eqn:Hprobe.
  - erewrite bind_next; [|apply Output_eq]. fold probe. rewrite Hprobe.
    cbv beta iota.
    destruct (process w1 (trace w1 ++ [Exec probe]) ["git"; "checkout"; branch])
      as [o2|e2] eqn:Hco.
    + erewrite bind_next.
      2:{ erewrite bind_next; [|apply Run_eq].
          cbn [process trace emit]. rewrite Hco. reflexivity. }
      erewrite bind_next; [|reflexivity]. unfold leave. by gather.
    + erewrite bind_return.
      2:{ erewrite bind_next; [|apply Run_eq].
          cbn [process trace emit]. rewrite Hco. reflexivity. }
      by gather.
  - erewrite bind_next; [|apply Output_eq]. fold probe. rewrite Hprobe.
    cbv beta iota.
    set (warn := Say Yellow _).
    destruct (process w1 (trace w1 ++ [Exec probe; warn])
                      ["git"; "checkout"; "-b"; branch; "origin/" +:+ branch])
      as [o2|e2] eqn:Hco.
    + erewrite bind_next.
      2:{ erewrite bind_next; [|reflexivity].
          erewrite bind_next; [|apply Run_eq].
          cbn [process trace emit]. rewrite <- app_assoc. cbn [app].
          fold warn. rewrite Hco. reflexivity. }
      erewrite bind_next; [|reflexivity]. unfold leave. by gather.
    + erewrite bind_return.
      2:{ erewrite bind_next; [|reflexivity].
          erewrite bind_next; [|apply Run_eq].
          cbn [process trace emit]. rewrite <- app_assoc. cbn [app].
          fold warn. rewrite Hco. reflexivity. }
      by gather.
Qed.

End ClusterHandlers.

Lemma kctxCmd_interactive_witness :
  run (cmd.kctxCmd []) (Demo.cluster false)
  = (Nil,
     emit (Say Green "Switched to context: prod")
          (emitAll [Exec ["kubectl"; "config"; "get-contexts"; "--no-headers"; "-o"; "name"];
                    Exec ["kubectl"; "config"; "current-context"];
                    Find ["    prod"; "  * dev"];
                    Exec ["kubectl"; "config"; "use-context"; "prod"]]
                   (Demo.cluster false))).
Proof.
  pose (w := Demo.cluster false).
  pose (a1 := ["kubectl"; "config"; "get-contexts"; "--no-headers"; "-o"; "name"]).
  pose (a2 := ["kubectl"; "config"; "current-context"]).
  pose (a3 := ["kubectl"; "config"; "use-context"; "prod"]).
  apply (kctxCmd_interactive w w (emitAll [Exec a1] w) (emitAll [Exec a1; Exec a2] w)
           (emitAll [Exec a1; Exec a2; Find ["    prod"; "  * dev"]] w)
           (emitAll [Exec a1; Exec a2; Find ["    prod"; "  * dev"]; Exec a3] w)
           Demo.cfg ("prod" +:+ nl +:+ "dev" +:+ nl) ("dev" +:+ nl) 0
           (kubernetes.mkContext "prod" false)); reflexivity.
Defined.

Lemma kctxCmd_resolution_fails_witness :
  run (cmd.kctxCmd []) (Demo.world true [])
  = (Error "failed to get contexts: failed to get contexts: exit status 1",
     emit (Exec ["kubectl"; "config"; "get-contexts"; "--no-headers"; "-o"; "name"])
          (setConfigFile ".opsbrew.yaml" (Demo.world true []))).
Proof.
  pose (w1 := setConfigFile ".opsbrew.yaml" (Demo.world true [])).
  apply (kctxCmd_resolution_fails (Demo.world true []) w1
           (emit (Exec ["kubectl"; "config"; "get-contexts"; "--no-headers"; "-o"; "name"]) w1)
           w1 w1 Sample.cfg "" "" "exit status 1"); reflexivity.
Defined.

Lemma knsCmd_explicit_witness :
  run (cmd.knsCmd ["app"]) (Demo.cluster false)
  = (Nil,
     emitAll [Exec ["kubectl"; "config"; "set-context"; "--current";
                    "--namespace=application"];
              Say Green "Switched to namespace: application"]
             (Demo.cluster false)).
Proof.
  etransitivity.
  - apply (knsCmd_explicit (Demo.cluster false) (Demo.cluster false) Demo.cfg "app" []);
      reflexivity.
  - reflexivity.
Defined.

Lemma cluster_handlers_one_kubectl_witness :
  ∃ es, (run (cmd.khpaCmd "prod" ["set-min"; "web"; "2"]) (Sample.world false true [])).2
        = emitAll es (Sample.world false true []) ∧
        (spawned es = [] ∨
         (dryRun (Sample.world false true []) = false
          ∧ ∃ argv, spawned es = ["kubectl" :: argv])).
Proof.
  apply (cluster_handlers_one_kubectl "prod" ["set-min"; "web"; "2"]
           (Sample.world false true [])).
  left.
Defined.

Lemma gitCheckoutCmd_explicit_witness :
  run (cmd.gitCheckoutCmd ["feature"]) (Demo.cluster false)
  = (Nil,
     emitAll [Exec ["git"; "show-ref"; "--verify"; "--quiet"; "refs/heads/feature"];
              Exec ["git"; "checkout"; "feature"];
              Say Green "Switched to branch: feature"] (Demo.cluster false)).
Proof.
  etransitivity.
  - apply (gitCheckoutCmd_explicit (Demo.cluster false) (Demo.cluster false)
             Demo.cfg "feature" []); reflexivity.
  - reflexivity.
Defined.

(** ** The flag --dry-run *)
Section DryRun.

Variable unicodeLower : string → string.
Variable w0 : World.
Hypothesis dry0 : dryRun w0 = true.

Local Abbreviation quiet := (preserves (printsOnly w0)).

Lemma printsOnly_refl (w : World) : printsOnly w w.
Proof. repeat split. exists []. by rewrite app_nil_r. Qed.

Lemma quiet_ret {A} (a : A) : quiet (ret a) (λ _, True).
Proof. by intros w Hw. Qed.

Lemma quiet_leave {A} (e : Exit) (V : A → Prop) : quiet (leave e) V.
Proof. intros w Hw. split; [done|]. by intros ? [=]. Qed.

Lemma quiet_bind {A B} (c : Cmd A) (k : A → Cmd B) (V : A → Prop) (V' : B → Prop) :
  quiet c V → (∀ a, V a → quiet (k a) V') → quiet (c ≫= k) V'.
Proof.
  intros Hc Hk w Hw. destruct (Hc w Hw) as [Hw1 Hv].
  unfold mbind, Cmd_bind, bind. destruct (c w) as [[a|e] w1]; simpl in *.
  - by apply Hk; [apply Hv|].
  - split; [done|]. by intros ? [=].
Qed.

Lemma quiet_print (e : Event) :
  isPrint e = true → quiet (λ w, (Next (), emit e w)) (λ _, True).
Proof.
  intros He w (Hd & Hp & es & Htr & Hes). split; [|done].
  split; [done|]. split; [done|]. exists (es ++ [e]).
  split; [simpl; by rewrite Htr, app_assoc|].
  rewrite forallb_app, Hes. simpl. by rewrite He.
Qed.

Lemma quiet_out (text : string) : quiet (out text) (λ _, True).
Proof. by apply quiet_print. Qed.

Lemma quiet_say (c : Color) (line : string) : quiet (say c line) (λ _, True).
Proof. by apply quiet_print. Qed.

Lemma quiet_ask {A} (f : World → A) : quiet (ask f) (λ _, True).
Proof. by intros w Hw. Qed.

Lemma quiet_ask_dry : quiet (ask dryRun) (λ dry, dry = true).
Proof.
  intros w Hw. split; [done|]. intros ? [= <-]. destruct Hw as [-> _]. done.
Qed.

Lemma quiet_loadConfig : quiet cmd.loadConfig (λ _, True).
Proof.
  intros w Hw. unfold cmd.loadConfig, mbind, Cmd_bind, bind.
  destruct (GetRepoConfig w) as [s w1] eqn:Hload.
  destruct (GetRepoConfig_frame _ _ _ Hload) as [Hw1 (r & -> & _)].
  assert (printsOnly w0 w1) by (by destruct Hw1 as [-> | ->]).
  by destruct r.
Qed.

Lemma quiet_listCommands (commands : list string) (i : nat) :
  quiet (cmd.listCommands i commands) (λ _, True).
Proof.
  revert i. induction commands as [|c rest IH]; intros i;
    cbn [cmd.listCommands]; [apply quiet_ret|].
  eapply quiet_bind; [apply quiet_say|]. intros _ _. apply IH.
Qed.

Ltac qprim :=
  first [ apply quiet_leave | apply quiet_ret | apply quiet_out | apply quiet_say
        | apply quiet_loadConfig | apply quiet_listCommands ].

Ltac qstep :=
  first [ qprim
        | eapply quiet_bind; [apply quiet_ask_dry|]; intros ? ->; cbv beta iota
        | eapply quiet_bind; [first [qprim | apply quiet_ask]|]; intros ? ?
        | eapply quiet_bind;
          [match goal with
           | |- preserves _ (match ?x with _ => _ end) _ => destruct x; apply quiet_ret
           end|]; intros ? ?
        | match goal with
          | |- preserves _ (match ?x with _ => _ end) _ => destruct x
          end ].

Lemma quiet_run (c : Cmd unit) :
  quiet c (λ _, True) → printsOnly w0 (run c w0).2.
Proof.
  intros Hc. destruct (Hc w0 (printsOnly_refl w0)) as [Hw _].
  unfold run. by destruct (c w0) as [[[]|e] w1].
Qed.

Lemma quiet_handlers (notExist : string → bool) (GOOS namespace arg : string)
      (args : list string) (follow : bool) (tail : Z) (h : Cmd unit) :
  h ∈ [cmd.brewRunCmd unicodeLower args; cmd.brewDeleteCmd unicodeLower args;
       cmd.kctxCmd (arg :: args); cmd.knsCmd (arg :: args);
       cmd.klogsCmd follow tail (arg :: args); cmd.kexecCmd (arg :: args);
       cmd.ksvcCmd; cmd.kingressCmd; cmd.kscaleCmd namespace args;
       cmd.khpaCmd namespace args;
       cmd.gitStatusCmd; cmd.gitCheckoutCmd (arg :: args);
       cmd.gitFetchCmd; cmd.gitPullCmd; cmd.gitPushCmd;
       filecmd.fileOpenCmd notExist GOOS args; filecmd.fileFindCmd args;
       filecmd.fileGrepCmd notExist args; filecmd.fileBackupCmd notExist args;
       filecmd.fileDiffCmd notExist args] →
  quiet h (λ _, True).
Proof.
  intros Hh. repeat (apply elem_of_cons in Hh as [->|Hh]);
    [..|by apply elem_of_nil in Hh];
    unfold cmd.brewRunCmd, cmd.brewDeleteCmd, cmd.kctxCmd, cmd.knsCmd, cmd.klogsCmd,
      cmd.kexecCmd, cmd.ksvcCmd, cmd.kingressCmd, cmd.kscaleCmd, cmd.khpaCmd,
      cmd.runHpaList, cmd.runHpaGet, cmd.runHpaSetMin, cmd.runHpaSetMax,
      cmd.runHpaSetTarget, cmd.patchHpa, cmd.kubectlOrShow,
      cmd.gitStatusCmd, cmd.gitCheckoutCmd, cmd.gitFetchCmd, cmd.gitPullCmd,
      cmd.gitPushCmd, cmd.gitOrShow, cmd.resolveContext, cmd.resolvePod,
      filecmd.fileOpenCmd, filecmd.fileFindCmd, filecmd.fileGrepCmd,
      filecmd.fileBackupCmd, filecmd.fileDiffCmd;
    repeat qstep.
Qed.

(** X19. With [--dry-run] set these handlers only print: they start no
    process, open no finder and write no file, whatever their arguments
    and whatever the world would answer. For [kctx], [kns], [klogs],
    [kexec] and [git checkout] this is for a call with an explicit first
    argument. *)
Theorem dry_run_only_prints (notExist : string → bool) (GOOS namespace arg : string)
        (args : list string) (follow : bool) (tail : Z) (h : Cmd unit) :
  h ∈ [cmd.brewRunCmd unicodeLower args; cmd.brewDeleteCmd unicodeLower args;
       cmd.kctxCmd (arg :: args); cmd.knsCmd (arg :: args);
       cmd.klogsCmd follow tail (arg :: args); cmd.kexecCmd (arg :: args);
       cmd.ksvcCmd; cmd.kingressCmd; cmd.kscaleCmd namespace args;
       cmd.khpaCmd namespace args;
       cmd.gitStatusCmd; cmd.gitCheckoutCmd (arg :: args);
       cmd.gitFetchCmd; cmd.gitPullCmd; cmd.gitPushCmd;
       filecmd.fileOpenCmd notExist GOOS args; filecmd.fileFindCmd args;
       filecmd.fileGrepCmd notExist args; filecmd.fileBackupCmd notExist args;
       filecmd.fileDiffCmd notExist args] →
  ∃ es, trace (run h w0).2 = trace w0 ++ es ∧ forallb isPrint es = true.
Proof.
  intros Hh. eapply quiet_handlers in Hh. by apply quiet_run in Hh as (_ & _ & H).
Qed.

End DryRun.

Lemma dry_run_only_prints_witness :
  ∃ es, trace (run (filecmd.fileGrepCmd (λ _, true) ["TODO"; "missing.txt"])
                   (Demo.world true [])).2
        = trace (Demo.world true []) ++ es ∧ forallb isPrint es = true.
Proof.
  apply (dry_run_only_prints id (Demo.world true []) eq_refl (λ _, true)
           "linux" "" "a" ["TODO"; "missing.txt"] false 0%Z).
  do 17 (apply elem_of_cons; right). apply elem_of_cons. by left.
Defined.

(** ** Handlers that do not look at --dry-run *)
Section Blind.

Lemma blind_ret {A} (a : A) : blind (ret a).
Proof. by intros b w. Qed.

Lemma blind_leave {A} (e : Exit) : blind (leave (A:=A) e).
Proof. by intros b w. Qed.

Lemma blind_bind {A B} (c : Cmd A) (k : A → Cmd B) :
  blind c → (∀ a, blind (k a)) → blind (c ≫= k).
Proof.
  intros Hc Hk b w. unfold mbind, Cmd_bind, bind. rewrite Hc.
  destruct (c w) as [[a|e] w1]; simpl; [apply Hk|done].
Qed.

Lemma blind_out (text : string) : blind (out text).
Proof. by intros b w. Qed.

Lemma blind_say (c : Color) (line : string) : blind (say c line).
Proof. by intros b w. Qed.

Lemma blind_setStdin (rest : list (Result string)) :
  blind (λ w, (Next (), setStdin rest w)).
Proof. by intros b w. Qed.

Lemma blind_Scanln : blind Scanln.
Proof. intros b w. unfold Scanln. simpl. by destruct (nextAnswer (stdin w)). Qed.

Lemma blind_stdin : blind (ask stdin).
Proof. by intros b w. Qed.

Lemma blind_GetRepoConfig : blind GetRepoConfig.
Proof.
  intros b w. unfold GetRepoConfig, LoadConfig, mbind, Cmd_bind, bind, ask, mret, Cmd_ret, ret.
  simpl. destruct (repoFile w); simpl; [|done]. by destruct (readInConfig w).
Qed.

Lemma blind_loadConfig : blind cmd.loadConfig.
Proof.
  apply blind_bind; [apply blind_GetRepoConfig|]. intros [cfg|e];
    [apply blind_ret|apply blind_leave].
Qed.

Lemma blind_ask {A} (f : World → A) :
  (∀ b w, f (setDry b w) = f w) → blind (ask f).
Proof. intros Hf b w. unfold ask. simpl. by rewrite Hf. Qed.

Lemma blind_SaveConfig (cfg : Config) : blind (SaveConfig cfg).
Proof.
  unfold SaveConfig.
  apply blind_bind; [by apply blind_ask|]. intros [e|]; [apply blind_ret|].
  apply blind_bind; [by apply blind_ask|]. intros used.
  apply blind_bind.
  { destruct (decide (used = "")); [|apply blind_ret].
    apply blind_bind; [by apply blind_ask|]. intros h. apply blind_ret. }
  intros [path|e]; [|apply blind_ret].
  apply blind_bind; [by apply blind_ask|]. intros [e|]; [apply blind_ret|].
  apply blind_bind; [by intros b w|]. intros _. apply blind_ret.
Qed.

Lemma blind_readLines (pending : list (Result string)) (commands : list string) :
  blind (cmd.readLines pending commands).
Proof.
  revert commands. induction pending as [|[line|e] rest IH]; intros commands;
    cbn [cmd.readLines]; (apply blind_bind; [apply blind_out|]; intros _).
  - apply blind_bind; [apply blind_setStdin|]. intros _.
    apply blind_bind; [apply blind_say|]. intros _. apply blind_leave.
  - destruct (fmt.scanLine line) as [input|e unread];
      (apply blind_bind; [apply blind_setStdin|]; intros _).
    + destruct (decide (input = "")); [apply blind_ret|apply IH].
    + apply blind_bind; [apply blind_say|]. intros _. apply blind_leave.
  - apply blind_bind; [apply blind_setStdin|]. intros _.
    apply blind_bind; [apply blind_say|]. intros _. apply blind_leave.
Qed.

Lemma blind_readCommands (pending : list (Result string)) (commands : list string) :
  blind (cmd.readCommands pending commands).
Proof. apply blind_readLines. Qed.

Lemma blind_showCommands (commands : list string) (i : nat) :
  blind (cmd.showCommands i commands).
Proof.
  revert i. induction commands as [|c rest IH]; intros i; cbn [cmd.showCommands];
    [apply blind_ret|].
  apply blind_bind; [apply blind_out|]. intros _. apply IH.
Qed.

Lemma blind_prompt (question : string) : blind (cmd.prompt question).
Proof.
  apply blind_bind; [apply blind_out|]. intros _.
  apply blind_bind; [apply blind_Scanln|]. intros [answer|e]; [apply blind_ret|].
  apply blind_bind; [apply blind_say|]. intros _. apply blind_leave.
Qed.

Ltac bstep :=
  first [ apply blind_leave | apply blind_ret | apply blind_out | apply blind_say
        | apply blind_stdin | apply blind_loadConfig | apply blind_SaveConfig
        | apply blind_readCommands | apply blind_showCommands | apply blind_prompt
        | apply blind_bind; [|intros ?]
        | match goal with
          | |- blind (match ?x with _ => _ end) => destruct x
          end ].

Lemma blind_brewSaveCmd (description : string) (tags args : list string) :
  blind (cmd.brewSaveCmd description tags args).
Proof. unfold cmd.brewSaveCmd. repeat bstep. Qed.

Lemma blind_brewEditCmd (args : list string) : blind (cmd.brewEditCmd args).
Proof. unfold cmd.brewEditCmd. repeat bstep. Qed.

(** X20. [brew save] and [brew edit] never look at [--dry-run]: with the
    flag set or not they return the same, print the same and write the same
    configuration file. *)
Theorem brew_save_edit_ignore_dry_run
        (description : string) (tags args : list string) (h : Cmd unit)
        (b : bool) (w : World) :
  h ∈ [cmd.brewSaveCmd description tags args; cmd.brewEditCmd args] →
  run h (setDry b w) = ((run h w).1, setDry b (run h w).2).
Proof.
  intros Hh.
  assert (blind h) as Hb.
  { apply elem_of_cons in Hh as [->|Hh]; [apply blind_brewSaveCmd|].
    apply elem_of_cons in Hh as [->|Hh]; [apply blind_brewEditCmd|].
    by apply elem_of_nil in Hh. }
  unfold run. rewrite Hb. by destruct (h w) as [[[]|e] w1].
Qed.

End Blind.

Lemma brew_save_edit_ignore_dry_run_witness :
  run (cmd.brewSaveCmd "list" [] ["ls"]) (setDry true (Sample.world false true [Ok "ls"; Ok ""]))
  = ((run (cmd.brewSaveCmd "list" [] ["ls"]) (Sample.world false true [Ok "ls"; Ok ""])).1,
     setDry true
       (run (cmd.brewSaveCmd "list" [] ["ls"]) (Sample.world false true [Ok "ls"; Ok ""])).2).
Proof.
  apply (brew_save_edit_ignore_dry_run "list" [] ["ls"]). left.
Defined.

(** ** The file handlers *)
Section FileCommands.

Variable notExist : string → bool.

Lemma prefix_app (sub s : string) : String.prefix sub (sub +:+ s) = true.
Proof.
  induction sub as [|c sub IH]; [by destruct s|].
  change (String c sub +:+ s) with (String c (sub +:+ s)).
  cbn [String.prefix]. destruct (ascii_dec c c) as [_|Hc]; [exact IH|by destruct Hc].
Qed.

Lemma Contains_app (before sub after : string) :
  Contains (before +:+ sub +:+ after) sub = true.
Proof.
  induction before as [|c before IH].
  - change ("" +:+ sub +:+ after) with (sub +:+ after).
    destruct (sub +:+ after) eqn:Heq; cbn [Contains]; rewrite <- Heq, prefix_app; done.
  - change (String c before +:+ sub +:+ after)
      with (String c (before +:+ sub +:+ after)).
    change (Contains (String c (before +:+ sub +:+ after)) sub)
      with (String.prefix sub (String c (before +:+ sub +:+ after))
            || Contains (before +:+ sub +:+ after) sub).
    rewrite IH. apply orb_true_r.
Qed.

Lemma splitOn_nonempty (sep : ascii) (s cur : string) : splitOn sep s cur ≠ [].
Proof.
  revert cur. induction s as [|c s IH]; intros cur; cbn [splitOn]; [done|].
  destruct (Ascii.eqb c sep); [done|apply IH].
Qed.

Lemma splitOn_blank (sep : ascii) (s cur : string) :
  splitOn sep s cur = [""] → s = "" ∧ cur = "".
Proof.
  revert cur. induction s as [|c s IH]; intros cur; cbn [splitOn].
  - by intros [= ->].
  - destruct (Ascii.eqb c sep).
    + intros [= _ Hrest]. by apply splitOn_nonempty in Hrest.
    + intros [_ Hcur]%IH. by destruct cur.
Qed.

Lemma no_files (s : string) :
  let files := Split s LF in
  bool_decide (length files = 0)
  || (bool_decide (length files = 1) && bool_decide (files !! 0 = Some ""))
  = bool_decide (s = "").
Proof.
  cbv zeta. unfold Split. destruct (decide (s = "")) as [->|Hs].
  - reflexivity.
  - rewrite (bool_decide_eq_false_2 (s = "")) by done.
    pose proof (splitOn_nonempty LF s "") as Hne.
    pose proof (splitOn_blank LF s "") as Hblank.
    destruct (splitOn LF s "") as [|file [|file' rest]]; [done| |done].
    simpl. apply bool_decide_eq_false_2. intros [= ->]. by destruct Hblank.
Qed.

Lemma printFound_eq (files : list string) (w : World) :
  filecmd.printFound files w
  = (Next (),
     emitAll ((λ file, Out ("  " +:+ file +:+ nl)) <$> filter (λ file, file ≠ "") files) w).
Proof.
  revert w. induction files as [|file rest IH]; intros w;
    [by rewrite filter_nil, fmap_nil, emitAll_nil|].
  cbn [filecmd.printFound]. rewrite filter_cons.
  destruct (decide (file = "")) as [->|Hfile].
  - rewrite decide_False by (by intros H). erewrite bind_next; [|reflexivity]. apply IH.
  - rewrite decide_True by done. erewrite bind_next; [|reflexivity].
    cbv beta. rewrite IH. rewrite fmap_cons. by rewrite emitAll_emit.
Qed.

(** X21. [file find], not a dry run, when [find] succeeds: one process,
    [find dir -name pattern -type f] with [dir] the second argument or
    [.]; with nothing but white space in its output the handler prints
    that no files were found; otherwise it prints the number of lines of
    the trimmed output, blank ones counted, and then the lines that are
    not empty, in order. It returns [nil]. *)
Theorem fileFindCmd_result
        (w : World) (pattern output : string) (more : list string) :
  let dir := default "." (head more) in
  let argv := ["find"; dir; "-name"; pattern; "-type"; "f"] in
  let files := Split (TrimSpace output) LF in
  dryRun w = false →
  process w (trace w) argv = Ok output →
  run (filecmd.fileFindCmd (pattern :: more)) w
  = (Nil,
     emitAll
       (Exec argv ::
        (if decide (TrimSpace output = "")
         then [Say Yellow ("No files found matching pattern: " +:+ pattern)]
         else Say Green ("Found " +:+ itoa (length files) +:+ " files:")
              :: ((λ file, Out ("  " +:+ file +:+ nl))
                    <$> filter (λ file, file ≠ "") files))) w).
Proof.
  cbv zeta. intros Hdry Hfind. unfold run, filecmd.fileFindCmd.
  assert (match more with d :: _ => d | [] => "." end = default "." (head more)) as ->
    by (by destruct more).
  erewrite bind_next; [|reflexivity]. cbv beta. rewrite Hdry. cbv iota.
  erewrite bind_next; [|apply Output_eq]. cbv beta. rewrite Hfind. cbv iota zeta.
  rewrite (no_files (TrimSpace output)).
  destruct (decide (TrimSpace output = "")) as [Hnone|Hsome].
  - rewrite bool_decide_eq_true_2 by done.
    erewrite bind_next; [|reflexivity]. cbv beta. unfold leave. f_equal.
    apply (emit_emitAll _ [Exec _] w).
  - rewrite bool_decide_eq_false_2 by done.
    erewrite bind_next; [|reflexivity]. cbv beta.
    erewrite bind_next; [|apply printFound_eq]. cbv beta. unfold leave.
    f_equal. by rewrite !emitAll_emit.
Qed.

(** X22. [file grep] and [file diff] test the error of the process by
    [strings.Contains(err.Error(), "exit status 1")]: whenever the message
    holds that text, as exit status 1 does and exit status 10 to 19 and
    100 to 199 do too, [file grep] reports that there is no match and
    returns [nil], and [file diff] returns [nil] and prints nothing. *)
Theorem file_exit_status_1
        (w : World) (pattern file1 file2 before after : string)
        (more : list string) :
  let e := before +:+ "exit status 1" +:+ after in
  dryRun w = false →
  notExist file1 = false →
  notExist file2 = false →
  (process w (trace w) ["grep"; "-n"; pattern; file1] = Err e →
   run (filecmd.fileGrepCmd notExist (pattern :: file1 :: more)) w
   = (Nil, emitAll [Exec ["grep"; "-n"; pattern; file1];
                    Say Yellow ("No matches found for pattern: " +:+ pattern)] w)) ∧
  (process w (trace w) ["diff"; file1; file2] = Err e →
   run (filecmd.fileDiffCmd notExist (file1 :: file2 :: more)) w
   = (Nil, emit (Exec ["diff"; file1; file2]) w)).
Proof.
  cbv zeta. intros Hdry H1 H2. split; intros Hfail.
  - unfold run, filecmd.fileGrepCmd, filecmd.mustExist.
    erewrite bind_next; [|reflexivity]. cbv beta. rewrite Hdry, H1. cbv iota.
    erewrite bind_next; [|reflexivity]. cbv beta.
    erewrite bind_next; [|apply Run_eq]. cbv beta. rewrite Hfail. cbv iota.
    rewrite Contains_app.
    erewrite bind_next; [|reflexivity]. cbv beta. unfold leave. f_equal.
    apply (emit_emitAll _ [Exec _] w).
  - unfold run, filecmd.fileDiffCmd, filecmd.mustExist.
    erewrite bind_next; [|reflexivity]. cbv beta. rewrite Hdry, H1, H2. cbv iota.
    erewrite bind_next; [|reflexivity]. cbv beta.
    erewrite bind_next; [|reflexivity]. cbv beta.
    erewrite bind_next; [|apply Run_eq]. cbv beta. rewrite Hfail. cbv iota.
    rewrite Contains_app. reflexivity.
Qed.

(** X23. Not a dry run, the handlers that take a file check it first: for
    a path [os.Stat] reports missing they return the error naming that path
    and start no process; [file diff] checks its first file before its
    second. *)
Theorem file_handlers_missing_file
        (GOOS : string) (w : World) (path other : string) (more : list string) :
  dryRun w = false →
  notExist path = true →
  let missing := (Error ("file " +:+ path +:+ " does not exist"), w) in
  run (filecmd.fileOpenCmd notExist GOOS (path :: more)) w = missing ∧
  run (filecmd.fileGrepCmd notExist (other :: path :: more)) w = missing ∧
  run (filecmd.fileBackupCmd notExist (path :: more)) w = missing ∧
  run (filecmd.fileDiffCmd notExist (path :: other :: more)) w = missing ∧
  (notExist other = false →
   run (filecmd.fileDiffCmd notExist (other :: path :: more)) w = missing).
Proof.
  intros Hdry Hpath. cbv zeta.
  unfold run, filecmd.fileOpenCmd, filecmd.fileGrepCmd, filecmd.fileBackupCmd,
    filecmd.fileDiffCmd, filecmd.mustExist.
  repeat split; try intros Hother;
    (erewrite bind_next; [|reflexivity]); cbv beta; rewrite Hdry, Hpath; cbv iota;
    try reflexivity.
  rewrite Hother. erewrite bind_next; [|reflexivity]. reflexivity.
Qed.

End FileCommands.

Lemma fileFindCmd_result_witness :
  run (filecmd.fileFindCmd ["*.go"]) (Demo.world false [])
  = (Nil,
     emitAll [Exec ["find"; "."; "-name"; "*.go"; "-type"; "f"];
              Say Green "Found 2 files:";
              Out ("  ./a.go" +:+ nl); Out ("  ./b.go" +:+ nl)]
             (Demo.world false [])).
Proof.
  etransitivity;
    [apply (fileFindCmd_result (Demo.world false []) "*.go"
              ("./a.go" +:+ nl +:+ "./b.go" +:+ nl) []); reflexivity
    |reflexivity].
Defined.

Lemma file_exit_status_1_witness :
  run (filecmd.fileGrepCmd (λ _, false) ["TODO"; "main.go"]) (Demo.world false [])
  = (Nil, emitAll [Exec ["grep"; "-n"; "TODO"; "main.go"];
                   Say Yellow "No matches found for pattern: TODO"]
                  (Demo.world false [])).
Proof.
  apply (file_exit_status_1 (λ _, false) (Demo.world false [])
           "TODO" "main.go" "main.go" "" "27" []); reflexivity.
Defined.

Lemma file_handlers_missing_file_witness :
  run (filecmd.fileBackupCmd (λ _, true) ["gone.txt"]) (Demo.world false [])
  = (Error "file gone.txt does not exist", Demo.world false []).
Proof.
  apply (file_handlers_missing_file (λ _, true) "linux" (Demo.world false [])
           "gone.txt" "other.txt" []); reflexivity.
Defined.

(** ** Package kubernetes: what the finder can return *)
Section ClusterLists.
Import kubernetes.

Lemma podsOf_listed (lines : list string) (pod : Pod) :
  pod ∈ podsOf lines →
  ∃ line rest, line ∈ lines ∧
    Fields line = podName pod :: podReady pod :: podStatus pod
                  :: podRestarts pod :: podAge pod :: rest.
Proof.
  induction lines as [|line lines IH]; cbn [podsOf]; [by intros ?%elem_of_nil|].
  assert (pod ∈ podsOf lines →
          ∃ line' rest, line' ∈ line :: lines ∧
            Fields line' = podName pod :: podReady pod :: podStatus pod
                           :: podRestarts pod :: podAge pod :: rest) as Hrest.
  { intros (line' & rest & Hin & Hf)%IH. exists line', rest.
    split; [by apply list_elem_of_further|done]. }
  destruct (decide (line = "")); [done|].
  destruct (Fields line) as [|name [|ready [|status [|restarts [|age rest]]]]] eqn:Hf;
    try done.
  intros [->|Hin]%elem_of_cons; [|by apply Hrest].
  exists line, rest. split; [apply list_elem_of_here|done].
Qed.

Lemma namespacesOf_listed (cur : string) (lines : list string) (ns : Namespace) :
  ns ∈ namespacesOf cur lines →
  (nsCurrent ns = true ↔ nsName ns = cur) ∧
  ∃ line rest, line ∈ lines ∧ Fields line = nsName ns :: nsStatus ns :: rest.
Proof.
  induction lines as [|line lines IH]; cbn [namespacesOf]; [by intros ?%elem_of_nil|].
  assert (ns ∈ namespacesOf cur lines →
          (nsCurrent ns = true ↔ nsName ns = cur) ∧
          ∃ line' rest, line' ∈ line :: lines ∧
            Fields line' = nsName ns :: nsStatus ns :: rest) as Hrest.
  { intros (Hcur & line' & rest & Hin & Hf)%IH. split; [done|]. exists line', rest.
    split; [by apply list_elem_of_further|done]. }
  destruct (decide (line = "")); [done|].
  destruct (Fields line) as [|name [|status rest]] eqn:Hf; try done.
  intros [->|Hin]%elem_of_cons; [|by apply Hrest].
  split; [apply bool_decide_eq_true|].
  exists line, rest. split; [apply list_elem_of_here|done].
Qed.

(** X24. The pod [klogs] and [kexec] take from the finder is a pod
    [kubectl get pods] listed: when [resolvePod] goes on without an
    argument, the listing succeeded and the name it gives is the first
    column of one of its lines, a line of at least five columns. *)
Theorem resolvePod_listed (w w' : World) (pod : string) :
  let listing :=
    ["kubectl"; "get"; "pods"; "--no-headers"; "-o";
     "custom-columns=NAME:.metadata.name,READY:.status.containerStatuses[*].ready,STATUS:.status.phase,RESTARTS:.status.containerStatuses[*].restartCount,AGE:.metadata.creationTimestamp"] in
  cmd.resolvePod [] w = (Next pod, w') →
  ∃ output line rest,
    process w (trace w) listing = Ok output ∧
    line ∈ Split (TrimSpace output) LF ∧
    Fields line = pod :: rest ∧ 4 ≤ length rest.
Proof.
  cbv zeta. unfold cmd.resolvePod, GetPods, SelectPod, Find_, mbind, Cmd_bind, bind,
    Output, mret, Cmd_ret, ret, leave.
  cbn [fst snd]. destruct (process w (trace w) _) as [output|e]; [|done].
  destruct (fuzzyFind _ _) as [idx|e]; [|done].
  destruct (podsOf _ !! idx) as [p|] eqn:Hidx; [|done].
  intros [= <- _]. apply list_elem_of_lookup_2, podsOf_listed in Hidx
    as (line & rest & Hin & Hf).
  exists output, line, (podReady p :: podStatus p :: podRestarts p :: podAge p :: rest).
  repeat split; [done|done|simpl; lia].
Qed.

(** X25. The namespace the finder gives [kns] is a namespace [kubectl get
    namespaces] listed: when [GetNamespaces] succeeds and then
    [SelectNamespace] returns a name, that name is the first column of a
    line of the listing with at least two columns. *)
Theorem SelectNamespace_listed
        (w w1 w2 : World) (namespaces : list Namespace) (name : string) :
  let listing :=
    ["kubectl"; "get"; "namespaces"; "--no-headers"; "-o";
     "custom-columns=NAME:.metadata.name,STATUS:.status.phase"] in
  GetNamespaces w = (Next (Ok namespaces), w1) →
  SelectNamespace namespaces w1 = (Next (Ok name), w2) →
  ∃ output line status rest,
    process w (trace w) listing = Ok output ∧
    line ∈ Split (TrimSpace output) LF ∧
    Fields line = name :: status :: rest.
Proof.
  cbv zeta. unfold GetNamespaces, SelectNamespace, Find_, mbind, Cmd_bind, bind,
    Output, mret, Cmd_ret, ret, leave.
  cbn [fst snd]. destruct (process w (trace w) _) as [output|e]; [|done].
  destruct (process (emit _ w) _ _) as [current|e]; [|done].
  intros [= <- <-]. destruct (fuzzyFind _ _) as [idx|e]; [|done].
  destruct (namespacesOf _ _ !! idx) as [ns|] eqn:Hidx; [|done].
  intros [= <- _]. apply list_elem_of_lookup_2, namespacesOf_listed in Hidx
    as (_ & line & rest & Hin & Hf).
  by exists output, line, (nsStatus ns), rest.
Qed.

End ClusterLists.

Lemma resolvePod_listed_witness :
  ∃ output line rest,
    process Demo.pods (trace Demo.pods)
      ["kubectl"; "get"; "pods"; "--no-headers"; "-o";
       "custom-columns=NAME:.metadata.name,READY:.status.containerStatuses[*].ready,STATUS:.status.phase,RESTARTS:.status.containerStatuses[*].restartCount,AGE:.metadata.creationTimestamp"]
    = Ok output ∧
    line ∈ Split (TrimSpace output) LF ∧
    Fields line = "api-2" :: rest ∧ 4 ≤ length rest.
Proof.
  apply (resolvePod_listed Demo.pods (cmd.resolvePod [] Demo.pods).2 "api-2").
  reflexivity.
Defined.

Lemma SelectNamespace_listed_witness :
  ∃ output line status rest,
    process Demo.pods (trace Demo.pods)
      ["kubectl"; "get"; "namespaces"; "--no-headers"; "-o";
       "custom-columns=NAME:.metadata.name,STATUS:.status.phase"]
    = Ok output ∧
    line ∈ Split (TrimSpace output) LF ∧
    Fields line = "kube-system" :: status :: rest.
Proof.
  apply (SelectNamespace_listed Demo.pods
           (kubernetes.GetNamespaces Demo.pods).2
           (kubernetes.SelectNamespace
              [kubernetes.mkNamespace "default" true "Active";
               kubernetes.mkNamespace "kube-system" false "Active"]
              (kubernetes.GetNamespaces Demo.pods).2).2
           [kubernetes.mkNamespace "default" true "Active";
            kubernetes.mkNamespace "kube-system" false "Active"]
           "kube-system"); reflexivity.
Defined.

(** ** git status *)
Section GitStatusHandler.
Import git git_io.

Lemma goesOn_ret {A} (a : A) : goesOn (ret a) [].
Proof. intros w. exists a, []. by rewrite emitAll_nil. Qed.

Lemma goesOn_bind {A B} (c : Cmd A) (k : A → Cmd B) (ps1 ps2 : list (list string)) :
  goesOn c ps1 → (∀ a, goesOn (k a) ps2) → goesOn (c ≫= k) (ps1 ++ ps2).
Proof.
  intros Hc Hk w. destruct (Hc w) as (a & es1 & Hcw & Hs1).
  destruct (Hk a (emitAll es1 w)) as (b & es2 & Hkw & Hs2).
  exists b, (es1 ++ es2). split.
  - erewrite bind_next; [|exact Hcw]. by rewrite Hkw, emitAll_app.
  - by rewrite spawned_app, Hs1, Hs2.
Qed.

Lemma goesOn_print (e : Event) :
  isPrint e = true → goesOn (λ w, (Next (), emit e w)) [].
Proof. intros He w. exists (), [e]. split; [done|]. by destruct e. Qed.

Lemma goesOn_printLine (useColors : bool) (c : Color) (line : string) :
  goesOn (printLine useColors c line) [].
Proof. destruct useColors; by apply goesOn_print. Qed.

Lemma goesOn_printPaths (useColors : bool) (c : Color) (files : list FileStatus) :
  goesOn (printPaths useColors c files) [].
Proof.
  induction files as [|file rest IH]; cbn [printPaths]; [apply goesOn_ret|].
  apply (goesOn_bind _ _ [] []); [apply goesOn_printLine|by intros _].
Qed.

Lemma goesOn_printBucket (useColors : bool) (c : Color) (title : string)
      (files : list FileStatus) :
  goesOn (printBucket useColors c title files) [].
Proof.
  unfold printBucket. destruct (decide (0 < length files)); [|apply goesOn_ret].
  apply (goesOn_bind _ _ [] []); [apply goesOn_printLine|intros _].
  apply (goesOn_bind _ _ [] []); [apply goesOn_printPaths|intros _].
  by apply goesOn_print.
Qed.

Lemma goesOn_DisplayStatus (status : GitStatus) (useColors : bool) :
  goesOn (DisplayStatus status useColors) [["git"; "branch"; "--show-current"]].
Proof.
  unfold DisplayStatus.
  apply (goesOn_bind _ _ [] [_]); [apply goesOn_printLine|intros _].
  apply (goesOn_bind _ _ [_] []).
  { intros w. eexists _, [Exec _]. by split. }
  intros b.
  apply (goesOn_bind _ _ [] []).
  { destruct b; [apply goesOn_printLine|apply goesOn_ret]. }
  intros _. apply (goesOn_bind _ _ [] []); [by apply goesOn_print|intros _].
  do 4 (apply (goesOn_bind _ _ [] []); [apply goesOn_printBucket|intros _]).
  cbv zeta. destruct (decide (_ = 0)); [apply goesOn_printLine|apply goesOn_ret].
Qed.

(** X26. [git status], not a dry run, with a configuration that loads,
    never panics, whatever [git status --porcelain] prints: when that
    process fails the handler returns its error wrapped; otherwise the
    output parses, the handler returns [nil], and the one further process
    it has started is [git branch --show-current]. *)
Theorem gitStatusCmd_runs (w w1 : World) (cfg : Config) :
  let asking := ["git"; "status"; "--porcelain"] in
  GetRepoConfig w = (Next (Ok cfg), w1) →
  dryRun w = false →
  match process w1 (trace w1) asking with
  | Err e =>
    run cmd.gitStatusCmd w
    = (Error ("failed to get git status: " +:+ e), emit (Exec asking) w1)
  | Ok output =>
    ∃ status es,
      ParseStatus output = Some status ∧
      run cmd.gitStatusCmd w = (Nil, emitAll (Exec asking :: es) w1) ∧
      spawned es = [["git"; "branch"; "--show-current"]]
  end.
Proof.
  cbv zeta. intros Hload Hdry.
  destruct (frame_dryRun _ _ _ Hload) as (Hdry1 & _).
  unfold run, cmd.gitStatusCmd.
  erewrite bind_next; [|by apply loadConfig_ok]. cbv beta.
  erewrite bind_next; [|reflexivity]. cbv beta. rewrite Hdry1, Hdry. cbv iota.
  erewrite bind_next; [|apply Output_eq]. cbv beta.
  destruct (process w1 (trace w1) _) as [output|e]; [|reflexivity].
  destruct (parseLines_total (Split (TrimSpace output) LF) emptyStatus)
    as [status Hparse].
  unfold ParseStatus. rewrite Hparse.
  destruct (goesOn_DisplayStatus status (Colors (UI cfg)) (emit (Exec ["git"; "status"; "--porcelain"]) w1))
    as ([] & es & Hshow & Hes).
  exists status, es. split; [done|]. split; [|done].
  erewrite bind_next; [|exact Hshow]. cbv beta. unfold leave.
  by rewrite emitAll_emit.
Qed.

End GitStatusHandler.

Lemma gitStatusCmd_runs_witness :
  ∃ status es,
    git.ParseStatus ("M  a.txt" +:+ nl +:+ "D  gone.txt" +:+ nl) = Some status ∧
    run cmd.gitStatusCmd (Demo.world false [])
    = (Nil, emitAll (Exec ["git"; "status"; "--porcelain"] :: es)
                    (setConfigFile ".opsbrew.yaml" (Demo.world false []))) ∧
    spawned es = [["git"; "branch"; "--show-current"]].
Proof.
  apply (gitStatusCmd_runs (Demo.world false [])
           (setConfigFile ".opsbrew.yaml" (Demo.world false [])) Sample.cfg);
    reflexivity.
Defined.
